(** * esptool-react: the session reducer and the provider's operations

    A shallow embedding of [src/context/esploaderReducer.ts] and of the
    asynchronous operations of [src/context/ESPLoaderProvider.tsx]
    (stopConsole, connect, disconnect, program, eraseFlash, startConsole and
    the console read loop), followed by the properties proved about them.

    - The reducer is a pure function and is embedded as one.
    - An operation of the provider is a computation over the provider's
      [useRef] cells that emits a trace of events: every [dispatch], every
      timer delay and every call to a collaborator (serial port, transport,
      programmer engine).  What a collaborator answers is not decided by this
      code, so each operation takes a script of those answers as an argument.
    - React applies dispatched actions to the session state in order; the
      states a consumer can observe are obtained by replaying the dispatches
      of a trace through the reducer.

    - A callback is a closure of the render that created it: an operation
      reads the state that render had, which a sequence of invocations records
      for each call next to the state the reducer has reached.

    The development then covers the rest of the provider's facade (getTrace,
    the terminal sink, attemptConnectionRecovery, resetDevice and the cleanup
    of the provider's effect), rejections with null or undefined, the turns
    stopConsole and the read loop take at their awaits, the firmware guidance of
    [src/utils/firmwareGuidance.ts] with the handlers of the programming page
    that use it, the browser compatibility check of
    [src/utils/browserCompatibility.ts] with its hook, and the ANSI parser of
    the example console. *)

From Stdlib Require Import List String Ascii Bool Arith ZArith NArith Lia.
From Stdlib Require HexString DecimalString.
Import ListNotations.

Local Open Scope string_scope.
Local Open Scope list_scope.

Infix "^+" := String.append (right associativity, at level 60).

(** ** JavaScript string and array primitives used by the code *)

Module JS.

(** The one-character string written ["\n"] in the source. *)
Definition LF : string := String (ascii_of_nat 10) EmptyString.

(** [s.startsWith(t)] at position 0. *)
Fixpoint startsWith (s t : string) : bool :=
  match t with
  | EmptyString => true
  | String b t' =>
      match s with
      | EmptyString => false
      | String a s' => Ascii.eqb a b && startsWith s' t'
      end
  end.

(** [s.includes(t)]: [t] occurs in [s] at some position. *)
Fixpoint includes (s t : string) : bool :=
  startsWith s t ||
  match s with
  | EmptyString => false
  | String _ s' => includes s' t
  end.

(** [s.endsWith(t)]: the last [t.length] characters of [s] are [t]. *)
Definition endsWith (s t : string) : bool :=
  Nat.leb (String.length t) (String.length s) &&
  String.eqb (substring (String.length s - String.length t) (String.length t) s) t.

(** [toLowerCase] on one character; messages are modelled as ASCII text,
    where only the letters A-Z change. *)
Definition lowerChar (c : ascii) : ascii :=
  let n := nat_of_ascii c in
  if Nat.leb 65 n && Nat.leb n 90 then ascii_of_nat (n + 32) else c.

Fixpoint toLowerCase (s : string) : string :=
  match s with
  | EmptyString => EmptyString
  | String c s' => String (lowerChar c) (toLowerCase s')
  end.

(** [n.toString(16)] for a non-negative integer. *)
Definition toString16 (n : N) : string :=
  match n with
  | N0 => "0"
  | Npos p => HexString.Raw.of_pos p ""
  end.

(** A relative index of [Array.prototype.slice], clamped to [0..len]. *)
Definition clampIndex (len : nat) (i : Z) : nat :=
  if (i <? 0)%Z then Z.to_nat (Z.max (Z.of_nat len + i) 0)
  else Nat.min (Z.to_nat i) len.

(** [a.slice(start, end)]; [end] omitted is [None]. *)
Definition slice {A} (a : list A) (start : Z) (end_ : option Z) : list A :=
  let len := List.length a in
  let k := clampIndex len start in
  let final := match end_ with Some e => clampIndex len e | None => len end in
  firstn (final - k) (skipn k a).

(** [x || d] for a string that may be undefined: the empty string is falsy. *)
Definition orDefault (x : option string) (d : string) : string :=
  match x with
  | Some EmptyString | None => d
  | Some s => s
  end.

End JS.

(** ** Types of [src/types.ts] *)

(** A thrown object; the code only ever reads its [message], which may be
    undefined.  A thrown [null] or [undefined], of which no [message] can be
    read, is followed in the module [Nullish] below. *)
Record JsError : Type := { message : option string }.

Definition Error_ (msg : string) : JsError := {| message := Some msg |}.

(** A [SerialPort] object, by identity. *)
Definition SerialPort : Type := nat.

(** [new ESPLoaderTransport(device, tracing)]. *)
Record Transport : Type := { device : SerialPort; tracing : bool }.

(** [new ESPLoader(loaderOpts)]; the terminal option is always the provider's
    own terminal sink and is left out. *)
Record ESPLoader : Type :=
  { loaderTransport : Transport; loaderBaudrate : Z; loaderRomBaudrate : Z }.

(** The reader obtained from a port's readable stream. *)
Record Reader : Type := { readerOf : SerialPort }.

Record ESPFile : Type :=
  { data : string; address : N; fileName : option string }.

Record FlashProgress : Type :=
  { fileIndex : nat; progressFileName : string; written : Z; total : Z }.

Inductive DataBits : Type := Bits7 | Bits8.
Inductive StopBits : Type := Stop1 | Stop2.
Inductive Parity : Type := ParityNone | ParityEven | ParityOdd.

(** [Error | string]; the state field [error] adds [null]. *)
Inductive ErrorValue : Type :=
| ErrObject (e : JsError)
| ErrString (s : string).

Record ESPLoaderState : Type :=
  { transport : option Transport;
    esploader : option ESPLoader;
    chip : option string;
    isConnected : bool;
    isConsoleConnected : bool;
    isLoading : bool;
    isFlashing : bool;
    isErasing : bool;
    error : option ErrorValue;
    terminalOutput : list string;
    flashProgress : option FlashProgress;
    baudrate : Z;
    consoleBaudrate : Z;
    consoleDataBits : DataBits;
    consoleStopBits : StopBits;
    consoleParity : Parity;
    debugLogging : bool }.

(** The object spread [{ ...state, field: v }], one definition per field. *)

Definition with_transport (v : option Transport) (state : ESPLoaderState) : ESPLoaderState :=
  {| transport := v; esploader := esploader state; chip := chip state;
     isConnected := isConnected state; isConsoleConnected := isConsoleConnected state;
     isLoading := isLoading state; isFlashing := isFlashing state;
     isErasing := isErasing state; error := error state;
     terminalOutput := terminalOutput state; flashProgress := flashProgress state;
     baudrate := baudrate state; consoleBaudrate := consoleBaudrate state;
     consoleDataBits := consoleDataBits state; consoleStopBits := consoleStopBits state;
     consoleParity := consoleParity state; debugLogging := debugLogging state |}.

Definition with_esploader (v : option ESPLoader) (state : ESPLoaderState) : ESPLoaderState :=
  {| transport := transport state; esploader := v; chip := chip state;
     isConnected := isConnected state; isConsoleConnected := isConsoleConnected state;
     isLoading := isLoading state; isFlashing := isFlashing state;
     isErasing := isErasing state; error := error state;
     terminalOutput := terminalOutput state; flashProgress := flashProgress state;
     baudrate := baudrate state; consoleBaudrate := consoleBaudrate state;
     consoleDataBits := consoleDataBits state; consoleStopBits := consoleStopBits state;
     consoleParity := consoleParity state; debugLogging := debugLogging state |}.

Definition with_chip (v : option string) (state : ESPLoaderState) : ESPLoaderState :=
  {| transport := transport state; esploader := esploader state; chip := v;
     isConnected := isConnected state; isConsoleConnected := isConsoleConnected state;
     isLoading := isLoading state; isFlashing := isFlashing state;
     isErasing := isErasing state; error := error state;
     terminalOutput := terminalOutput state; flashProgress := flashProgress state;
     baudrate := baudrate state; consoleBaudrate := consoleBaudrate state;
     consoleDataBits := consoleDataBits state; consoleStopBits := consoleStopBits state;
     consoleParity := consoleParity state; debugLogging := debugLogging state |}.

Definition with_isConnected (v : bool) (state : ESPLoaderState) : ESPLoaderState :=
  {| transport := transport state; esploader := esploader state; chip := chip state;
     isConnected := v; isConsoleConnected := isConsoleConnected state;
     isLoading := isLoading state; isFlashing := isFlashing state;
     isErasing := isErasing state; error := error state;
     terminalOutput := terminalOutput state; flashProgress := flashProgress state;
     baudrate := baudrate state; consoleBaudrate := consoleBaudrate state;
     consoleDataBits := consoleDataBits state; consoleStopBits := consoleStopBits state;
     consoleParity := consoleParity state; debugLogging := debugLogging state |}.

Definition with_isConsoleConnected (v : bool) (state : ESPLoaderState) : ESPLoaderState :=
  {| transport := transport state; esploader := esploader state; chip := chip state;
     isConnected := isConnected state; isConsoleConnected := v; isLoading := isLoading state;
     isFlashing := isFlashing state; isErasing := isErasing state; error := error state;
     terminalOutput := terminalOutput state; flashProgress := flashProgress state;
     baudrate := baudrate state; consoleBaudrate := consoleBaudrate state;
     consoleDataBits := consoleDataBits state; consoleStopBits := consoleStopBits state;
     consoleParity := consoleParity state; debugLogging := debugLogging state |}.

Definition with_isLoading (v : bool) (state : ESPLoaderState) : ESPLoaderState :=
  {| transport := transport state; esploader := esploader state; chip := chip state;
     isConnected := isConnected state; isConsoleConnected := isConsoleConnected state;
     isLoading := v; isFlashing := isFlashing state; isErasing := isErasing state;
     error := error state; terminalOutput := terminalOutput state;
     flashProgress := flashProgress state; baudrate := baudrate state;
     consoleBaudrate := consoleBaudrate state; consoleDataBits := consoleDataBits state;
     consoleStopBits := consoleStopBits state; consoleParity := consoleParity state;
     debugLogging := debugLogging state |}.

Definition with_isFlashing (v : bool) (state : ESPLoaderState) : ESPLoaderState :=
  {| transport := transport state; esploader := esploader state; chip := chip state;
     isConnected := isConnected state; isConsoleConnected := isConsoleConnected state;
     isLoading := isLoading state; isFlashing := v; isErasing := isErasing state;
     error := error state; terminalOutput := terminalOutput state;
     flashProgress := flashProgress state; baudrate := baudrate state;
     consoleBaudrate := consoleBaudrate state; consoleDataBits := consoleDataBits state;
     consoleStopBits := consoleStopBits state; consoleParity := consoleParity state;
     debugLogging := debugLogging state |}.

Definition with_isErasing (v : bool) (state : ESPLoaderState) : ESPLoaderState :=
  {| transport := transport state; esploader := esploader state; chip := chip state;
     isConnected := isConnected state; isConsoleConnected := isConsoleConnected state;
     isLoading := isLoading state; isFlashing := isFlashing state; isErasing := v;
     error := error state; terminalOutput := terminalOutput state;
     flashProgress := flashProgress state; baudrate := baudrate state;
     consoleBaudrate := consoleBaudrate state; consoleDataBits := consoleDataBits state;
     consoleStopBits := consoleStopBits state; consoleParity := consoleParity state;
     debugLogging := debugLogging state |}.

Definition with_error (v : option ErrorValue) (state : ESPLoaderState) : ESPLoaderState :=
  {| transport := transport state; esploader := esploader state; chip := chip state;
     isConnected := isConnected state; isConsoleConnected := isConsoleConnected state;
     isLoading := isLoading state; isFlashing := isFlashing state;
     isErasing := isErasing state; error := v; terminalOutput := terminalOutput state;
     flashProgress := flashProgress state; baudrate := baudrate state;
     consoleBaudrate := consoleBaudrate state; consoleDataBits := consoleDataBits state;
     consoleStopBits := consoleStopBits state; consoleParity := consoleParity state;
     debugLogging := debugLogging state |}.

Definition with_terminalOutput (v : list string) (state : ESPLoaderState) : ESPLoaderState :=
  {| transport := transport state; esploader := esploader state; chip := chip state;
     isConnected := isConnected state; isConsoleConnected := isConsoleConnected state;
     isLoading := isLoading state; isFlashing := isFlashing state;
     isErasing := isErasing state; error := error state; terminalOutput := v;
     flashProgress := flashProgress state; baudrate := baudrate state;
     consoleBaudrate := consoleBaudrate state; consoleDataBits := consoleDataBits state;
     consoleStopBits := consoleStopBits state; consoleParity := consoleParity state;
     debugLogging := debugLogging state |}.

Definition with_flashProgress (v : option FlashProgress) (state : ESPLoaderState) : ESPLoaderState :=
  {| transport := transport state; esploader := esploader state; chip := chip state;
     isConnected := isConnected state; isConsoleConnected := isConsoleConnected state;
     isLoading := isLoading state; isFlashing := isFlashing state;
     isErasing := isErasing state; error := error state;
     terminalOutput := terminalOutput state; flashProgress := v; baudrate := baudrate state;
     consoleBaudrate := consoleBaudrate state; consoleDataBits := consoleDataBits state;
     consoleStopBits := consoleStopBits state; consoleParity := consoleParity state;
     debugLogging := debugLogging state |}.

Definition with_baudrate (v : Z) (state : ESPLoaderState) : ESPLoaderState :=
  {| transport := transport state; esploader := esploader state; chip := chip state;
     isConnected := isConnected state; isConsoleConnected := isConsoleConnected state;
     isLoading := isLoading state; isFlashing := isFlashing state;
     isErasing := isErasing state; error := error state;
     terminalOutput := terminalOutput state; flashProgress := flashProgress state;
     baudrate := v; consoleBaudrate := consoleBaudrate state;
     consoleDataBits := consoleDataBits state; consoleStopBits := consoleStopBits state;
     consoleParity := consoleParity state; debugLogging := debugLogging state |}.

Definition with_consoleBaudrate (v : Z) (state : ESPLoaderState) : ESPLoaderState :=
  {| transport := transport state; esploader := esploader state; chip := chip state;
     isConnected := isConnected state; isConsoleConnected := isConsoleConnected state;
     isLoading := isLoading state; isFlashing := isFlashing state;
     isErasing := isErasing state; error := error state;
     terminalOutput := terminalOutput state; flashProgress := flashProgress state;
     baudrate := baudrate state; consoleBaudrate := v;
     consoleDataBits := consoleDataBits state; consoleStopBits := consoleStopBits state;
     consoleParity := consoleParity state; debugLogging := debugLogging state |}.

Definition with_consoleDataBits (v : DataBits) (state : ESPLoaderState) : ESPLoaderState :=
  {| transport := transport state; esploader := esploader state; chip := chip state;
     isConnected := isConnected state; isConsoleConnected := isConsoleConnected state;
     isLoading := isLoading state; isFlashing := isFlashing state;
     isErasing := isErasing state; error := error state;
     terminalOutput := terminalOutput state; flashProgress := flashProgress state;
     baudrate := baudrate state; consoleBaudrate := consoleBaudrate state;
     consoleDataBits := v; consoleStopBits := consoleStopBits state;
     consoleParity := consoleParity state; debugLogging := debugLogging state |}.

Definition with_consoleStopBits (v : StopBits) (state : ESPLoaderState) : ESPLoaderState :=
  {| transport := transport state; esploader := esploader state; chip := chip state;
     isConnected := isConnected state; isConsoleConnected := isConsoleConnected state;
     isLoading := isLoading state; isFlashing := isFlashing state;
     isErasing := isErasing state; error := error state;
     terminalOutput := terminalOutput state; flashProgress := flashProgress state;
     baudrate := baudrate state; consoleBaudrate := consoleBaudrate state;
     consoleDataBits := consoleDataBits state; consoleStopBits := v;
     consoleParity := consoleParity state; debugLogging := debugLogging state |}.

Definition with_consoleParity (v : Parity) (state : ESPLoaderState) : ESPLoaderState :=
  {| transport := transport state; esploader := esploader state; chip := chip state;
     isConnected := isConnected state; isConsoleConnected := isConsoleConnected state;
     isLoading := isLoading state; isFlashing := isFlashing state;
     isErasing := isErasing state; error := error state;
     terminalOutput := terminalOutput state; flashProgress := flashProgress state;
     baudrate := baudrate state; consoleBaudrate := consoleBaudrate state;
     consoleDataBits := consoleDataBits state; consoleStopBits := consoleStopBits state;
     consoleParity := v; debugLogging := debugLogging state |}.

Definition with_debugLogging (v : bool) (state : ESPLoaderState) : ESPLoaderState :=
  {| transport := transport state; esploader := esploader state; chip := chip state;
     isConnected := isConnected state; isConsoleConnected := isConsoleConnected state;
     isLoading := isLoading state; isFlashing := isFlashing state;
     isErasing := isErasing state; error := error state;
     terminalOutput := terminalOutput state; flashProgress := flashProgress state;
     baudrate := baudrate state; consoleBaudrate := consoleBaudrate state;
     consoleDataBits := consoleDataBits state; consoleStopBits := consoleStopBits state;
     consoleParity := consoleParity state; debugLogging := v |}.

(** ** [src/context/esploaderReducer.ts] *)

Definition initialESPLoaderState : ESPLoaderState :=
  {| transport := None;
     esploader := None;
     chip := None;
     isConnected := false;
     isConsoleConnected := false;
     isLoading := false;
     isFlashing := false;
     isErasing := false;
     error := None;
     terminalOutput := [];
     flashProgress := None;
     baudrate := 115200;
     consoleBaudrate := 115200;
     consoleDataBits := Bits8;
     consoleStopBits := Stop1;
     consoleParity := ParityNone;
     debugLogging := false |}.

Inductive Action : Type :=
| SET_TRANSPORT (payload : option Transport)
| SET_ESPLOADER (payload : option ESPLoader)
| SET_CHIP (payload : option string)
| SET_IS_CONNECTED (payload : bool)
| SET_IS_CONSOLE_CONNECTED (payload : bool)
| SET_IS_LOADING (payload : bool)
| SET_IS_FLASHING (payload : bool)
| SET_IS_ERASING (payload : bool)
| SET_ERROR (payload : option ErrorValue)
| ADD_TERMINAL_OUTPUT (payload : string)
| APPEND_TERMINAL_OUTPUT (payload : string)
| SET_TERMINAL_OUTPUT (payload : list string)
| CLEAR_TERMINAL_OUTPUT
| SET_FLASH_PROGRESS (payload : option FlashProgress)
| SET_BAUDRATE (payload : Z)
| SET_CONSOLE_BAUDRATE (payload : Z)
| SET_CONSOLE_DATA_BITS (payload : DataBits)
| SET_CONSOLE_STOP_BITS (payload : StopBits)
| SET_CONSOLE_PARITY (payload : Parity)
| SET_DEBUG_LOGGING (payload : bool)
| RESET_STATE.

(** [a[a.length - 1]] of a list of lines; the reducer reads it only behind
    the test [a.length > 0]. *)
Definition lastLine (a : list string) : string :=
  nth (List.length a - 1) a EmptyString.

Definition esploaderReducer (state : ESPLoaderState) (action : Action) : ESPLoaderState :=
  match action with
  | SET_TRANSPORT payload => with_transport payload state
  | SET_ESPLOADER payload => with_esploader payload state
  | SET_CHIP payload => with_chip payload state
  | SET_IS_CONNECTED payload =>
      with_error None (with_isLoading false (with_isConnected payload state))
  | SET_IS_CONSOLE_CONNECTED payload =>
      with_error None (with_isLoading false (with_isConsoleConnected payload state))
  | SET_IS_LOADING payload => with_isLoading payload state
  | SET_IS_FLASHING payload => with_error None (with_isFlashing payload state)
  | SET_IS_ERASING payload => with_error None (with_isErasing payload state)
  | SET_ERROR payload =>
      with_isErasing false
        (with_isFlashing false (with_isLoading false (with_error payload state)))
  | ADD_TERMINAL_OUTPUT payload =>
      with_terminalOutput (terminalOutput state ++ [payload]) state
  | APPEND_TERMINAL_OUTPUT payload =>
      with_terminalOutput
        (if Nat.ltb 0 (List.length (terminalOutput state)) &&
            negb (JS.endsWith (lastLine (terminalOutput state)) JS.LF)
         then JS.slice (terminalOutput state) 0 (Some (-1)%Z)
                ++ [lastLine (terminalOutput state) ^+ payload]
         else terminalOutput state ++ [payload])
        state
  | SET_TERMINAL_OUTPUT payload => with_terminalOutput payload state
  | CLEAR_TERMINAL_OUTPUT => with_terminalOutput [] state
  | SET_FLASH_PROGRESS payload => with_flashProgress payload state
  | SET_BAUDRATE payload => with_baudrate payload state
  | SET_CONSOLE_BAUDRATE payload => with_consoleBaudrate payload state
  | SET_CONSOLE_DATA_BITS payload => with_consoleDataBits payload state
  | SET_CONSOLE_STOP_BITS payload => with_consoleStopBits payload state
  | SET_CONSOLE_PARITY payload => with_consoleParity payload state
  | SET_DEBUG_LOGGING payload => with_debugLogging payload state
  | RESET_STATE =>
      with_debugLogging (debugLogging state)
        (with_consoleParity (consoleParity state)
           (with_consoleStopBits (consoleStopBits state)
              (with_consoleDataBits (consoleDataBits state)
                 (with_consoleBaudrate (consoleBaudrate state)
                    (with_baudrate (baudrate state) initialESPLoaderState)))))
  end.

(** ** The provider: initial state and resource cells *)

(** The props of [ESPLoaderProvider] that reach the session state. *)
Record ProviderProps : Type :=
  { initialBaudrate : option Z;
    initialConsoleBaudrate : option Z;
    initialDebugLogging : option bool;
    initialRomBaudrate : option Z }.

(** [x ?? d]. *)
Definition nullish {A} (x : option A) (d : A) : A :=
  match x with Some v => v | None => d end.

(** The initial argument of [useReducer]. *)
Definition providerInitialState (props : ProviderProps) : ESPLoaderState :=
  with_debugLogging
    (nullish (initialDebugLogging props) (debugLogging initialESPLoaderState))
    (with_consoleBaudrate
       (nullish (initialConsoleBaudrate props) (consoleBaudrate initialESPLoaderState))
       (with_baudrate (nullish (initialBaudrate props) 115200%Z) initialESPLoaderState)).

Definition romBaudrate (props : ProviderProps) (state : ESPLoaderState) : Z :=
  nullish (initialRomBaudrate props) (baudrate state).

(** The [useRef] cells: program-mode and console-mode resources. *)
Record Refs : Type :=
  { programDevice : option SerialPort;
    programTransport : option Transport;
    esploaderInstance : option ESPLoader;
    consoleDevice : option SerialPort;
    consoleTransport : option Transport;
    consoleReader : option Reader;
    keepConsoleReading : bool;
    consoleReadingInProgress : bool }.

Definition initialRefs : Refs :=
  {| programDevice := None; programTransport := None; esploaderInstance := None;
     consoleDevice := None; consoleTransport := None; consoleReader := None;
     keepConsoleReading := false; consoleReadingInProgress := false |}.

(** Assignment to the [current] of one cell. *)

Definition put_programDevice (v : option SerialPort) (r : Refs) : Refs :=
  {| programDevice := v; programTransport := programTransport r;
     esploaderInstance := esploaderInstance r; consoleDevice := consoleDevice r;
     consoleTransport := consoleTransport r; consoleReader := consoleReader r;
     keepConsoleReading := keepConsoleReading r;
     consoleReadingInProgress := consoleReadingInProgress r |}.

Definition put_programTransport (v : option Transport) (r : Refs) : Refs :=
  {| programDevice := programDevice r; programTransport := v;
     esploaderInstance := esploaderInstance r; consoleDevice := consoleDevice r;
     consoleTransport := consoleTransport r; consoleReader := consoleReader r;
     keepConsoleReading := keepConsoleReading r;
     consoleReadingInProgress := consoleReadingInProgress r |}.

Definition put_esploaderInstance (v : option ESPLoader) (r : Refs) : Refs :=
  {| programDevice := programDevice r; programTransport := programTransport r;
     esploaderInstance := v; consoleDevice := consoleDevice r;
     consoleTransport := consoleTransport r; consoleReader := consoleReader r;
     keepConsoleReading := keepConsoleReading r;
     consoleReadingInProgress := consoleReadingInProgress r |}.

Definition put_consoleDevice (v : option SerialPort) (r : Refs) : Refs :=
  {| programDevice := programDevice r; programTransport := programTransport r;
     esploaderInstance := esploaderInstance r; consoleDevice := v;
     consoleTransport := consoleTransport r; consoleReader := consoleReader r;
     keepConsoleReading := keepConsoleReading r;
     consoleReadingInProgress := consoleReadingInProgress r |}.

Definition put_consoleTransport (v : option Transport) (r : Refs) : Refs :=
  {| programDevice := programDevice r; programTransport := programTransport r;
     esploaderInstance := esploaderInstance r; consoleDevice := consoleDevice r;
     consoleTransport := v; consoleReader := consoleReader r;
     keepConsoleReading := keepConsoleReading r;
     consoleReadingInProgress := consoleReadingInProgress r |}.

Definition put_consoleReader (v : option Reader) (r : Refs) : Refs :=
  {| programDevice := programDevice r; programTransport := programTransport r;
     esploaderInstance := esploaderInstance r; consoleDevice := consoleDevice r;
     consoleTransport := consoleTransport r; consoleReader := v;
     keepConsoleReading := keepConsoleReading r;
     consoleReadingInProgress := consoleReadingInProgress r |}.

Definition put_keepConsoleReading (v : bool) (r : Refs) : Refs :=
  {| programDevice := programDevice r; programTransport := programTransport r;
     esploaderInstance := esploaderInstance r; consoleDevice := consoleDevice r;
     consoleTransport := consoleTransport r; consoleReader := consoleReader r;
     keepConsoleReading := v; consoleReadingInProgress := consoleReadingInProgress r |}.

Definition put_consoleReadingInProgress (v : bool) (r : Refs) : Refs :=
  {| programDevice := programDevice r; programTransport := programTransport r;
     esploaderInstance := esploaderInstance r; consoleDevice := consoleDevice r;
     consoleTransport := consoleTransport r; consoleReader := consoleReader r;
     keepConsoleReading := keepConsoleReading r; consoleReadingInProgress := v |}.

(** ** Events and the monad of asynchronous operations *)

Record SerialOptions : Type :=
  { baudRate : Z; dataBits : DataBits; stopBits : StopBits; parity : Parity }.

(** An entry of the [fileArray] handed to the engine. *)
Record FlashFile : Type :=
  { imageData : string; imageAddress : N; name : string }.

(** The [FlashOptions] the engine receives, callbacks apart. *)
Record FlashOptions : Type :=
  { fileArray : list FlashFile;
    flashSize : string;
    flashMode : string;
    flashFreq : string;
    eraseAll : bool;
    compress : bool }.

(** The caller's partial options of [program]: a field left out is [None]. *)
Record FlashOverrides : Type :=
  { overrideFlashSize : option string;
    overrideFlashMode : option string;
    overrideFlashFreq : option string;
    overrideEraseAll : option bool;
    overrideCompress : option bool }.

Definition noOverrides : FlashOverrides :=
  {| overrideFlashSize := None; overrideFlashMode := None; overrideFlashFreq := None;
     overrideEraseAll := None; overrideCompress := None |}.

(** Calls into the collaborators. *)
Inductive ExternalCall : Type :=
| GetSerialInstance
| RequestPort
| PortOpen (port : SerialPort) (options : SerialOptions)
| PortClose (port : SerialPort)
| GetReader (port : SerialPort)
| ReaderRead (reader : Reader)
| ReaderCancel (reader : Reader)
| ReaderReleaseLock (reader : Reader)
| TransportDisconnect (t : Transport)
| LoaderMain (loader : ESPLoader)
| LoaderWriteFlash (loader : ESPLoader) (options : FlashOptions)
| LoaderEraseFlash (loader : ESPLoader).

Inductive Event : Type :=
| Dispatch (action : Action)
| Delay (ms : Z)
| Call (c : ExternalCall)
| StartReadLoop (reader : Reader).

Inductive Outcome (A : Type) : Type :=
| Returned (a : A)
| Thrown (e : JsError).
Arguments Returned {A} a.
Arguments Thrown {A} e.

(** One run of an operation from given cells: how it ended, the cells it
    left, and the events it produced, oldest first. *)
Record Run (A : Type) : Type :=
  { outcome : Outcome A; refsAfter : Refs; events : list Event }.
Arguments outcome {A} _.
Arguments refsAfter {A} _.
Arguments events {A} _.

Definition M (A : Type) : Type := Refs -> Run A.

Definition ret {A} (a : A) : M A :=
  fun r => {| outcome := Returned a; refsAfter := r; events := [] |}.

Definition throw {A} (e : JsError) : M A :=
  fun r => {| outcome := Thrown e; refsAfter := r; events := [] |}.

Definition bind {A B} (m : M A) (k : A -> M B) : M B :=
  fun r =>
    match m r with
    | {| outcome := Returned a; refsAfter := r1; events := evs1 |} =>
        match k a r1 with
        | {| outcome := o; refsAfter := r2; events := evs2 |} =>
            {| outcome := o; refsAfter := r2; events := evs1 ++ evs2 |}
        end
    | {| outcome := Thrown e; refsAfter := r1; events := evs1 |} =>
        {| outcome := Thrown e; refsAfter := r1; events := evs1 |}
    end.

Notation "x <- m ;; k" := (bind m (fun x => k))
  (at level 61, m at next level, right associativity).
Notation "m ;; k" := (bind m (fun _ => k))
  (at level 61, right associativity).

Definition emit (e : Event) : M unit :=
  fun r => {| outcome := Returned tt; refsAfter := r; events := [e] |}.

(** [dispatch(action)]. *)
Definition dispatch (action : Action) : M unit := emit (Dispatch action).

(** [await new Promise(resolve => setTimeout(resolve, ms))]. *)
Definition delay (ms : Z) : M unit := emit (Delay ms).

(** A call that yields no value: [answer] is the error it raises, if any. *)
Definition await (c : ExternalCall) (answer : option JsError) : M unit :=
  emit (Call c) ;;
  match answer with
  | None => ret tt
  | Some e => throw e
  end.

(** A call that yields a value. *)
Definition awaitValue {A} (c : ExternalCall) (answer : Outcome A) : M A :=
  emit (Call c) ;;
  match answer with
  | Returned a => ret a
  | Thrown e => throw e
  end.

(** Reading and writing the cells. *)
Definition current : M Refs :=
  fun r => {| outcome := Returned r; refsAfter := r; events := [] |}.

Definition assign (f : Refs -> Refs) : M unit :=
  fun r => {| outcome := Returned tt; refsAfter := f r; events := [] |}.

(** [try { body } catch (e) { handler e }]. *)
Definition tryCatch {A} (body : M A) (handler : JsError -> M A) : M A :=
  fun r =>
    match body r with
    | {| outcome := Returned a; refsAfter := r1; events := evs1 |} =>
        {| outcome := Returned a; refsAfter := r1; events := evs1 |}
    | {| outcome := Thrown e; refsAfter := r1; events := evs1 |} =>
        match handler e r1 with
        | {| outcome := o; refsAfter := r2; events := evs2 |} =>
            {| outcome := o; refsAfter := r2; events := evs1 ++ evs2 |}
        end
    end.

(** [try { body } finally { finalizer }]: the finalizer runs on every exit,
    and the body's outcome stands unless the finalizer throws. *)
Definition tryFinally {A} (body : M A) (finalizer : M unit) : M A :=
  fun r =>
    match body r with
    | {| outcome := o1; refsAfter := r1; events := evs1 |} =>
        match finalizer r1 with
        | {| outcome := Returned _; refsAfter := r2; events := evs2 |} =>
            {| outcome := o1; refsAfter := r2; events := evs1 ++ evs2 |}
        | {| outcome := Thrown e; refsAfter := r2; events := evs2 |} =>
            {| outcome := Thrown e; refsAfter := r2; events := evs1 ++ evs2 |}
        end
    end.

(** [try { body } catch (e) { log }]: the error is logged and dropped. *)
Definition ignoreErrors (body : M unit) : M unit :=
  tryCatch body (fun _ => ret tt).

(** [if (x) { k x }] for a nullable [x]. *)
Definition whenSome {A} (x : option A) (k : A -> M unit) : M unit :=
  match x with
  | Some a => k a
  | None => ret tt
  end.

(** [if (b) { k }]. *)
Definition when (b : bool) (k : M unit) : M unit :=
  if b then k else ret tt.

(** The text a template literal prints for [e.message]. *)
Definition messageText (e : JsError) : string :=
  match message e with
  | Some m => m
  | None => "undefined"
  end.

(** ** Replaying a trace through the reducer *)

(** The session state after each dispatch of a trace, in order. *)
Fixpoint snapshots (state : ESPLoaderState) (evs : list Event) : list ESPLoaderState :=
  match evs with
  | [] => []
  | Dispatch action :: evs' =>
      let state' := esploaderReducer state action in
      state' :: snapshots state' evs'
  | _ :: evs' => snapshots state evs'
  end.

(** The session state once every dispatch of a trace is applied. *)
Fixpoint replay (state : ESPLoaderState) (evs : list Event) : ESPLoaderState :=
  match evs with
  | [] => state
  | Dispatch action :: evs' => replay (esploaderReducer state action) evs'
  | _ :: evs' => replay state evs'
  end.

(** ** [src/context/ESPLoaderProvider.tsx]: the operations

    Logging has no effect on the session and is left out.  The argument
    [state] of an operation is the state object its closure captured. *)

(** *** stopConsole *)

Record StopConsoleEnv : Type :=
  { stopCancel : option JsError;       (* consoleReader.current.cancel() *)
    stopDisconnect : option JsError;   (* consoleTransport.current.disconnect() *)
    stopReadable : bool;               (* consoleDevice.current.readable *)
    stopClose : option JsError }.      (* consoleDevice.current.close() *)

Definition stopConsole (env : StopConsoleEnv) : M unit :=
  assign (put_keepConsoleReading false) ;;
  assign (put_consoleReadingInProgress false) ;;
  r <- current ;;
  whenSome (consoleReader r) (fun reader =>
    ignoreErrors (await (ReaderCancel reader) (stopCancel env)) ;;
    assign (put_consoleReader None)) ;;
  r <- current ;;
  whenSome (consoleTransport r) (fun t =>
    ignoreErrors (await (TransportDisconnect t) (stopDisconnect env))) ;;
  assign (put_consoleTransport None) ;;
  r <- current ;;
  whenSome (consoleDevice r) (fun port =>
    when (stopReadable env)
      (ignoreErrors (await (PortClose port) (stopClose env)))) ;;
  assign (put_consoleDevice None) ;;
  dispatch (SET_IS_CONSOLE_CONNECTED false).

(** *** connect *)

Definition maxRetries : nat := 3.

(** [connectError.message?.toLowerCase() || ""]. *)
Definition lowerMessage (connectError : JsError) : string :=
  match message connectError with
  | Some m => JS.toLowerCase m
  | None => ""
  end.

(** The test that stops the retries. *)
Definition isPermissionError (connectError : JsError) : bool :=
  JS.includes (lowerMessage connectError) "permission" ||
  JS.includes (lowerMessage connectError) "access denied".

(** The test that adds the extra delay before the next retry. *)
Definition isCommunicationError (connectError : JsError) : bool :=
  JS.includes (lowerMessage connectError) "timeout" ||
  JS.includes (lowerMessage connectError) "sync" ||
  JS.includes (lowerMessage connectError) "invalid data".

(** How one pass through the body of the retry loop ends. *)
Inductive LoopControl : Type := Break | Continue.

(** The loop [for (let attempt = 1; attempt <= maxRetries; attempt++)], from
    a given value of [attempt]; [remaining] is the number of values of
    [attempt] not yet tried, [maxRetries + 1 - attempt].  [mainResult n] is
    what [loader.main()] answers on attempt [n]. *)
Fixpoint retryLoop (remaining attempt : nat) (loader : ESPLoader)
    (mainResult : nat -> option JsError) : M unit :=
  match remaining with
  | O => ret tt
  | S remaining' =>
      control <-
        tryCatch
          (when (1 <? attempt)%nat (delay (1000 * Z.of_nat attempt)) ;;
           await (LoaderMain loader) (mainResult attempt) ;;
           ret Break)
          (fun connectError =>
             if (attempt =? maxRetries)%nat then throw connectError
             else if isPermissionError connectError then throw connectError
             else
               when (isCommunicationError connectError) (delay 2000) ;;
               ret Continue) ;;
      match control with
      | Break => ret tt
      | Continue => retryLoop remaining' (S attempt) loader mainResult
      end
  end.

Definition handshake (loader : ESPLoader) (mainResult : nat -> option JsError) : M unit :=
  retryLoop maxRetries 1 loader mainResult.

(** The error built by the [catch] that follows the retry loop.  Its [try]
    block is [await Promise.resolve()]. *)
Definition remediation (connectError : JsError) : JsError :=
  let errorMsg := lowerMessage connectError in
  if JS.includes errorMsg "timeout" || JS.includes errorMsg "timed out" then
    Error_ ("Connection timeout after retries. Try these steps:" ^+ JS.LF ^+
            "1. Hold the BOOT button while connecting" ^+ JS.LF ^+
            "2. Press and release RESET, then BOOT" ^+ JS.LF ^+
            "3. Check your USB cable and try a different port" ^+ JS.LF ^+
            "4. Try a lower baudrate (115200)")
  else if JS.includes errorMsg "invalid data" || JS.includes errorMsg "sync failed"
          || JS.includes errorMsg "read timeout" then
    Error_ ("Device communication failed after retries. This usually means the device is not in bootloader mode." ^+ JS.LF ^+ JS.LF ^+
            "Try these steps:" ^+ JS.LF ^+
            "1. Put device in bootloader mode:" ^+ JS.LF ^+
            "   • Hold BOOT button, press RESET, release RESET, release BOOT" ^+ JS.LF ^+
            "   • OR hold BOOT button while plugging in USB" ^+ JS.LF ^+
            "2. Try a much lower baudrate (115200)" ^+ JS.LF ^+
            "3. Check that you have the right USB drivers" ^+ JS.LF ^+
            "4. Make sure no other programs are using the port" ^+ JS.LF ^+
            "5. Try a different USB cable/port")
  else if JS.includes errorMsg "access denied" || JS.includes errorMsg "permission" then
    Error_ ("Permission denied. Try these steps:" ^+ JS.LF ^+
            "1. Close other programs using the serial port" ^+ JS.LF ^+
            "2. Disconnect and reconnect the device" ^+ JS.LF ^+
            "3. Try running as administrator (Windows)" ^+ JS.LF ^+
            "4. Check device permissions (Linux/Mac)")
  else if JS.includes errorMsg "device not found" || JS.includes errorMsg "no device" then
    Error_ ("Device not found. Try these steps:" ^+ JS.LF ^+
            "1. Check USB connection" ^+ JS.LF ^+
            "2. Install proper USB drivers" ^+ JS.LF ^+
            "3. Try a different USB port/cable" ^+ JS.LF ^+
            "4. Verify device is powered on")
  else if JS.includes errorMsg "busy" || JS.includes errorMsg "in use" then
    Error_ ("Device is busy or in use. Try these steps:" ^+ JS.LF ^+
            "1. Close other serial monitor programs" ^+ JS.LF ^+
            "2. Disconnect from console mode first" ^+ JS.LF ^+
            "3. Reset the device" ^+ JS.LF ^+
            "4. Wait a moment and try again")
  else
    Error_ ("Connection failed after 3 attempts: " ^+ messageText connectError ^+ JS.LF ^+ JS.LF ^+
            "General troubleshooting:" ^+ JS.LF ^+
            "1. Put ESP device in bootloader mode:" ^+ JS.LF ^+
            "   • Hold BOOT button, press RESET, release RESET, release BOOT" ^+ JS.LF ^+
            "   • OR hold BOOT while connecting USB" ^+ JS.LF ^+
            "2. Try a lower baudrate (115200 instead of 921600)" ^+ JS.LF ^+
            "3. Check USB cable and drivers" ^+ JS.LF ^+
            "4. Close other programs using the serial port" ^+ JS.LF ^+
            "5. Try a different USB port").

(** [userMessage] of the outer [catch], from [errorMessage]. *)
Definition userMessage (errorMessage : string) : string :=
  if JS.includes errorMessage "timeout" then
    "Connection timeout. Try pressing the BOOT button on your device while connecting."
  else if JS.includes errorMessage "NetworkError"
          || JS.includes errorMessage "Failed to execute 'open'" then
    "USB connection error. Try disconnecting and reconnecting your device."
  else if JS.includes errorMessage "invalid data"
          || JS.includes errorMessage "Invalid data" then
    "Received invalid data. Try a different baudrate or check your USB connection."
  else errorMessage.

Record ConnectEnv : Type :=
  { connectStop : StopConsoleEnv;                    (* the nested stopConsole() *)
    connectSerial : option JsError;                  (* getSerialInstance() *)
    connectRequestPort : Outcome (option SerialPort);  (* serialControl.requestPort() *)
    connectMain : nat -> option JsError;             (* loader.main(), by attempt *)
    connectChipName : string;                        (* loader.chip.CHIP_NAME *)
    cleanupDisconnect : option JsError;              (* programTransport.current.disconnect() *)
    cleanupReadable : bool;                          (* programDevice.current.readable *)
    cleanupClose : option JsError }.                 (* programDevice.current.close() *)

(** The [catch (e)] of [connect]. *)
Definition connectFailed (env : ConnectEnv) (e : JsError) : M string :=
  let errorMessage := JS.orDefault (message e) "Failed to connect" in
  dispatch (SET_ERROR (Some (ErrString (userMessage errorMessage)))) ;;
  dispatch (SET_IS_CONNECTED false) ;;
  r <- current ;;
  whenSome (programTransport r) (fun t =>
    ignoreErrors (await (TransportDisconnect t) (cleanupDisconnect env))) ;;
  assign (put_programTransport None) ;;
  r <- current ;;
  whenSome (programDevice r) (fun port =>
    ignoreErrors
      (when (cleanupReadable env) (await (PortClose port) (cleanupClose env)) ;;
       delay 1000)) ;;
  assign (put_programDevice None) ;;
  assign (put_esploaderInstance None) ;;
  ret "".

(** The [try] block of [connect]. *)
Definition connectAttempt (state : ESPLoaderState) (romBaudrate : Z)
    (portToUse : option SerialPort) (env : ConnectEnv) : M string :=
  await GetSerialInstance (connectSerial env) ;;
  selectedPort <-
    match portToUse with
    | Some port => ret (Some port)
    | None => awaitValue RequestPort (connectRequestPort env)
    end ;;
  match selectedPort with
  | None =>
      dispatch (SET_ERROR (Some (ErrString "No port selected"))) ;;
      dispatch (SET_IS_LOADING false) ;;
      ret ""
  | Some selectedPort =>
      assign (put_programDevice (Some selectedPort)) ;;
      let transport := {| device := selectedPort; tracing := debugLogging state |} in
      assign (put_programTransport (Some transport)) ;;
      let loader :=
        {| loaderTransport := transport;
           loaderBaudrate := baudrate state;
           loaderRomBaudrate := romBaudrate |} in
      assign (put_esploaderInstance (Some loader)) ;;
      handshake loader (connectMain env) ;;
      tryCatch (ret tt) (fun connectError => throw (remediation connectError)) ;;
      dispatch (SET_ESPLOADER (Some loader)) ;;
      dispatch (SET_TRANSPORT (Some transport)) ;;
      dispatch (SET_IS_CONNECTED true) ;;
      dispatch (SET_CHIP (Some (connectChipName env))) ;;
      ret (connectChipName env)
  end.

(** The [try]/[catch]/[finally] statement of [connect]. *)
Definition connectProtected (state : ESPLoaderState) (romBaudrate : Z)
    (portToUse : option SerialPort) (env : ConnectEnv) : M string :=
  tryFinally
    (tryCatch (connectAttempt state romBaudrate portToUse env) (connectFailed env))
    (dispatch (SET_IS_LOADING false)).

Definition connect (state : ESPLoaderState) (romBaudrate : Z)
    (portToUse : option SerialPort) (env : ConnectEnv) : M string :=
  dispatch (SET_IS_LOADING true) ;;
  dispatch (SET_ERROR None) ;;
  when (isConsoleConnected state) (stopConsole (connectStop env)) ;;
  connectProtected state romBaudrate portToUse env.

(** *** disconnect *)

Record DisconnectEnv : Type :=
  { disconnectTransport : option JsError;   (* programTransport.current.disconnect() *)
    disconnectReadable : bool;              (* programDevice.current.readable *)
    disconnectClose : option JsError }.     (* programDevice.current.close() *)

(** The [finally] block of [disconnect]. *)
Definition disconnectFinally : M unit :=
  dispatch (SET_IS_CONNECTED false) ;;
  dispatch (SET_ESPLOADER None) ;;
  dispatch (SET_TRANSPORT None) ;;
  dispatch (SET_CHIP None) ;;
  dispatch (SET_IS_LOADING false).

Definition disconnect (env : DisconnectEnv) : M unit :=
  dispatch (SET_IS_LOADING true) ;;
  tryFinally
    (tryCatch
       (r <- current ;;
        whenSome (programTransport r) (fun t =>
          await (TransportDisconnect t) (disconnectTransport env)) ;;
        r <- current ;;
        whenSome (programDevice r) (fun port =>
          ignoreErrors
            (when (disconnectReadable env)
               (await (PortClose port) (disconnectClose env))) ;;
          delay 2000) ;;
        dispatch RESET_STATE ;;
        assign (put_programDevice None) ;;
        assign (put_programTransport None) ;;
        assign (put_esploaderInstance None))
       (fun e =>
          let errorMessage := JS.orDefault (message e) "Failed to disconnect" in
          dispatch (SET_ERROR (Some (ErrString errorMessage)))))
    disconnectFinally.

(** *** program and eraseFlash *)

Definition notConnectedMessage : string :=
  "Not connected in Program mode. Please connect to a device first.".

(** The dereference of a cell that holds [null]. *)
Definition nullDereference : JsError :=
  Error_ "Cannot read properties of null".

Definition isNull {A} (x : option A) : bool :=
  match x with Some _ => false | None => true end.

(** [f.fileName || `file_0x${f.address.toString(16)}`]. *)
Definition toFlashFile (f : ESPFile) : FlashFile :=
  {| imageData := data f;
     imageAddress := address f;
     name := JS.orDefault (fileName f) ("file_0x" ^+ JS.toString16 (address f)) |}.

(** The defaults of [program], then [...options]. *)
Definition flashOptionsFor (files : list FlashFile) (options : FlashOverrides) : FlashOptions :=
  {| fileArray := files;
     flashSize := nullish (overrideFlashSize options) "keep";
     flashMode := nullish (overrideFlashMode options) "keep";
     flashFreq := nullish (overrideFlashFreq options) "keep";
     eraseAll := nullish (overrideEraseAll options) false;
     compress := nullish (overrideCompress options) true |}.

(** One call of [reportProgress(fIndex, written, total)]. *)
Record ProgressReport : Type :=
  { reportIndex : nat; reportWritten : Z; reportTotal : Z }.

Definition reportProgress (files : list FlashFile) (p : ProgressReport) : M unit :=
  let fileName :=
    JS.orDefault (option_map name (nth_error files (reportIndex p))) "Unknown file" in
  dispatch (SET_FLASH_PROGRESS
              (Some {| fileIndex := reportIndex p; progressFileName := fileName;
                       written := reportWritten p; total := reportTotal p |})).

Fixpoint reportAll (files : list FlashFile) (reports : list ProgressReport) : M unit :=
  match reports with
  | [] => ret tt
  | p :: reports' => reportProgress files p ;; reportAll files reports'
  end.

Record ProgramEnv : Type :=
  { programReports : list ProgressReport;   (* the engine's progress callbacks *)
    programWriteFlash : option JsError }.   (* how writeFlash(flashOptions) ends *)

Definition program (state : ESPLoaderState) (files : list ESPFile)
    (options : FlashOverrides) (env : ProgramEnv) : M unit :=
  r <- current ;;
  if isNull (esploaderInstance r) || negb (isConnected state) then
    dispatch (SET_ERROR (Some (ErrString notConnectedMessage)))
  else
    dispatch (SET_IS_FLASHING true) ;;
    dispatch (SET_ERROR None) ;;
    let fileArray := map toFlashFile files in
    tryFinally
      (tryCatch
         (r <- current ;;
          match esploaderInstance r with
          | None => throw nullDereference
          | Some loader =>
              emit (Call (LoaderWriteFlash loader (flashOptionsFor fileArray options))) ;;
              reportAll fileArray (programReports env) ;;
              match programWriteFlash env with
              | None => ret tt
              | Some e => throw e
              end
          end)
         (fun e =>
            let errorMsg := JS.orDefault (message e) "Failed to program" in
            dispatch (SET_ERROR (Some (ErrString errorMsg)))))
      (dispatch (SET_IS_FLASHING false) ;;
       dispatch (SET_FLASH_PROGRESS None)).

Definition eraseFlash (state : ESPLoaderState) (eraseResult : option JsError) : M unit :=
  r <- current ;;
  if isNull (esploaderInstance r) || negb (isConnected state) then
    dispatch (SET_ERROR (Some (ErrString notConnectedMessage)))
  else
    dispatch (SET_IS_ERASING true) ;;
    dispatch (SET_ERROR None) ;;
    tryFinally
      (tryCatch
         (r <- current ;;
          match esploaderInstance r with
          | None => throw nullDereference
          | Some loader => await (LoaderEraseFlash loader) eraseResult
          end)
         (fun e =>
            let errorMsg := JS.orDefault (message e) "Failed to erase flash" in
            dispatch (SET_ERROR (Some (ErrString errorMsg)))))
      (dispatch (SET_IS_ERASING false)).

(** *** startConsole *)

(** What [port.readable] is: absent, or a stream that is locked or not. *)
Inductive StreamState : Type := NoStream | StreamUnlocked | StreamLocked.

Record StartConsoleEnv : Type :=
  { startDisconnect : DisconnectEnv;              (* the nested disconnect() *)
    staleReadable : bool;                         (* leftover device: readable *)
    staleClose : option JsError;                  (* leftover device: close() *)
    startSerial : option JsError;                 (* getSerialInstance() *)
    startRequestPort : Outcome (option SerialPort);   (* serialControl.requestPort() *)
    openBefore : bool;                            (* selected port: readable *)
    closeBefore : option JsError;                 (* selected port: close() *)
    startOpen : option JsError;                   (* open(options) *)
    streamAfterOpen : StreamState;
    recoveryClose : option JsError;               (* lock recovery: close() *)
    recoveryOpen : option JsError;                (* lock recovery: open(options) *)
    streamAfterRecovery : StreamState;
    startGetReader : Outcome (option Reader);     (* readable.getReader() *)
    failureDisconnect : option JsError;           (* catch: transport disconnect() *)
    failureReadable : bool;                       (* catch: readable *)
    failureClose : option JsError }.              (* catch: close() *)

Definition consoleOptions (state : ESPLoaderState) : SerialOptions :=
  {| baudRate := consoleBaudrate state;
     dataBits := consoleDataBits state;
     stopBits := consoleStopBits state;
     parity := consoleParity state |}.

(** The recovery from a stream that is already locked. *)
Definition recoverFromLock (state : ESPLoaderState) (port : SerialPort)
    (env : StartConsoleEnv) : M unit :=
  tryCatch
    (await (PortClose port) (recoveryClose env) ;;
     delay 1000 ;;
     await (PortOpen port (consoleOptions state)) (recoveryOpen env) ;;
     match streamAfterRecovery env with
     | NoStream => throw (Error_ "Failed to reopen port for console mode")
     | StreamLocked =>
         throw (Error_ "ReadableStream is still locked after recovery attempt. Please refresh the page and try again.")
     | StreamUnlocked => ret tt
     end)
    (fun recoveryError =>
       throw (Error_ ("ReadableStream recovery failed: " ^+ messageText recoveryError
                      ^+ ". Please refresh the page and try again."))).

(** The [try] block of [startConsole]. *)
Definition startConsoleAttempt (state : ESPLoaderState)
    (portToUse : option SerialPort) (env : StartConsoleEnv) : M unit :=
  await GetSerialInstance (startSerial env) ;;
  selectedPort <-
    match portToUse with
    | Some port => ret (Some port)
    | None => awaitValue RequestPort (startRequestPort env)
    end ;;
  match selectedPort with
  | None =>
      dispatch (SET_ERROR (Some (ErrString "No port selected for console."))) ;;
      dispatch (SET_IS_LOADING false)
  | Some port =>
      assign (put_consoleDevice (Some port)) ;;
      when (openBefore env)
        (ignoreErrors (await (PortClose port) (closeBefore env) ;; delay 500)) ;;
      await (PortOpen port (consoleOptions state)) (startOpen env) ;;
      assign (put_consoleTransport
                (Some {| device := port; tracing := debugLogging state |})) ;;
      assign (put_keepConsoleReading true) ;;
      dispatch (SET_IS_CONSOLE_CONNECTED true) ;;
      match streamAfterOpen env with
      | NoStream => throw (Error_ "No readable stream available from serial port")
      | StreamLocked => recoverFromLock state port env
      | StreamUnlocked => ret tt
      end ;;
      reader <- awaitValue (GetReader port) (startGetReader env) ;;
      match reader with
      | None => throw (Error_ "Failed to get reader for console.")
      | Some reader =>
          assign (put_consoleReader (Some reader)) ;;
          r <- current ;;
          if consoleReadingInProgress r then ret tt
          else
            assign (put_consoleReadingInProgress true) ;;
            emit (StartReadLoop reader)
      end
  end.

(** The [catch (e)] of [startConsole]; its transport disconnect is not
    guarded, so its failure leaves the handler. *)
Definition startConsoleFailed (env : StartConsoleEnv) (e : JsError) : M unit :=
  let errorMessage := JS.orDefault (message e) "Failed to start console" in
  dispatch (SET_ERROR (Some (ErrString errorMessage))) ;;
  r <- current ;;
  whenSome (consoleTransport r) (fun t =>
    await (TransportDisconnect t) (failureDisconnect env)) ;;
  assign (put_consoleTransport None) ;;
  r <- current ;;
  whenSome (consoleDevice r) (fun port =>
    when (failureReadable env)
      (ignoreErrors (await (PortClose port) (failureClose env)))) ;;
  assign (put_consoleDevice None) ;;
  dispatch (SET_IS_CONSOLE_CONNECTED false).

(** [startConsole] from its test of [state.isConsoleConnected] on. *)
Definition startConsoleProper (state : ESPLoaderState) (portToUse : option SerialPort)
    (env : StartConsoleEnv) : M unit :=
  if isConsoleConnected state then dispatch (SET_IS_LOADING false)
  else
    r <- current ;;
    whenSome (consoleDevice r) (fun port =>
      ignoreErrors (when (staleReadable env) (await (PortClose port) (staleClose env))) ;;
      assign (put_consoleDevice None)) ;;
    tryFinally
      (tryCatch (startConsoleAttempt state portToUse env) (startConsoleFailed env))
      (dispatch (SET_IS_LOADING false)).

Definition startConsole (state : ESPLoaderState) (portToUse : option SerialPort)
    (env : StartConsoleEnv) : M unit :=
  dispatch (SET_IS_LOADING true) ;;
  dispatch (SET_ERROR None) ;;
  when (isConnected state) (disconnect (startDisconnect env) ;; delay 2000) ;;
  startConsoleProper state portToUse env.

(** *** The console read loop

    The detached task started by [startConsole].  [reads] are the results of
    the calls of [reader.read()] that settle during the run; when they are
    used up while the loop test still holds, the task is waiting on a read
    and nothing more happens in this run. *)

Inductive ReadResult : Type :=
| ReadDone                               (* { done: true } *)
| ReadValue (decodedText : option string)  (* { value }, decoded; [None]: no value *)
| ReadFailed (error : JsError).          (* reader.read() rejects *)

Record ReadLoopEnv : Type :=
  { loopReads : list ReadResult;
    loopRelease : option JsError;      (* reader.releaseLock() *)
    loopDisconnect : option JsError;   (* consoleTransport.current.disconnect() *)
    loopReadable : bool;               (* consoleDevice.current.readable *)
    loopClose : option JsError }.      (* consoleDevice.current.close() *)

(** The [while] loop; the result tells whether the loop was left. *)
Fixpoint readWhile (reader : Reader) (reads : list ReadResult) : M bool :=
  r <- current ;;
  if keepConsoleReading r && consoleReadingInProgress r then
    match reads with
    | [] => ret false
    | result :: reads' =>
        emit (Call (ReaderRead reader)) ;;
        match result with
        | ReadDone => ret true
        | ReadValue (Some decodedText) =>
            dispatch (APPEND_TERMINAL_OUTPUT decodedText) ;;
            readWhile reader reads'
        | ReadValue None => readWhile reader reads'
        | ReadFailed error =>
            r <- current ;;
            when (keepConsoleReading r)
              (dispatch (SET_ERROR
                 (Some (ErrString ("Console read error: " ^+ messageText error))))) ;;
            ret true
        end
    end
  else ret true.

(** The [finally] block of the task. *)
Definition readLoopFinally (reader : Reader) (env : ReadLoopEnv) : M unit :=
  assign (put_consoleReadingInProgress false) ;;
  ignoreErrors (await (ReaderReleaseLock reader) (loopRelease env)) ;;
  r <- current ;;
  when (negb (keepConsoleReading r))
    (r <- current ;;
     whenSome (consoleTransport r) (fun t =>
       ignoreErrors (await (TransportDisconnect t) (loopDisconnect env)) ;;
       assign (put_consoleTransport None)) ;;
     r <- current ;;
     whenSome (consoleDevice r) (fun port =>
       when (loopReadable env)
         (ignoreErrors (await (PortClose port) (loopClose env)))) ;;
     assign (put_consoleDevice None) ;;
     dispatch (SET_IS_CONSOLE_CONNECTED false)).

Definition consoleReadLoop (reader : Reader) (env : ReadLoopEnv) : M unit :=
  left <- readWhile reader (loopReads env) ;;
  when left (readLoopFinally reader env).

(** ** The cleanup of the provider's effect

    The effect reads four cells into constants when it is set up; its
    cleanup function uses these constants and the [state.isConnected] of the
    render that set the effect up, reads the reader cell as it is when the
    cleanup runs, and empties five cells.  The calls are not awaited and
    their rejections are only logged. *)

Record EffectCapture : Type :=
  { programTransportRef : option Transport;
    consoleTransportRef : option Transport;
    programDeviceRef : option SerialPort;
    consolePortRef : option SerialPort;
    capturedIsConnected : bool }.

(** What the effect captures when it is set up with the cells [r] in the
    render of [state]. *)
Definition captureAt (state : ESPLoaderState) (r : Refs) : EffectCapture :=
  {| programTransportRef := programTransport r;
     consoleTransportRef := consoleTransport r;
     programDeviceRef := programDevice r;
     consolePortRef := consoleDevice r;
     capturedIsConnected := isConnected state |}.

Record CleanupEnv : Type :=
  { consolePortReadable : bool;     (* consolePortRef.readable *)
    programPortReadable : bool }.   (* programDeviceRef.readable *)

Definition providerCleanup (captured : EffectCapture) (env : CleanupEnv) : M unit :=
  assign (put_keepConsoleReading false) ;;
  r <- current ;;
  whenSome (consoleReader r) (fun reader => emit (Call (ReaderCancel reader))) ;;
  whenSome (consoleTransportRef captured) (fun t =>
    emit (Call (TransportDisconnect t))) ;;
  whenSome (consolePortRef captured) (fun port =>
    when (consolePortReadable env) (emit (Call (PortClose port)))) ;;
  whenSome (programTransportRef captured) (fun t =>
    when (capturedIsConnected captured) (emit (Call (TransportDisconnect t)))) ;;
  whenSome (programDeviceRef captured) (fun port =>
    when (programPortReadable env) (emit (Call (PortClose port)))) ;;
  assign (put_esploaderInstance None) ;;
  assign (put_programTransport None) ;;
  assign (put_programDevice None) ;;
  assign (put_consoleTransport None) ;;
  assign (put_consoleDevice None).

(** ** The sequential scheduling model

    The consumer invokes one operation at a time and lets it finish; the
    detached read loop runs between two invocations.

    A callback is a closure of the render that created it.  [connect],
    [startConsole], [program] and [eraseFlash] read the [state] object of
    that render, not the state the reducer has reached when they run, so an
    invocation of one of them records the state its closure captured.
    [disconnect] and [stopConsole] read no state.

    [setDebugLogging] is the one setter that reaches the cells: the logger is
    memoised on [state.debugLogging] and the provider's effect depends on the
    logger, so a call that changes the flag is followed by the cleanup of the
    effect, run with what the effect captured, after which the effect is set
    up again. *)

Inductive Invocation : Type :=
| InvokeConnect (captured : ESPLoaderState)
    (portToUse : option SerialPort) (env : ConnectEnv)
| InvokeStartConsole (captured : ESPLoaderState)
    (portToUse : option SerialPort) (env : StartConsoleEnv)
| InvokeDisconnect (env : DisconnectEnv)
| InvokeStopConsole (env : StopConsoleEnv)
| InvokeProgram (captured : ESPLoaderState)
    (files : list ESPFile) (options : FlashOverrides) (env : ProgramEnv)
| InvokeEraseFlash (captured : ESPLoaderState) (eraseResult : option JsError)
| ResumeReadLoop (reader : Reader) (env : ReadLoopEnv)
| InvokeSetDebugLogging (enabled : bool) (env : CleanupEnv).

(** One invocation; [state] is the state the reducer has reached and
    [effect] what the provider's effect captured when it was last set up. *)
Definition invoke (props : ProviderProps) (state : ESPLoaderState)
    (effect : EffectCapture) (i : Invocation) : M unit :=
  match i with
  | InvokeConnect captured portToUse env =>
      connect captured (romBaudrate props captured) portToUse env ;; ret tt
  | InvokeStartConsole captured portToUse env => startConsole captured portToUse env
  | InvokeDisconnect env => disconnect env
  | InvokeStopConsole env => stopConsole env
  | InvokeProgram captured files options env => program captured files options env
  | InvokeEraseFlash captured eraseResult => eraseFlash captured eraseResult
  | ResumeReadLoop reader env => consoleReadLoop reader env
  | InvokeSetDebugLogging enabled env =>
      dispatch (SET_DEBUG_LOGGING enabled) ;;
      when (negb (Bool.eqb enabled (debugLogging state))) (providerCleanup effect env)
  end.

(** What the effect holds after an invocation that left the state [state']
    and the cells [r']: it is set up again when the logger changed. *)
Definition effectAfter (state : ESPLoaderState) (effect : EffectCapture)
    (i : Invocation) (state' : ESPLoaderState) (r' : Refs) : EffectCapture :=
  match i with
  | InvokeSetDebugLogging enabled _ =>
      if Bool.eqb enabled (debugLogging state) then effect else captureAt state' r'
  | _ => effect
  end.

(** The effect as the first render sets it up. *)
Definition mountedEffect (props : ProviderProps) : EffectCapture :=
  captureAt (providerInitialState props) initialRefs.

(** The trace of a sequence of invocations from a session state, an effect
    and cells. *)
Fixpoint session (props : ProviderProps) (state : ESPLoaderState)
    (effect : EffectCapture) (r : Refs) (calls : list Invocation) : list Event :=
  match calls with
  | [] => []
  | i :: calls' =>
      let x := invoke props state effect i r in
      let state' := replay state (events x) in
      events x ++
      session props state' (effectAfter state effect i state' (refsAfter x))
        (refsAfter x) calls'
  end.

(** An invocation made through the callback of the latest render: the state
    its closure captured agrees with the state reached on every field of the
    callback's dependency list.  [startConsole] reads
    [state.isConsoleConnected] without listing it, so that field may be
    older. *)
Definition latestRender (state : ESPLoaderState) (i : Invocation) : Prop :=
  match i with
  | InvokeConnect captured _ _ =>
      baudrate captured = baudrate state /\
      debugLogging captured = debugLogging state /\
      isConsoleConnected captured = isConsoleConnected state
  | InvokeStartConsole captured _ _ =>
      consoleBaudrate captured = consoleBaudrate state /\
      consoleDataBits captured = consoleDataBits state /\
      consoleStopBits captured = consoleStopBits state /\
      consoleParity captured = consoleParity state /\
      debugLogging captured = debugLogging state /\
      isConnected captured = isConnected state
  | InvokeProgram captured _ _ _ => isConnected captured = isConnected state
  | InvokeEraseFlash captured _ => isConnected captured = isConnected state
  | _ => True
  end.

(** Every invocation of a sequence is made through the callback of the
    latest render. *)
Fixpoint fromLatestRender (props : ProviderProps) (state : ESPLoaderState)
    (effect : EffectCapture) (r : Refs) (calls : list Invocation) : Prop :=
  match calls with
  | [] => True
  | i :: calls' =>
      latestRender state i /\
      let x := invoke props state effect i r in
      let state' := replay state (events x) in
      fromLatestRender props state' (effectAfter state effect i state' (refsAfter x))
        (refsAfter x) calls'
  end.

(** An invocation that leaves the logger as it is with the debug switch at
    [debug]: any operation, or [setDebugLogging] with the value the switch
    has. *)
Definition keepsLogger (debug : bool) (i : Invocation) : Prop :=
  match i with
  | InvokeSetDebugLogging enabled _ => enabled = debug
  | _ => True
  end.

(** At most one of the two modes is marked connected. *)
Definition mutuallyExclusive (state : ESPLoaderState) : Prop :=
  isConnected state && isConsoleConnected state = false.

(** ** Predicates on traces *)

(** Whether an action can turn a connection flag on. *)
Definition turnsOnConnected (e : Event) : bool :=
  match e with
  | Dispatch (SET_IS_CONNECTED true) => true
  | _ => false
  end.

Definition turnsOnConsoleConnected (e : Event) : bool :=
  match e with
  | Dispatch (SET_IS_CONSOLE_CONNECTED true) => true
  | _ => false
  end.

Definition isMainCall (e : Event) : bool :=
  match e with
  | Call (LoaderMain _) => true
  | _ => false
  end.

(** The number of handshake attempts of a trace. *)
Definition attempts (evs : list Event) : nat :=
  List.length (filter isMainCall evs).

(** Every event of every run of [m] satisfies [P]. *)
Definition emitsOnly {A} (P : Event -> Prop) (m : M A) : Prop :=
  forall r, Forall P (events (m r)).

(** [t] occurs in [s] at some position. *)
Definition occursIn (t s : string) : Prop :=
  exists before after, s = before ^+ t ^+ after.

(** The failure classes in the words of the retry policy: the message of
    the failure, letter case apart, contains the word. *)
Definition messageContains (word : string) (e : JsError) : Prop :=
  exists m, message e = Some m /\ occursIn word (JS.toLowerCase m).

Definition permissionFailure (e : JsError) : Prop :=
  messageContains "permission" e \/ messageContains "access denied" e.

Definition communicationFailure (e : JsError) : Prop :=
  messageContains "timeout" e \/ messageContains "sync" e \/
  messageContains "invalid data" e.

(** The events of attempt [n] as the retry policy words them: the delay of
    n x 1000 ms before a retry, the handshake call, and the extra 2000 ms when
    the attempt fails with a communication error and a retry follows. *)
Definition policyAttemptEvents (loader : ESPLoader)
    (mainResult : nat -> option JsError) (n : nat) : list Event :=
  (if (2 <=? n)%nat then [Delay (Z.of_nat n * 1000)] else []) ++
  [Call (LoaderMain loader)] ++
  match mainResult n with
  | Some e =>
      if (n <? maxRetries)%nat && negb (isPermissionError e) && isCommunicationError e
      then [Delay 2000]
      else []
  | None => []
  end.

(** What [connect] dispatches and calls from its [catch] on, for a thrown
    [e], the transport [t] and the selected [port]. *)
Definition connectFailureEvents (env : ConnectEnv) (t : Transport) (port : SerialPort)
    (e : JsError) : list Event :=
  [Dispatch (SET_ERROR (Some (ErrString
     (userMessage (JS.orDefault (message e) "Failed to connect")))));
   Dispatch (SET_IS_CONNECTED false);
   Call (TransportDisconnect t)]
  ++ (if cleanupReadable env
      then Call (PortClose port)
           :: match cleanupClose env with
              | None => [Delay 1000]
              | Some _ => []
              end
      else [Delay 1000])
  ++ [Dispatch (SET_IS_LOADING false)].

(** ** Inputs of the examples *)

(** A provider mounted without optional props. *)
Definition plainProps : ProviderProps :=
  {| initialBaudrate := None; initialConsoleBaudrate := None;
     initialDebugLogging := None; initialRomBaudrate := None |}.

Definition examplePort : SerialPort := 1.

Definition quietStop : StopConsoleEnv :=
  {| stopCancel := None; stopDisconnect := None; stopReadable := true; stopClose := None |}.

(** A connect in which the user picks [examplePort] and every handshake
    attempt answers [mainResult]. *)
Definition connectWith (mainResult : nat -> option JsError) : ConnectEnv :=
  {| connectStop := quietStop;
     connectSerial := None;
     connectRequestPort := Returned (Some examplePort);
     connectMain := mainResult;
     connectChipName := "ESP32";
     cleanupDisconnect := None;
     cleanupReadable := true;
     cleanupClose := None |}.

(** The session after a successful connect from the initial state. *)
Definition connectedRun : Run string :=
  connect initialESPLoaderState 115200 None (connectWith (fun _ => None)) initialRefs.

Definition connectedState : ESPLoaderState :=
  replay initialESPLoaderState (events connectedRun).

Definition connectedRefs : Refs := refsAfter connectedRun.

Definition exampleFile : ESPFile :=
  {| data := "AAAA"; address := 4096; fileName := None |}.

Definition quietDisconnect : DisconnectEnv :=
  {| disconnectTransport := None; disconnectReadable := true; disconnectClose := None |}.

Definition exampleReader : Reader := {| readerOf := examplePort |}.

(** A second serial port of the host. *)
Definition secondPort : SerialPort := 2.

(** A console start in which the user picks [secondPort], closed so far,
    and every call succeeds. *)
Definition startOnSecondPort : StartConsoleEnv :=
  {| startDisconnect := quietDisconnect;
     staleReadable := false;
     staleClose := None;
     startSerial := None;
     startRequestPort := Returned (Some secondPort);
     openBefore := false;
     closeBefore := None;
     startOpen := None;
     streamAfterOpen := StreamUnlocked;
     recoveryClose := None;
     recoveryOpen := None;
     streamAfterRecovery := StreamUnlocked;
     startGetReader := Returned (Some {| readerOf := secondPort |});
     failureDisconnect := None;
     failureReadable := false;
     failureClose := None |}.

(** A console start in which the user picks [examplePort], closed so far,
    and every call succeeds. *)
Definition quietStart : StartConsoleEnv :=
  {| startDisconnect := quietDisconnect;
     staleReadable := false;
     staleClose := None;
     startSerial := None;
     startRequestPort := Returned (Some examplePort);
     openBefore := false;
     closeBefore := None;
     startOpen := None;
     streamAfterOpen := StreamUnlocked;
     recoveryClose := None;
     recoveryOpen := None;
     streamAfterRecovery := StreamUnlocked;
     startGetReader := Returned (Some exampleReader);
     failureDisconnect := None;
     failureReadable := false;
     failureClose := None |}.

(** ** The rest of the public facade *)

(** [getTrace]. *)
Definition getTrace (state : ESPLoaderState) : list string :=
  if negb (isConnected state) && negb (isConsoleConnected state) then []
  else JS.slice (terminalOutput state) (-50)%Z None.

(** The terminal sink [esploaderTerminal] handed to the engine: [clean()],
    [writeLine(data)] and [write(data)]. *)
Inductive TerminalCall : Type :=
| Clean
| WriteLine (data : string)
| Write (data : string).

Definition esploaderTerminal (c : TerminalCall) : M unit :=
  match c with
  | Clean => dispatch CLEAR_TERMINAL_OUTPUT
  | WriteLine data => dispatch (ADD_TERMINAL_OUTPUT data)
  | Write data => dispatch (APPEND_TERMINAL_OUTPUT data)
  end.

(** The trace of a sequence of calls of the terminal sink. *)
Definition terminalTrace (calls : list TerminalCall) : list Event :=
  flat_map (fun c => events (esploaderTerminal c initialRefs)) calls.

(** The text a terminal call adds to the buffer. *)
Definition writtenText (c : TerminalCall) : string :=
  match c with
  | Clean => ""
  | WriteLine data => data
  | Write data => data
  end.

(** All the lines of a buffer, one after the other. *)
Definition joined (lines : list string) : string :=
  fold_right String.append "" lines.

(** [s !== ""] as a condition: whether a string is truthy. *)
Definition truthy (s : string) : bool :=
  match s with
  | EmptyString => false
  | String _ _ => true
  end.

(** *** attemptConnectionRecovery *)



(** ** Predicates on operations and sessions *)

(** Whatever [m] throws satisfies [Q]. *)
Definition throwsOnly {A} (Q : JsError -> Prop) (m : M A) : Prop :=
  forall r e, outcome (m r) = Thrown e -> Q e.

(** No busy indicator is on. *)
Definition idle (state : ESPLoaderState) : Prop :=
  isLoading state = false /\ isFlashing state = false /\
  isErasing state = false /\ flashProgress state = None.

(** The six configuration fields. *)
Definition configuration (state : ESPLoaderState)
  : Z * Z * DataBits * StopBits * Parity * bool :=
  (baudrate state, consoleBaudrate state, consoleDataBits state,
   consoleStopBits state, consoleParity state, debugLogging state).

(** The five settings of the two serial lines. *)
Definition portSettings (state : ESPLoaderState)
  : Z * Z * DataBits * StopBits * Parity :=
  (baudrate state, consoleBaudrate state, consoleDataBits state,
   consoleStopBits state, consoleParity state).

(** Events that leave the five settings of the serial lines alone. *)
Definition keepsPortSettings (e : Event) : Prop :=
  match e with
  | Dispatch (SET_BAUDRATE _) | Dispatch (SET_CONSOLE_BAUDRATE _)
  | Dispatch (SET_CONSOLE_DATA_BITS _) | Dispatch (SET_CONSOLE_STOP_BITS _)
  | Dispatch (SET_CONSOLE_PARITY _) => False
  | _ => True
  end.

(** The actions that change a configuration field. *)
Definition changesConfiguration (action : Action) : bool :=
  match action with
  | SET_BAUDRATE _ | SET_CONSOLE_BAUDRATE _ | SET_CONSOLE_DATA_BITS _
  | SET_CONSOLE_STOP_BITS _ | SET_CONSOLE_PARITY _ | SET_DEBUG_LOGGING _ => true
  | _ => false
  end.

Definition keepsConfiguration (e : Event) : Prop :=
  match e with
  | Dispatch action => changesConfiguration action = false
  | _ => True
  end.

(** Events that leave the configuration alone while the debug switch is at
    [debug]: no setter but SET_DEBUG_LOGGING with that value. *)
Definition keepsConfigurationAt (debug : bool) (e : Event) : Prop :=
  match e with
  | Dispatch (SET_DEBUG_LOGGING payload) => payload = debug
  | Dispatch action => changesConfiguration action = false
  | _ => True
  end.

(** The actions that turn one of the three busy flags on. *)
Definition raisesFlag (action : Action) : bool :=
  match action with
  | SET_IS_LOADING true | SET_IS_FLASHING true | SET_IS_ERASING true => true
  | _ => false
  end.

(** Events that turn no busy flag on. *)
Definition raisesNoFlag (e : Event) : Prop :=
  match e with
  | Dispatch action => raisesFlag action = false
  | _ => True
  end.

(** Events that turn no busy flag on and report no flash progress. *)
Definition calm (e : Event) : Prop :=
  match e with
  | Dispatch (SET_FLASH_PROGRESS (Some _)) => False
  | Dispatch action => raisesFlag action = false
  | _ => True
  end.

(** The three busy flags are off. *)
Definition flagsOff (state : ESPLoaderState) : Prop :=
  isLoading state = false /\ isFlashing state = false /\ isErasing state = false.

(** Of the successive states of a run, the first has the flag on and all
    the later ones, of which there is at least one, have it off. *)
Definition onOnlyAtFirst (flag : ESPLoaderState -> bool)
    (states : list ESPLoaderState) : Prop :=
  match states with
  | [] => False
  | first :: later =>
      flag first = true /\ later <> [] /\ Forall (fun s => flag s = false) later
  end.

(** The session state and the cells after each completed invocation of a
    sequence, in order. *)
Fixpoint boundaries (props : ProviderProps) (state : ESPLoaderState)
    (effect : EffectCapture) (r : Refs) (calls : list Invocation)
  : list (ESPLoaderState * Refs) :=
  match calls with
  | [] => []
  | i :: calls' =>
      let x := invoke props state effect i r in
      let state' := replay state (events x) in
      (state', refsAfter x)
      :: boundaries props state' (effectAfter state effect i state' (refsAfter x))
           (refsAfter x) calls'
  end.

(** The session says it is connected in program mode only with its handles
    and the program-mode cells in place. *)
Definition programCoherent (sr : ESPLoaderState * Refs) : Prop :=
  isConnected (fst sr) = true ->
  esploader (fst sr) <> None /\ transport (fst sr) <> None /\ chip (fst sr) <> None /\
  programDevice (snd sr) <> None /\ programTransport (snd sr) <> None /\
  esploaderInstance (snd sr) <> None.

(** Every run of [m] leaves the cells related by [R] to what they were. *)
Definition keepsRefs {A} (R : Refs -> Refs -> Prop) (m : M A) : Prop :=
  forall r, R r (refsAfter (m r)).

Definition sameProgramCells (r r' : Refs) : Prop :=
  programDevice r' = programDevice r /\
  programTransport r' = programTransport r /\
  esploaderInstance r' = esploaderInstance r.

(** The fields of the state that describe the program-mode connection. *)
Definition programFields (state : ESPLoaderState)
  : bool * option ESPLoader * option Transport * option string :=
  (isConnected state, esploader state, transport state, chip state).

Definition keepsProgramFields (e : Event) : Prop :=
  match e with
  | Dispatch (SET_IS_CONNECTED _) | Dispatch (SET_ESPLOADER _)
  | Dispatch (SET_TRANSPORT _) | Dispatch (SET_CHIP _) | Dispatch RESET_STATE => False
  | _ => True
  end.

(** Events that are no dispatch. *)
Definition silent (e : Event) : Prop :=
  match e with
  | Dispatch _ => False
  | _ => True
  end.


(** ** The terminal buffer as text *)

(** The text the terminal shows after a sequence of calls of the sink, from
    the text it showed before: [clean] empties it, [writeLine] and [write]
    add their data at the end. *)
Definition shownText (before : string) (calls : list TerminalCall) : string :=
  fold_left (fun text c =>
               match c with
               | Clean => ""
               | WriteLine data => text ^+ data
               | Write data => text ^+ data
               end) calls before.

(** The text decoded from the reads of one run of the read loop: the chunks
    up to the first read that ends the stream or fails. *)
Fixpoint receivedText (reads : list ReadResult) : string :=
  match reads with
  | ReadValue (Some decodedText) :: reads' => decodedText ^+ receivedText reads'
  | ReadValue None :: reads' => receivedText reads'
  | _ => ""
  end.

(** Every entry of a buffer but the last ends with the line terminator. *)
Definition linewise (lines : list string) : Prop :=
  Forall (fun line => JS.endsWith line JS.LF = true) (removelast lines).

(** Events that leave the terminal buffer alone. *)
Definition keepsTerminal (e : Event) : Prop :=
  match e with
  | Dispatch (ADD_TERMINAL_OUTPUT _) | Dispatch (APPEND_TERMINAL_OUTPUT _)
  | Dispatch (SET_TERMINAL_OUTPUT _) | Dispatch CLEAR_TERMINAL_OUTPUT
  | Dispatch RESET_STATE => False
  | _ => True
  end.

(** ** resetDevice

    [resetDevice] calls the loader's [softReset] and the console transport's
    [write] and [setDTR]; it assigns no cell and cannot reject, so it is
    given by its trace. *)

Inductive DeviceCall : Type :=
| SoftReset (loader : ESPLoader)                 (* loader.softReset(false) *)
| TransportWrite (t : Transport) (text : string) (* transport.write(encode(text)) *)
| SetDTR (t : Transport) (level : bool).         (* transport.setDTR(level) *)

Inductive ControlEvent : Type :=
| Core (e : Event)
| Device (c : DeviceCall).

(** The character CTRL+C. *)
Definition ETX : string := String (ascii_of_nat 3) EmptyString.

(** The loop [while (attempt < maxRetries && !success)] of the program-mode
    branch, from a given value of [attempt]; [remaining] is
    [maxRetries - attempt].  [softResetResult n] is what [softReset] answers
    on attempt [n]. *)
Fixpoint resetLoop (remaining attempt : nat) (loader : ESPLoader)
    (softResetResult : nat -> option JsError) : list ControlEvent :=
  match remaining with
  | O => []
  | S remaining' =>
      let attempt := S attempt in
      Device (SoftReset loader) ::
      match softResetResult attempt with
      | None => []
      | Some e =>
          let errorMsg := JS.orDefault (message e) "Failed to reset device" in
          (if (attempt <? maxRetries)%nat
           then [Core (Delay (500 * Z.of_nat attempt))]
           else [Core (Dispatch (SET_ERROR (Some (ErrString errorMsg))))])
          ++ resetLoop remaining' attempt loader softResetResult
      end
  end.

Record ResetEnv : Type :=
  { softResetResult : nat -> option JsError;   (* loader.softReset(false), by attempt *)
    resetWrite : option JsError;               (* consoleTransport.write(...) *)
    resetDtrLow : option JsError;              (* setDTR(false) *)
    resetDtrHigh : option JsError }.           (* setDTR(true) *)

(** The [try]/[catch] of the console-mode branch. *)
Definition consoleReset (t : Transport) (env : ResetEnv) : list ControlEvent :=
  let failed e :=
    [Core (Dispatch (SET_ERROR (Some (ErrString
       (JS.orDefault (message e) "Failed to reset device from console mode")))))] in
  Device (TransportWrite t ETX) ::
  match resetWrite env with
  | Some e => failed e
  | None =>
      Core (Delay 100) :: Device (SetDTR t false) ::
      match resetDtrLow env with
      | Some e => failed e
      | None =>
          Core (Delay 100) :: Device (SetDTR t true) ::
          match resetDtrHigh env with
          | Some e => failed e
          | None => []
          end
      end
  end.

Definition notConnectedInAnyMode : string :=
  "Not connected in any mode. Please connect to a device first.".

Definition resetDevice (state : ESPLoaderState) (r : Refs) (env : ResetEnv)
  : list ControlEvent :=
  match isConnected state, esploaderInstance r with
  | true, Some loader => resetLoop maxRetries 0 loader (softResetResult env)
  | _, _ =>
      match isConsoleConnected state, consoleTransport r with
      | true, Some t => consoleReset t env
      | _, _ => [Core (Dispatch (SET_ERROR (Some (ErrString notConnectedInAnyMode))))]
      end
  end.

(** The events of a control trace that reach the reducer and the cells'
    collaborators of the other operations. *)
Definition coreEvents (evs : list ControlEvent) : list Event :=
  flat_map (fun e => match e with Core e => [e] | Device _ => [] end) evs.

Definition isSoftReset (e : ControlEvent) : bool :=
  match e with
  | Device (SoftReset _) => true
  | _ => false
  end.

(** ** [src/types.ts] and [src/utils/firmwareGuidance.ts]

    The guidance module is the second document of [unnamed/part_006]. *)

Inductive FirmwareFileType : Type :=
| Bootloader | PartitionTable | App | OtaData | Nvs | PhyInit | Unknown.

(** The string each type is in the source. *)
Definition typeName (t : FirmwareFileType) : string :=
  match t with
  | Bootloader => "bootloader"
  | PartitionTable => "partition_table"
  | App => "app"
  | OtaData => "ota_data"
  | Nvs => "nvs"
  | PhyInit => "phy_init"
  | Unknown => "unknown"
  end.

Definition typeEqb (t u : FirmwareFileType) : bool :=
  match t, u with
  | Bootloader, Bootloader | PartitionTable, PartitionTable | App, App
  | OtaData, OtaData | Nvs, Nvs | PhyInit, PhyInit | Unknown, Unknown => true
  | _, _ => false
  end.

Record FirmwareFileInfo : Type :=
  { fileType : FirmwareFileType;
    isRequired : bool;
    description : string;
    recommendedAddress : option N;
    validAddresses : option (list N);
    chipSpecific : option bool }.

(** [requiredFiles] and [commonAddresses] are objects keyed by file type;
    their entries are kept in the order they are written in. *)
Record ChipFirmwareRequirements : Type :=
  { chipName : string;
    bootloaderAddress : N;
    requiredFiles : list (FirmwareFileType * FirmwareFileInfo);
    commonAddresses : list (FirmwareFileType * N) }.

Record FileValidationResult : Type :=
  { isValid : bool;
    warnings : list string;
    errors : list string;
    suggestions : list string;
    detectedType : FirmwareFileType }.

Record AddressConflict : Type :=
  { file1 : string; file2 : string; conflictAddress : N }.

Record FirmwareValidationSummary : Type :=
  { isComplete : bool;
    missingRequired : list FirmwareFileType;
    addressConflicts : list AddressConflict;
    summaryWarnings : list string;
    summarySuggestions : list string }.

(** [o[key]] on an object keyed by file type. *)
Fixpoint typeLookup {A} (o : list (FirmwareFileType * A)) (key : FirmwareFileType)
  : option A :=
  match o with
  | [] => None
  | (k, v) :: o' => if typeEqb k key then Some v else typeLookup o' key
  end.

Definition bootloaderInfo (chip : string) (at_ : N) : FirmwareFileInfo :=
  {| fileType := Bootloader; isRequired := true;
     description := "Second-stage bootloader for " ^+ chip;
     recommendedAddress := Some at_; validAddresses := Some [at_];
     chipSpecific := Some true |}.

Definition partitionTableInfo : FirmwareFileInfo :=
  {| fileType := PartitionTable; isRequired := true;
     description := "Partition table defining flash memory layout";
     recommendedAddress := Some 32768%N; validAddresses := Some [32768%N];
     chipSpecific := None |}.

Definition appInfo : FirmwareFileInfo :=
  {| fileType := App; isRequired := true;
     description := "Main application firmware";
     recommendedAddress := Some 65536%N; validAddresses := Some [65536%N];
     chipSpecific := None |}.

Definition nvsInfo : FirmwareFileInfo :=
  {| fileType := Nvs; isRequired := false;
     description := "Non-volatile storage partition";
     recommendedAddress := Some 36864%N; validAddresses := None;
     chipSpecific := None |}.

Definition phyInitInfo : FirmwareFileInfo :=
  {| fileType := PhyInit; isRequired := false;
     description := "PHY initialization data";
     recommendedAddress := Some 61440%N; validAddresses := None;
     chipSpecific := None |}.

(** The entries with the two optional partitions (ESP8266 and ESP32) and
    without them (ESP32-S2, ESP32-S3 and ESP32-C3). *)
Definition requirementsWithStorage (chip : string) (bootAt : N) : ChipFirmwareRequirements :=
  {| chipName := chip;
     bootloaderAddress := bootAt;
     requiredFiles :=
       [(Bootloader, bootloaderInfo chip bootAt); (PartitionTable, partitionTableInfo);
        (App, appInfo); (Nvs, nvsInfo); (PhyInit, phyInitInfo)];
     commonAddresses :=
       [(Bootloader, bootAt); (PartitionTable, 32768%N); (Nvs, 36864%N);
        (PhyInit, 61440%N); (App, 65536%N)] |}.

Definition requirementsPlain (chip : string) : ChipFirmwareRequirements :=
  {| chipName := chip;
     bootloaderAddress := 0%N;
     requiredFiles :=
       [(Bootloader, bootloaderInfo chip 0%N); (PartitionTable, partitionTableInfo);
        (App, appInfo)];
     commonAddresses :=
       [(Bootloader, 0%N); (PartitionTable, 32768%N); (App, 65536%N)] |}.

Definition CHIP_REQUIREMENTS : list (string * ChipFirmwareRequirements) :=
  [("ESP8266", requirementsWithStorage "ESP8266" 0%N);
   ("ESP32", requirementsWithStorage "ESP32" 4096%N);
   ("ESP32-S2", requirementsPlain "ESP32-S2");
   ("ESP32-S3", requirementsPlain "ESP32-S3");
   ("ESP32-C3", requirementsPlain "ESP32-C3")].

(** [CHIP_REQUIREMENTS] is an object literal: a key it does not have itself
    is looked up on [Object.prototype], whose properties are objects and
    functions without the fields of a requirements record. *)
Definition objectPrototypeKeys : list string :=
  ["constructor"; "__defineGetter__"; "__defineSetter__"; "hasOwnProperty";
   "__lookupGetter__"; "__lookupSetter__"; "isPrototypeOf"; "propertyIsEnumerable";
   "toString"; "valueOf"; "__proto__"; "toLocaleString"].

Inductive Property (A : Type) : Type :=
| Own (value : A)     (* a property of the object itself *)
| Inherited           (* a property of Object.prototype *)
| Absent.             (* undefined *)

Arguments Own {A} value.
Arguments Inherited {A}.
Arguments Absent {A}.

Fixpoint ownProperty {A} (o : list (string * A)) (key : string) : option A :=
  match o with
  | [] => None
  | (k, v) :: o' => if String.eqb k key then Some v else ownProperty o' key
  end.

(** [CHIP_REQUIREMENTS[chipType]]. *)
Definition chipProperty (chipType : string) : Property ChipFirmwareRequirements :=
  match ownProperty CHIP_REQUIREMENTS chipType with
  | Some requirements => Own requirements
  | None =>
      if existsb (String.eqb chipType) objectPrototypeKeys then Inherited else Absent
  end.

(** The TypeError of reading a field of [undefined]. *)
Definition undefinedDereference : JsError :=
  Error_ "Cannot read properties of undefined".

Definition detectFileType (fileName : string) (address : N) : FirmwareFileType :=
  let name := JS.toLowerCase fileName in
  if JS.includes name "bootloader" then Bootloader
  else if JS.includes name "partition"
          && (JS.includes name "table" || JS.includes name "partitions")
  then PartitionTable
  else if JS.includes name "ota" && JS.includes name "data" then OtaData
  else if JS.includes name "nvs" then Nvs
  else if JS.includes name "phy" && JS.includes name "init" then PhyInit
  else if (address =? 0)%N || (address =? 4096)%N then Bootloader
  else if (address =? 32768)%N then PartitionTable
  else if (address =? 36864)%N then Nvs
  else if (address =? 53248)%N then OtaData
  else if (address =? 61440)%N then PhyInit
  else if (address =? 65536)%N then App
  else if (65536 <=? address)%N && (address mod 65536 =? 0)%N then App
  else Unknown.

(** [`0x${a.toString(16)}`]. *)
Definition hex (a : N) : string := "0x" ^+ JS.toString16 a.

(** [a.join(separator)]. *)
Fixpoint join (separator : string) (a : list string) : string :=
  match a with
  | [] => ""
  | [x] => x
  | x :: a' => x ^+ separator ^+ join separator a'
  end.

(** [chipType] as a condition: [null] and the empty string are falsy. *)
Definition chipGiven (chipType : option string) : option string :=
  match chipType with
  | Some c => if truthy c then Some c else None
  | None => None
  end.

Definition wrongAddressMessage (detected : FirmwareFileType) (valid : list N)
    (address : N) : string :=
  typeName detected ^+ " should be at address " ^+ join " or " (map hex valid)
  ^+ ", but is at " ^+ hex address.

Definition recommendedMessage (detected : FirmwareFileType) (recommended : N) : string :=
  "Consider using recommended address " ^+ hex recommended ^+ " for " ^+ typeName detected.

Definition alignmentMessage : string :=
  "App partitions must be aligned to 64KB (0x10000) boundaries".

Definition validateFile (file : ESPFile) (chipType : option string)
  : Outcome FileValidationResult :=
  let detected := detectFileType (JS.orDefault (fileName file) "") (address file) in
  let result warnings_ :=
    {| isValid := true; warnings := warnings_; errors := []; suggestions := [];
       detectedType := detected |} in
  match chipGiven chipType with
  | None => Returned (result ["Connect to device to get chip-specific validation"])
  | Some chipType =>
      match chipProperty chipType with
      | Absent => Returned (result ["Unknown chip type: " ^+ chipType])
      | Inherited => Thrown undefinedDereference
      | Own chipRequirements =>
          let fileInfo := typeLookup (requiredFiles chipRequirements) detected in
          let addressErrors :=
            match fileInfo with
            | Some info =>
                match validAddresses info with
                | Some valid =>
                    if existsb (N.eqb (address file)) valid then []
                    else [wrongAddressMessage detected valid (address file)]
                | None => []
                end
            | None => []
            end in
          let suggested :=
            match fileInfo with
            | Some info =>
                match recommendedAddress info with
                | Some recommended =>
                    if negb (recommended =? 0)%N && negb (recommended =? address file)%N
                    then [recommendedMessage detected recommended]
                    else []
                | None => []
                end
            | None => []
            end in
          let warned :=
            match fileInfo with
            | Some _ => []
            | None =>
                if typeEqb detected Unknown
                then ["Could not detect file type - please verify this is the correct file"]
                else []
            end in
          let alignmentErrors :=
            if typeEqb detected App && negb (address file mod 65536 =? 0)%N
            then [alignmentMessage] else [] in
          Returned
            {| isValid :=
                 match addressErrors ++ alignmentErrors with [] => true | _ => false end;
               warnings := warned;
               errors := addressErrors ++ alignmentErrors;
               suggestions := suggested;
               detectedType := detected |}
      end
  end.

(** The [Map] from addresses to file names, in insertion order. *)
Fixpoint addName (addressMap : list (N * list string)) (address : N) (name : string)
  : list (N * list string) :=
  match addressMap with
  | [] => [(address, [name])]
  | (a, names) :: addressMap' =>
      if (a =? address)%N then (a, names ++ [name]) :: addressMap'
      else (a, names) :: addName addressMap' address name
  end.

Definition displayName (file : ESPFile) : string :=
  JS.orDefault (fileName file) ("file_" ^+ hex (address file)).

Definition addressMapOf (files : list ESPFile) : list (N * list string) :=
  fold_left (fun addressMap file => addName addressMap (address file) (displayName file))
    files [].

(** The pairs [(fileNames[i], fileNames[j])], [i < j], in the order of the
    two nested loops. *)
Fixpoint pairsAt (address : N) (fileNames : list string) : list AddressConflict :=
  match fileNames with
  | [] => []
  | first :: rest =>
      map (fun second => {| file1 := first; file2 := second; conflictAddress := address |})
        rest
      ++ pairsAt address rest
  end.

Definition conflictsOf (addressMap : list (N * list string)) : list AddressConflict :=
  flat_map (fun entry => pairsAt (fst entry) (snd entry)) addressMap.

(** How many names the map holds for an address. *)
Fixpoint namesCount (addressMap : list (N * list string)) (address : N) : nat :=
  match addressMap with
  | [] => 0
  | (a, names) :: addressMap' =>
      (if (a =? address)%N then List.length names else 0) + namesCount addressMap' address
  end.

Definition presentTypes (files : list ESPFile) : list FirmwareFileType :=
  map (fun file => detectFileType (JS.orDefault (fileName file) "") (address file)) files.

Definition missingOf (chipRequirements : ChipFirmwareRequirements)
    (present : list FirmwareFileType) : list FirmwareFileType :=
  map fst
    (filter (fun entry => isRequired (snd entry)
                          && negb (existsb (typeEqb (fst entry)) present))
       (requiredFiles chipRequirements)).

Definition missingMessage (chipType : string)
    (chipRequirements : ChipFirmwareRequirements) (missing : list FirmwareFileType)
  : string :=
  "Missing required files: " ^+ join ", " (map typeName missing) ^+ ". " ^+
  "For " ^+ chipType ^+ ", you typically need: bootloader (" ^+
  hex (bootloaderAddress chipRequirements) ^+ "), " ^+
  "partition table (0x8000), and app (0x10000).".

Definition validateFirmwareSet (files : list ESPFile) (chipType : option string)
  : Outcome FirmwareValidationSummary :=
  let summary warnings_ :=
    {| isComplete := false; missingRequired := []; addressConflicts := [];
       summaryWarnings := warnings_; summarySuggestions := [] |} in
  match chipGiven chipType with
  | None => Returned (summary ["Connect to device for comprehensive validation"])
  | Some chipType =>
      match chipProperty chipType with
      | Absent => Returned (summary ["Unknown chip type: " ^+ chipType])
      | Inherited => Thrown undefinedDereference
      | Own chipRequirements =>
          let missing := missingOf chipRequirements (presentTypes files) in
          let conflicts := conflictsOf (addressMapOf files) in
          let complete :=
            match missing, conflicts with [], [] => true | _, _ => false end in
          Returned
            {| isComplete := complete;
               missingRequired := missing;
               addressConflicts := conflicts;
               summaryWarnings := [];
               summarySuggestions :=
                 match missing with
                 | [] => []
                 | _ => [missingMessage chipType chipRequirements missing]
                 end |}
      end
  end.

(** [getChipRequirements]; an inherited property is returned as it is. *)
Definition getChipRequirements (chipType : option string)
  : Property ChipFirmwareRequirements :=
  match chipGiven chipType with
  | None => Absent
  | Some chipType => chipProperty chipType
  end.

Inductive PresetType : Type := Basic | Ota.

Record PresetItem : Type :=
  { presetFileType : FirmwareFileType; presetAddress : N; presetDescription : string }.

(** [x || d] for an address that may be undefined: zero is falsy. *)
Definition addressOr (x : option N) (d : N) : N :=
  match x with
  | Some a => if (a =? 0)%N then d else a
  | None => d
  end.

Definition generatePreset (chipType : string) (presetType : PresetType)
  : Outcome (list PresetItem) :=
  match chipProperty chipType with
  | Absent => Returned []
  | Inherited => Thrown undefinedDereference
  | Own chipRequirements =>
      let preset :=
        [{| presetFileType := Bootloader;
            presetAddress := bootloaderAddress chipRequirements;
            presetDescription := "Second-stage bootloader" |};
         {| presetFileType := PartitionTable;
            presetAddress :=
              addressOr (typeLookup (commonAddresses chipRequirements) PartitionTable) 32768;
            presetDescription := "Partition table" |};
         {| presetFileType := App;
            presetAddress :=
              addressOr (typeLookup (commonAddresses chipRequirements) App) 65536;
            presetDescription := "Main application" |}] in
      Returned
        (match presetType with
         | Basic => preset
         | Ota =>
             preset ++ [{| presetFileType := OtaData; presetAddress := 53248%N;
                           presetDescription := "OTA update data" |}]
         end)
  end.

(** ** [examples/nextjs/src/components/ProgrammingMode.tsx] *)

(** [loadPreset]: the new list of files, or [None] when the alert is shown
    and the list is left as it is. *)
Definition loadPreset (chip_ : option string) (presetType : PresetType)
  : Outcome (option (list ESPFile)) :=
  match chipGiven chip_ with
  | None => Returned None
  | Some chipType =>
      match generatePreset chipType presetType with
      | Thrown e => Thrown e
      | Returned preset =>
          Returned
            (Some (map (fun item =>
                          {| data := "";
                             address := presetAddress item;
                             fileName := Some (typeName (presetFileType item) ^+ ".bin") |})
                     preset))
      end
  end.

Inductive LogType : Type := LogInfo | LogError | LogSuccess.

(** An entry of the programming log, without its time stamp. *)
Record LogEntry : Type := { logMessage : string; logType : LogType }.

Definition logged (message_ : string) (type_ : LogType) : LogEntry :=
  {| logMessage := message_; logType := type_ |}.

Definition decimal (n : nat) : string :=
  DecimalString.NilZero.string_of_uint (Nat.to_uint n).

Definition issuesOf (summary : FirmwareValidationSummary) : list string :=
  map (fun t => "Missing " ^+ typeName t) (missingRequired summary) ++
  map (fun c => "Address conflict at " ^+ hex (conflictAddress c) ^+ ": "
                ^+ file1 c ^+ " and " ^+ file2 c)
    (addressConflicts summary).

(** ** [src/utils/browserCompatibility.ts]

    The first document of [unnamed/part_007]. *)

(** What the page's environment answers: [navigator.userAgent],
    [location.protocol], [location.hostname], and whether [navigator.serial]
    exists with a [requestPort] function. *)
Record BrowserEnv : Type :=
  { userAgent : string;
    protocol : string;
    hostname : string;
    nativeSerial : bool }.

Inductive CompatibilityStatus : Type :=
| StatusSupported | StatusPolyfill | StatusUnsupported.

Record BrowserInfo : Type :=
  { browserName : string; browserVersion : string; isSecure : bool }.

Record WebSerialCompatibility : Type :=
  { supported : bool;
    status : CompatibilityStatus;
    compatibilityMessage : string;
    recommendations : list string;
    browserInfo : BrowserInfo }.

Definition isDigit (c : ascii) : bool :=
  Nat.leb 48 (nat_of_ascii c) && Nat.leb (nat_of_ascii c) 57.

(** The longest run of digits at the start of a string. *)
Fixpoint leadingDigits (s : string) : string :=
  match s with
  | String c s' => if isDigit c then String c (leadingDigits s') else ""
  | EmptyString => ""
  end.

(** [s.match(/marker(\d+)/)[1]]: the digits after the first occurrence of
    [marker] that is followed by a digit; [None] when there is no match. *)
Fixpoint versionAfter (marker s : string) : option string :=
  let here :=
    if JS.startsWith s marker then
      match leadingDigits (substring (String.length marker) (String.length s) s) with
      | EmptyString => None
      | digits => Some digits
      end
    else None in
  match here with
  | Some digits => Some digits
  | None =>
      match s with
      | EmptyString => None
      | String _ s' => versionAfter marker s'
      end
  end.

Definition getBrowserInfo (env : BrowserEnv) : BrowserInfo :=
  let ua := userAgent env in
  let versionOf marker := JS.orDefault (versionAfter marker ua) "Unknown" in
  let secure :=
    String.eqb (protocol env) "https:" || String.eqb (hostname env) "localhost"
    || String.eqb (hostname env) "127.0.0.1" in
  if JS.includes ua "Chrome" && negb (JS.includes ua "Edg") then
    {| browserName := "Chrome"; browserVersion := versionOf "Chrome/"; isSecure := secure |}
  else if JS.includes ua "Edg" then
    {| browserName := "Edge"; browserVersion := versionOf "Edg/"; isSecure := secure |}
  else if JS.includes ua "Firefox" then
    {| browserName := "Firefox"; browserVersion := versionOf "Firefox/"; isSecure := secure |}
  else if JS.includes ua "Safari" && negb (JS.includes ua "Chrome") then
    {| browserName := "Safari"; browserVersion := versionOf "Safari/"; isSecure := secure |}
  else if JS.includes ua "Opera" then
    {| browserName := "Opera"; browserVersion := versionOf "Opera/"; isSecure := secure |}
  else
    {| browserName := "Unknown"; browserVersion := "Unknown"; isSecure := secure |}.

Definition isChromeBased (name_ : string) : bool :=
  existsb (String.eqb name_) ["Chrome"; "Edge"; "Opera"].

Definition getUnsupportedBrowserRecommendations (name_ : string) : list string :=
  let baseRecommendations :=
    ["Use Google Chrome (version 89+) for full WebSerial support";
     "Or use Microsoft Edge (version 89+)";
     "Or use Opera (version 75+)"] in
  if String.eqb name_ "Firefox" then
    "Firefox does not support WebSerial API" :: baseRecommendations
  else if String.eqb name_ "Safari" then
    "Safari does not support WebSerial API" :: baseRecommendations
  else baseRecommendations.

Definition detectWebSerialCompatibility (env : BrowserEnv) : WebSerialCompatibility :=
  let info := getBrowserInfo env in
  if negb (isSecure info) then
    {| supported := false; status := StatusUnsupported;
       compatibilityMessage := "WebSerial API requires a secure context (HTTPS or localhost)";
       recommendations :=
         ["Use HTTPS instead of HTTP"; "Or test on localhost for development"];
       browserInfo := info |}
  else if nativeSerial env then
    {| supported := true; status := StatusSupported;
       compatibilityMessage := "WebSerial API is natively supported";
       recommendations := [];
       browserInfo := info |}
  else if isChromeBased (browserName info) then
    {| supported := true; status := StatusPolyfill;
       compatibilityMessage := "WebSerial API not native, but polyfill should work";
       recommendations :=
         ["Update to the latest Chrome/Edge version for native support";
          "Some advanced features may not work with polyfill"];
       browserInfo := info |}
  else
    {| supported := false; status := StatusUnsupported;
       compatibilityMessage :=
         "WebSerial API is not supported in " ^+ browserName info;
       recommendations := getUnsupportedBrowserRecommendations (browserName info);
       browserInfo := info |}.

(** What [testWebSerialFunctionality] meets: whether ["serial" in navigator],
    how the import of the polyfill ends, whether [navigator.serial] is then
    there with a [requestPort] function, and how [getPorts()] ends. *)
Record FunctionalityEnv : Type :=
  { serialInNavigator : bool;
    polyfillImport : option JsError;
    serialUsable : bool;
    getPorts : option JsError }.

Definition testWebSerialFunctionality (env : FunctionalityEnv) : bool :=
  match (if serialInNavigator env then None else polyfillImport env) with
  | Some _ => false
  | None =>
      if negb (serialUsable env) then false
      else match getPorts env with
           | Some _ => false
           | None => true
           end
  end.

(** ** [src/hooks/useWebSerialCompatibility.ts]

    The file [unnamed/part_011]. *)

(** The compatibility that [detectCompatibility] stores, from how the
    detection ended and what the functionality test answers. *)
Definition detectCompatibility (detected : Outcome WebSerialCompatibility)
    (actuallyWorks : bool) : WebSerialCompatibility :=
  match detected with
  | Thrown _ =>
      {| supported := false; status := StatusUnsupported;
         compatibilityMessage := "Unable to detect WebSerial compatibility";
         recommendations :=
           ["Try refreshing the page"; "Use a supported browser like Chrome or Edge"];
         browserInfo :=
           {| browserName := "Unknown"; browserVersion := "Unknown"; isSecure := false |} |}
  | Returned compat =>
      if supported compat then
        if negb actuallyWorks
           && match status compat with StatusSupported => true | _ => false end
        then
          {| supported := supported compat;
             status := StatusPolyfill;
             compatibilityMessage := "WebSerial API detected but may need polyfill";
             recommendations := "Try refreshing the page" :: recommendations compat;
             browserInfo := browserInfo compat |}
        else compat
      else compat
  end.

(** The compatibility the hook ends with in a given environment. *)
Definition useWebSerialCompatibility (env : BrowserEnv) (test : FunctionalityEnv)
  : WebSerialCompatibility :=
  detectCompatibility (Returned (detectWebSerialCompatibility env))
    (testWebSerialFunctionality test).

(** ** [examples/nextjs/src/lib/ansiParser.ts]

    The file [unnamed/part_005]. *)

Record ANSIStyle : Type :=
  { color : option string;
    backgroundColor : option string;
    bold : option bool;
    italic : option bool;
    underline : option bool;
    dim : option bool }.

Record ParsedSegment : Type := { text : string; style : ANSIStyle }.

(** The style [{}]. *)
Definition noStyle : ANSIStyle :=
  {| color := None; backgroundColor := None; bold := None; italic := None;
     underline := None; dim := None |}.

Definition ANSI_COLORS (code : N) : option string :=
  match code with
  | 30 => Some "#1f2937" | 31 => Some "#dc2626" | 32 => Some "#059669"
  | 33 => Some "#d97706" | 34 => Some "#2563eb" | 35 => Some "#7c3aed"
  | 36 => Some "#0891b2" | 37 => Some "#374151"
  | 90 => Some "#6b7280" | 91 => Some "#ef4444" | 92 => Some "#10b981"
  | 93 => Some "#f59e0b" | 94 => Some "#3b82f6" | 95 => Some "#8b5cf6"
  | 96 => Some "#06b6d4" | 97 => Some "#111827"
  | _ => None
  end%N.

Definition ANSI_BG_COLORS (code : N) : option string :=
  match code with
  | 40 => Some "#1f2937" | 41 => Some "#fecaca" | 42 => Some "#d1fae5"
  | 43 => Some "#fef3c7" | 44 => Some "#dbeafe" | 45 => Some "#e9d5ff"
  | 46 => Some "#cffafe" | 47 => Some "#f9fafb"
  | 100 => Some "#e5e7eb" | 101 => Some "#fee2e2" | 102 => Some "#ecfdf5"
  | 103 => Some "#fffbeb" | 104 => Some "#eff6ff" | 105 => Some "#f3e8ff"
  | 106 => Some "#f0fdfa" | 107 => Some "#ffffff"
  | _ => None
  end%N.

(** The escape character, and the two characters that open a sequence. *)
Definition ESC : ascii := ascii_of_nat 27.

Definition CSI : string := String ESC "[".

(** A code character: a digit or a semicolon. *)
Definition isCodeChar (c : ascii) : bool := isDigit c || Ascii.eqb c ";".

(** The pattern that [parseANSI] splits at: the escape character, an
    opening bracket, any number of code characters (captured) and the letter
    m.  A scan for it stands outside a candidate, after the escape character,
    or after the opening bracket with the code characters read so far. *)
Inductive ScanState : Type :=
| InText
| AfterEscape
| InCodes (codes : string).

(** The characters of an unfinished candidate; they are text after all when
    the candidate does not end in [m]. *)
Definition pendingText (st : ScanState) : string :=
  match st with
  | InText => ""
  | AfterEscape => String ESC ""
  | InCodes codes => CSI ^+ codes
  end.

Definition snoc (s : string) (c : ascii) : string := s ^+ String c "".

(** [s.split(pattern)] continued from a scan state: the pieces of text
    between the matches, each match contributing its captured codes.  A candidate holds no escape character after its first,
    so when it fails the next match can only start at the failing
    character. *)
Fixpoint splitFrom (s : string) (textSoFar : string) (st : ScanState) : list string :=
  match s with
  | EmptyString => [textSoFar ^+ pendingText st]
  | String c s' =>
      match st with
      | InText =>
          if Ascii.eqb c ESC then splitFrom s' textSoFar AfterEscape
          else splitFrom s' (snoc textSoFar c) InText
      | AfterEscape =>
          if Ascii.eqb c "[" then splitFrom s' textSoFar (InCodes "")
          else if Ascii.eqb c ESC
          then splitFrom s' (textSoFar ^+ pendingText st) AfterEscape
          else splitFrom s' (snoc (textSoFar ^+ pendingText st) c) InText
      | InCodes codes =>
          if isCodeChar c then splitFrom s' textSoFar (InCodes (snoc codes c))
          else if Ascii.eqb c "m" then textSoFar :: codes :: splitFrom s' "" InText
          else if Ascii.eqb c ESC
          then splitFrom s' (textSoFar ^+ pendingText st) AfterEscape
          else splitFrom s' (snoc (textSoFar ^+ pendingText st) c) InText
      end
  end.

Definition splitANSI (s : string) : list string := splitFrom s "" InText.

(** [codes.split(";")] on a string of code characters, each piece read by
    [parseInt(piece, 10)]: [None] is NaN, the value of an empty piece. *)
Fixpoint codesFrom (s : string) (current_ : option N) : list (option N) :=
  match s with
  | EmptyString => [current_]
  | String c s' =>
      if Ascii.eqb c ";" then current_ :: codesFrom s' None
      else
        let digit := N.of_nat (nat_of_ascii c - 48) in
        codesFrom s' (Some (match current_ with
                            | Some n => 10 * n + digit
                            | None => digit
                            end)%N)
  end.

Definition codesOf (s : string) : list (option N) := codesFrom s None.

Definition inRange (low high code : N) : bool := (low <=? code)%N && (code <=? high)%N.

(** The [switch] on one code. *)
Definition applyCode (currentStyle : ANSIStyle) (code : N) : ANSIStyle :=
  match code with
  | 0%N => noStyle
  | 1%N => {| color := color currentStyle; backgroundColor := backgroundColor currentStyle;
              bold := Some true; italic := italic currentStyle;
              underline := underline currentStyle; dim := dim currentStyle |}
  | 2%N => {| color := color currentStyle; backgroundColor := backgroundColor currentStyle;
              bold := bold currentStyle; italic := italic currentStyle;
              underline := underline currentStyle; dim := Some true |}
  | 3%N => {| color := color currentStyle; backgroundColor := backgroundColor currentStyle;
              bold := bold currentStyle; italic := Some true;
              underline := underline currentStyle; dim := dim currentStyle |}
  | 4%N => {| color := color currentStyle; backgroundColor := backgroundColor currentStyle;
              bold := bold currentStyle; italic := italic currentStyle;
              underline := Some true; dim := dim currentStyle |}
  | 22%N => {| color := color currentStyle; backgroundColor := backgroundColor currentStyle;
               bold := Some false; italic := italic currentStyle;
               underline := underline currentStyle; dim := Some false |}
  | 23%N => {| color := color currentStyle; backgroundColor := backgroundColor currentStyle;
               bold := bold currentStyle; italic := Some false;
               underline := underline currentStyle; dim := dim currentStyle |}
  | 24%N => {| color := color currentStyle; backgroundColor := backgroundColor currentStyle;
               bold := bold currentStyle; italic := italic currentStyle;
               underline := Some false; dim := dim currentStyle |}
  | _ =>
      if inRange 30 37 code || inRange 90 97 code then
        {| color := ANSI_COLORS code; backgroundColor := backgroundColor currentStyle;
           bold := bold currentStyle; italic := italic currentStyle;
           underline := underline currentStyle; dim := dim currentStyle |}
      else if inRange 40 47 code || inRange 100 107 code then
        {| color := color currentStyle; backgroundColor := ANSI_BG_COLORS code;
           bold := bold currentStyle; italic := italic currentStyle;
           underline := underline currentStyle; dim := dim currentStyle |}
      else currentStyle
  end.

Definition applyCodes (currentStyle : ANSIStyle) (codes : list (option N)) : ANSIStyle :=
  fold_left (fun st code => match code with
                            | Some n => applyCode st n
                            | None => st
                            end) codes currentStyle.

(** The loop over [parts], from an even index. *)
Fixpoint segmentsFrom (parts : list string) (currentStyle : ANSIStyle)
  : list ParsedSegment :=
  match parts with
  | [] => []
  | content :: rest =>
      (if truthy content then [{| text := content; style := currentStyle |}] else [])
      ++ match rest with
         | [] => []
         | codes :: rest' =>
             segmentsFrom rest' (applyCodes currentStyle (codesOf codes))
         end
  end.

Definition parseANSI (s : string) : list ParsedSegment :=
  segmentsFrom (splitANSI s) noStyle.

(** The text whose split is a given list of parts: the pieces of text with
    the matches between them. *)
Fixpoint unsplit (parts : list string) : string :=
  match parts with
  | [] => ""
  | content :: rest =>
      content ^+ match rest with
                 | [] => ""
                 | codes :: rest' => CSI ^+ codes ^+ "m" ^+ unsplit rest'
                 end
  end.

(** The pieces of text of a split, without the codes. *)
Fixpoint contents (parts : list string) : list string :=
  match parts with
  | [] => []
  | content :: rest =>
      content :: match rest with
                 | [] => []
                 | _ :: rest' => contents rest'
                 end
  end.

Definition hasEscape (s : string) : bool := JS.includes s (String ESC "").

(** ** Rejections with null or undefined

    A promise rejects with any value.  The operations above take the value a
    collaborator rejects with as an object, of which a [catch] block reads the
    [message].  On [null] and [undefined] that read throws a TypeError in the
    middle of the [catch] block.  This module follows stopConsole, connect,
    disconnect, program and eraseFlash, and the four handlers of the
    programming page that await them, with rejections that may be [null] or
    [undefined]. *)

Module Nullish.

(** What an awaited call rejects with. *)
Inductive Rejection : Type :=
| RejectedWith (e : JsError)   (* an object; [e.message] may be undefined *)
| RejectedNullish.             (* [null] or [undefined] *)

(** The TypeError of [e.message] on [null], in the words of V8. *)
Definition unreadableMessage : JsError :=
  Error_ "Cannot read properties of null (reading 'message')".

Inductive Outcome (A : Type) : Type :=
| Returned (a : A)
| Thrown (v : Rejection).
Arguments Returned {A} a.
Arguments Thrown {A} v.

Record Run (A : Type) : Type :=
  { outcome : Outcome A; refsAfter : Refs; events : list Event }.
Arguments outcome {A} _.
Arguments refsAfter {A} _.
Arguments events {A} _.

Definition M (A : Type) : Type := Refs -> Run A.

Definition ret {A} (a : A) : M A :=
  fun r => {| outcome := Returned a; refsAfter := r; events := [] |}.

Definition throw {A} (v : Rejection) : M A :=
  fun r => {| outcome := Thrown v; refsAfter := r; events := [] |}.

Definition bind {A B} (m : M A) (k : A -> M B) : M B :=
  fun r =>
    match m r with
    | {| outcome := Returned a; refsAfter := r1; events := evs1 |} =>
        match k a r1 with
        | {| outcome := o; refsAfter := r2; events := evs2 |} =>
            {| outcome := o; refsAfter := r2; events := evs1 ++ evs2 |}
        end
    | {| outcome := Thrown v; refsAfter := r1; events := evs1 |} =>
        {| outcome := Thrown v; refsAfter := r1; events := evs1 |}
    end.

Declare Scope nullish_scope.
Notation "x <- m ;; k" := (bind m (fun x => k))
  (at level 61, m at next level, right associativity) : nullish_scope.
Notation "m ;; k" := (bind m (fun _ => k))
  (at level 61, right associativity) : nullish_scope.
Local Open Scope nullish_scope.

Definition emit (e : Event) : M unit :=
  fun r => {| outcome := Returned tt; refsAfter := r; events := [e] |}.

Definition dispatch (action : Action) : M unit := emit (Dispatch action).

Definition delay (ms : Z) : M unit := emit (Delay ms).

Definition await (c : ExternalCall) (answer : option Rejection) : M unit :=
  emit (Call c) ;;
  match answer with
  | None => ret tt
  | Some v => throw v
  end.

Definition awaitValue {A} (c : ExternalCall) (answer : Outcome A) : M A :=
  emit (Call c) ;;
  match answer with
  | Returned a => ret a
  | Thrown v => throw v
  end.

Definition current : M Refs :=
  fun r => {| outcome := Returned r; refsAfter := r; events := [] |}.

Definition assign (f : Refs -> Refs) : M unit :=
  fun r => {| outcome := Returned tt; refsAfter := f r; events := [] |}.

Definition tryCatch {A} (body : M A) (handler : Rejection -> M A) : M A :=
  fun r =>
    match body r with
    | {| outcome := Returned a; refsAfter := r1; events := evs1 |} =>
        {| outcome := Returned a; refsAfter := r1; events := evs1 |}
    | {| outcome := Thrown v; refsAfter := r1; events := evs1 |} =>
        match handler v r1 with
        | {| outcome := o; refsAfter := r2; events := evs2 |} =>
            {| outcome := o; refsAfter := r2; events := evs1 ++ evs2 |}
        end
    end.

Definition tryFinally {A} (body : M A) (finalizer : M unit) : M A :=
  fun r =>
    match body r with
    | {| outcome := o1; refsAfter := r1; events := evs1 |} =>
        match finalizer r1 with
        | {| outcome := Returned _; refsAfter := r2; events := evs2 |} =>
            {| outcome := o1; refsAfter := r2; events := evs1 ++ evs2 |}
        | {| outcome := Thrown v; refsAfter := r2; events := evs2 |} =>
            {| outcome := Thrown v; refsAfter := r2; events := evs1 ++ evs2 |}
        end
    end.

(** [catch (e) { log(e) }]: the value is handed to the logger unread. *)
Definition ignoreErrors (body : M unit) : M unit :=
  tryCatch body (fun _ => ret tt).

(** A [catch (e)] block that reads [e.message] before anything else: on
    [null] and [undefined] the read throws and the rest of the block is
    skipped. *)
Definition readingMessage {A} (handler : JsError -> M A) (thrown : Rejection) : M A :=
  match thrown with
  | RejectedWith e => handler e
  | RejectedNullish => throw (RejectedWith unreadableMessage)
  end.

(** How an operation ends when that read has failed. *)
Definition failedRead {A} : Outcome A := Thrown (RejectedWith unreadableMessage).

Definition whenSome {A} (x : option A) (k : A -> M unit) : M unit :=
  match x with
  | Some a => k a
  | None => ret tt
  end.

Definition when (b : bool) (k : M unit) : M unit :=
  if b then k else ret tt.

(** *** stopConsole *)

Record StopConsoleEnv : Type :=
  { stopCancel : option Rejection;       (* consoleReader.current.cancel() *)
    stopDisconnect : option Rejection;   (* consoleTransport.current.disconnect() *)
    stopReadable : bool;                 (* consoleDevice.current.readable *)
    stopClose : option Rejection }.      (* consoleDevice.current.close() *)

(** The [catch] of the cancel logs [e.message]; the two others log [e]. *)
Definition stopConsole (env : StopConsoleEnv) : M unit :=
  assign (put_keepConsoleReading false) ;;
  assign (put_consoleReadingInProgress false) ;;
  r <- current ;;
  whenSome (consoleReader r) (fun reader =>
    tryCatch (await (ReaderCancel reader) (stopCancel env))
      (readingMessage (fun _ => ret tt)) ;;
    assign (put_consoleReader None)) ;;
  r <- current ;;
  whenSome (consoleTransport r) (fun t =>
    ignoreErrors (await (TransportDisconnect t) (stopDisconnect env))) ;;
  assign (put_consoleTransport None) ;;
  r <- current ;;
  whenSome (consoleDevice r) (fun port =>
    when (stopReadable env)
      (ignoreErrors (await (PortClose port) (stopClose env)))) ;;
  assign (put_consoleDevice None) ;;
  dispatch (SET_IS_CONSOLE_CONNECTED false).

(** *** connect *)

(** The retry loop; its [catch] logs [connectError.message] first. *)
Fixpoint retryLoop (remaining attempt : nat) (loader : ESPLoader)
    (mainResult : nat -> option Rejection) : M unit :=
  match remaining with
  | O => ret tt
  | S remaining' =>
      control <-
        tryCatch
          (when (1 <? attempt)%nat (delay (1000 * Z.of_nat attempt)) ;;
           await (LoaderMain loader) (mainResult attempt) ;;
           ret Break)
          (readingMessage (fun connectError =>
             if (attempt =? maxRetries)%nat then throw (RejectedWith connectError)
             else if isPermissionError connectError then throw (RejectedWith connectError)
             else
               when (isCommunicationError connectError) (delay 2000) ;;
               ret Continue)) ;;
      match control with
      | Break => ret tt
      | Continue => retryLoop remaining' (S attempt) loader mainResult
      end
  end.

Definition handshake (loader : ESPLoader) (mainResult : nat -> option Rejection) : M unit :=
  retryLoop maxRetries 1 loader mainResult.

Record ConnectEnv : Type :=
  { connectStop : StopConsoleEnv;                    (* the nested stopConsole() *)
    connectSerial : option Rejection;                (* getSerialInstance() *)
    connectRequestPort : Outcome (option SerialPort);  (* serialControl.requestPort() *)
    connectMain : nat -> option Rejection;           (* loader.main(), by attempt *)
    connectChipName : string;                        (* loader.chip.CHIP_NAME *)
    cleanupDisconnect : option Rejection;            (* programTransport.current.disconnect() *)
    cleanupReadable : bool;                          (* programDevice.current.readable *)
    cleanupClose : option Rejection }.               (* programDevice.current.close() *)

(** The [catch (e)] of [connect], from its first statement, which reads
    [e.message], on. *)
Definition connectFailed (env : ConnectEnv) : Rejection -> M string :=
  readingMessage (fun e =>
    let errorMessage := JS.orDefault (message e) "Failed to connect" in
    dispatch (SET_ERROR (Some (ErrString (userMessage errorMessage)))) ;;
    dispatch (SET_IS_CONNECTED false) ;;
    r <- current ;;
    whenSome (programTransport r) (fun t =>
      ignoreErrors (await (TransportDisconnect t) (cleanupDisconnect env))) ;;
    assign (put_programTransport None) ;;
    r <- current ;;
    whenSome (programDevice r) (fun port =>
      ignoreErrors
        (when (cleanupReadable env) (await (PortClose port) (cleanupClose env)) ;;
         delay 1000)) ;;
    assign (put_programDevice None) ;;
    assign (put_esploaderInstance None) ;;
    ret "").

(** The [try] block of [connect]. *)
Definition connectAttempt (state : ESPLoaderState) (romBaudrate : Z)
    (portToUse : option SerialPort) (env : ConnectEnv) : M string :=
  await GetSerialInstance (connectSerial env) ;;
  selectedPort <-
    match portToUse with
    | Some port => ret (Some port)
    | None => awaitValue RequestPort (connectRequestPort env)
    end ;;
  match selectedPort with
  | None =>
      dispatch (SET_ERROR (Some (ErrString "No port selected"))) ;;
      dispatch (SET_IS_LOADING false) ;;
      ret ""
  | Some selectedPort =>
      assign (put_programDevice (Some selectedPort)) ;;
      let transport := {| device := selectedPort; tracing := debugLogging state |} in
      assign (put_programTransport (Some transport)) ;;
      let loader :=
        {| loaderTransport := transport;
           loaderBaudrate := baudrate state;
           loaderRomBaudrate := romBaudrate |} in
      assign (put_esploaderInstance (Some loader)) ;;
      handshake loader (connectMain env) ;;
      tryCatch (ret tt)
        (readingMessage (fun connectError =>
           throw (RejectedWith (remediation connectError)))) ;;
      dispatch (SET_ESPLOADER (Some loader)) ;;
      dispatch (SET_TRANSPORT (Some transport)) ;;
      dispatch (SET_IS_CONNECTED true) ;;
      dispatch (SET_CHIP (Some (connectChipName env))) ;;
      ret (connectChipName env)
  end.

Definition connectProtected (state : ESPLoaderState) (romBaudrate : Z)
    (portToUse : option SerialPort) (env : ConnectEnv) : M string :=
  tryFinally
    (tryCatch (connectAttempt state romBaudrate portToUse env) (connectFailed env))
    (dispatch (SET_IS_LOADING false)).

Definition connect (state : ESPLoaderState) (romBaudrate : Z)
    (portToUse : option SerialPort) (env : ConnectEnv) : M string :=
  dispatch (SET_IS_LOADING true) ;;
  dispatch (SET_ERROR None) ;;
  when (isConsoleConnected state) (stopConsole (connectStop env)) ;;
  connectProtected state romBaudrate portToUse env.

(** *** disconnect *)

Record DisconnectEnv : Type :=
  { disconnectTransport : option Rejection;   (* programTransport.current.disconnect() *)
    disconnectReadable : bool;                (* programDevice.current.readable *)
    disconnectClose : option Rejection }.     (* programDevice.current.close() *)

Definition disconnectFinally : M unit :=
  dispatch (SET_IS_CONNECTED false) ;;
  dispatch (SET_ESPLOADER None) ;;
  dispatch (SET_TRANSPORT None) ;;
  dispatch (SET_CHIP None) ;;
  dispatch (SET_IS_LOADING false).

Definition disconnect (env : DisconnectEnv) : M unit :=
  dispatch (SET_IS_LOADING true) ;;
  tryFinally
    (tryCatch
       (r <- current ;;
        whenSome (programTransport r) (fun t =>
          await (TransportDisconnect t) (disconnectTransport env)) ;;
        r <- current ;;
        whenSome (programDevice r) (fun port =>
          ignoreErrors
            (when (disconnectReadable env)
               (await (PortClose port) (disconnectClose env))) ;;
          delay 2000) ;;
        dispatch RESET_STATE ;;
        assign (put_programDevice None) ;;
        assign (put_programTransport None) ;;
        assign (put_esploaderInstance None))
       (readingMessage (fun e =>
          let errorMessage := JS.orDefault (message e) "Failed to disconnect" in
          dispatch (SET_ERROR (Some (ErrString errorMessage))))))
    disconnectFinally.

(** *** program and eraseFlash *)

Definition reportProgress (files : list FlashFile) (p : ProgressReport) : M unit :=
  let fileName :=
    JS.orDefault (option_map name (nth_error files (reportIndex p))) "Unknown file" in
  dispatch (SET_FLASH_PROGRESS
              (Some {| fileIndex := reportIndex p; progressFileName := fileName;
                       written := reportWritten p; total := reportTotal p |})).

Fixpoint reportAll (files : list FlashFile) (reports : list ProgressReport) : M unit :=
  match reports with
  | [] => ret tt
  | p :: reports' => reportProgress files p ;; reportAll files reports'
  end.

Record ProgramEnv : Type :=
  { programReports : list ProgressReport;     (* the engine's progress callbacks *)
    programWriteFlash : option Rejection }.   (* how writeFlash(flashOptions) ends *)

Definition program (state : ESPLoaderState) (files : list ESPFile)
    (options : FlashOverrides) (env : ProgramEnv) : M unit :=
  r <- current ;;
  if isNull (esploaderInstance r) || negb (isConnected state) then
    dispatch (SET_ERROR (Some (ErrString notConnectedMessage)))
  else
    dispatch (SET_IS_FLASHING true) ;;
    dispatch (SET_ERROR None) ;;
    let fileArray := map toFlashFile files in
    tryFinally
      (tryCatch
         (r <- current ;;
          match esploaderInstance r with
          | None => throw (RejectedWith nullDereference)
          | Some loader =>
              emit (Call (LoaderWriteFlash loader (flashOptionsFor fileArray options))) ;;
              reportAll fileArray (programReports env) ;;
              match programWriteFlash env with
              | None => ret tt
              | Some v => throw v
              end
          end)
         (readingMessage (fun e =>
            let errorMsg := JS.orDefault (message e) "Failed to program" in
            dispatch (SET_ERROR (Some (ErrString errorMsg))))))
      (dispatch (SET_IS_FLASHING false) ;;
       dispatch (SET_FLASH_PROGRESS None)).

Definition eraseFlash (state : ESPLoaderState) (eraseResult : option Rejection) : M unit :=
  r <- current ;;
  if isNull (esploaderInstance r) || negb (isConnected state) then
    dispatch (SET_ERROR (Some (ErrString notConnectedMessage)))
  else
    dispatch (SET_IS_ERASING true) ;;
    dispatch (SET_ERROR None) ;;
    tryFinally
      (tryCatch
         (r <- current ;;
          match esploaderInstance r with
          | None => throw (RejectedWith nullDereference)
          | Some loader => await (LoaderEraseFlash loader) eraseResult
          end)
         (readingMessage (fun e =>
            let errorMsg := JS.orDefault (message e) "Failed to erase flash" in
            dispatch (SET_ERROR (Some (ErrString errorMsg))))))
      (dispatch (SET_IS_ERASING false)).

(** *** The handlers of the programming page *)

(** What a handler adds to the programming log, the run of the operation it
    awaited, if it got that far, and whether the handler itself rejected. *)
Record Handled (A : Type) : Type :=
  { logAdded : list LogEntry; awaited : option (Run A); handlerRejected : bool }.

Arguments logAdded {A} h.
Arguments awaited {A} h.
Arguments handlerRejected {A} h.

(** The [try]/[catch] around the awaited operation: the log entry for its
    outcome.  The [catch] reads [error.message]; on [null] and [undefined]
    it throws before it logs. *)
Definition settle {A} (run : Run A) (onSuccess : A -> LogEntry) (failurePrefix : string)
  : option LogEntry :=
  match outcome run with
  | Returned a => Some (onSuccess a)
  | Thrown (RejectedWith e) => Some (logged (failurePrefix ^+ messageText e) LogError)
  | Thrown RejectedNullish => None
  end.

(** A handler that logs [opening], awaits [run] and settles it. *)
Definition handled {A} (opening : list LogEntry) (run : Run A)
    (onSuccess : A -> LogEntry) (failurePrefix : string) : Handled A :=
  match settle run onSuccess failurePrefix with
  | Some entry =>
      {| logAdded := opening ++ [entry]; awaited := Some run; handlerRejected := false |}
  | None =>
      {| logAdded := opening; awaited := Some run; handlerRejected := true |}
  end.

(** [handleFlash]; [validationSummary] is the memoised summary of the render
    and [proceed] the answer to the confirmation dialog. *)
Definition handleFlash (state : ESPLoaderState) (files : list ESPFile)
    (validationSummary : FirmwareValidationSummary) (proceed : bool)
    (env : ProgramEnv) (r : Refs) : Handled unit :=
  match files with
  | [] =>
      {| logAdded := [logged "Please select at least one file to flash" LogError];
         awaited := None; handlerRejected := false |}
  | _ =>
      let warned :=
        if isComplete validationSummary then []
        else [logged ("Validation warnings found: "
                      ^+ join ", " (issuesOf validationSummary)) LogError] in
      if negb (isComplete validationSummary) && negb proceed then
        {| logAdded := warned ++ [logged "Programming cancelled by user" LogInfo];
           awaited := None; handlerRejected := false |}
      else
        handled
          (warned ++
           [logged ("Starting to program " ^+ decimal (List.length files) ^+ " file(s)...")
              LogInfo])
          (program state files noOverrides env r)
          (fun _ => logged "Programming completed successfully" LogSuccess)
          "Programming failed: "
  end.

Definition handleEraseFlash (state : ESPLoaderState) (eraseResult : option Rejection)
    (r : Refs) : Handled unit :=
  handled [logged "Starting flash erase operation..." LogInfo]
    (eraseFlash state eraseResult r)
    (fun _ => logged "Flash erased successfully" LogSuccess)
    "Flash erase failed: ".

Definition handleDisconnect (env : DisconnectEnv) (r : Refs) : Handled unit :=
  handled [logged "Disconnecting from ESP device..." LogInfo]
    (disconnect env r)
    (fun _ => logged "Device disconnected successfully" LogSuccess)
    "Disconnect error: ".

Definition handleConnect (state : ESPLoaderState) (rom : Z) (env : ConnectEnv) (r : Refs)
  : Handled string :=
  handled [logged "Attempting to connect to ESP device..." LogInfo]
    (connect state rom None env r)
    (fun result =>
       if truthy result
       then logged ("Successfully connected to " ^+ result) LogSuccess
       else logged "Connection failed" LogError)
    "Connection error: ".

End Nullish.

(** *** The earlier operations as the case of object rejections *)

Definition objectAnswer (answer : option JsError) : option Nullish.Rejection :=
  option_map Nullish.RejectedWith answer.

Definition objectOutcome {A} (o : Outcome A) : Nullish.Outcome A :=
  match o with
  | Returned a => Nullish.Returned a
  | Thrown e => Nullish.Thrown (Nullish.RejectedWith e)
  end.

Definition objectRun {A} (x : Run A) : Nullish.Run A :=
  {| Nullish.outcome := objectOutcome (outcome x);
     Nullish.refsAfter := refsAfter x;
     Nullish.events := events x |}.

Definition objectStopConsoleEnv (env : StopConsoleEnv) : Nullish.StopConsoleEnv :=
  {| Nullish.stopCancel := objectAnswer (stopCancel env);
     Nullish.stopDisconnect := objectAnswer (stopDisconnect env);
     Nullish.stopReadable := stopReadable env;
     Nullish.stopClose := objectAnswer (stopClose env) |}.

Definition objectConnectEnv (env : ConnectEnv) : Nullish.ConnectEnv :=
  {| Nullish.connectStop := objectStopConsoleEnv (connectStop env);
     Nullish.connectSerial := objectAnswer (connectSerial env);
     Nullish.connectRequestPort := objectOutcome (connectRequestPort env);
     Nullish.connectMain := fun attempt => objectAnswer (connectMain env attempt);
     Nullish.connectChipName := connectChipName env;
     Nullish.cleanupDisconnect := objectAnswer (cleanupDisconnect env);
     Nullish.cleanupReadable := cleanupReadable env;
     Nullish.cleanupClose := objectAnswer (cleanupClose env) |}.

Definition objectDisconnectEnv (env : DisconnectEnv) : Nullish.DisconnectEnv :=
  {| Nullish.disconnectTransport := objectAnswer (disconnectTransport env);
     Nullish.disconnectReadable := disconnectReadable env;
     Nullish.disconnectClose := objectAnswer (disconnectClose env) |}.

Definition objectProgramEnv (env : ProgramEnv) : Nullish.ProgramEnv :=
  {| Nullish.programReports := programReports env;
     Nullish.programWriteFlash := objectAnswer (programWriteFlash env) |}.

(** *** When the operations reject *)

Definition isNullish (answer : option Nullish.Rejection) : bool :=
  match answer with
  | Some Nullish.RejectedNullish => true
  | _ => false
  end.

(** stopConsole has a reader to cancel and the cancel rejects with null or
    undefined. *)
Definition stopConsoleRejects (r : Refs) (env : Nullish.StopConsoleEnv) : bool :=
  negb (isNull (consoleReader r)) && isNullish (Nullish.stopCancel env).

(** disconnect has a transport to disconnect and the disconnect rejects with
    null or undefined. *)
Definition disconnectRejects (r : Refs) (env : Nullish.DisconnectEnv) : bool :=
  negb (isNull (programTransport r)) && isNullish (Nullish.disconnectTransport env).

(** program and eraseFlash pass their guard and the engine rejects with null
    or undefined. *)
Definition engineCallRejects (state : ESPLoaderState) (r : Refs)
    (answer : option Nullish.Rejection) : bool :=
  negb (isNull (esploaderInstance r) || negb (isConnected state)) && isNullish answer.

(** connect rejects before its [try] statement: the console is marked
    connected and the nested stopConsole rejects. *)
Definition connectRejectsEarly (state : ESPLoaderState) (r : Refs)
    (env : Nullish.ConnectEnv) : bool :=
  isConsoleConnected state && stopConsoleRejects r (Nullish.connectStop env).

(** connect rejects from its [catch] block: getSerialInstance, or the
    requestPort that follows it when no port was handed in, rejects with null
    or undefined. *)
Definition connectRejectsLate (portToUse : option SerialPort)
    (env : Nullish.ConnectEnv) : bool :=
  match Nullish.connectSerial env with
  | Some Nullish.RejectedNullish => true
  | Some (Nullish.RejectedWith _) => false
  | None =>
      isNull portToUse &&
      match Nullish.connectRequestPort env with
      | Nullish.Thrown Nullish.RejectedNullish => true
      | _ => false
      end
  end.

(** [m] and [n] run alike: [n] is [m] with its rejection seen as an
    object. *)
Definition alike {A} (m : M A) (n : Nullish.M A) : Prop :=
  forall r, n r = objectRun (m r).

(** ** stopConsole while the read loop waits for a read

    [stopConsole] and the read loop are two asynchronous tasks over the same
    cells.  A task runs without interruption from one [await] to the next;
    while it waits there the other task may run.  Here each task is given by
    the points at which it can wait and by the piece of code it runs when it
    is resumed at such a point, up to the next [await] it executes or to its
    end.  What an awaited call of these two tasks rejects with is caught and
    logged, so a piece does not depend on it; the call is recorded when it is
    made. *)

(** Where [stopConsole] waits. *)
Inductive StopPoint : Type :=
| StopAwaitsCancel        (* await consoleReader.current.cancel() *)
| StopAwaitsDisconnect    (* await consoleTransport.current.disconnect() *)
| StopAwaitsClose         (* await consoleDevice.current.close() *)
| StopFinished.

(** [stopConsole] from [consoleDevice.current = null] on. *)
Definition stopFinish : M StopPoint :=
  assign (put_consoleDevice None) ;;
  dispatch (SET_IS_CONSOLE_CONNECTED false) ;;
  ret StopFinished.

(** [stopConsole] from [consoleTransport.current = null] on. *)
Definition stopFromDevice (readable : bool) : M StopPoint :=
  assign (put_consoleTransport None) ;;
  r <- current ;;
  match consoleDevice r with
  | Some port =>
      if readable then emit (Call (PortClose port)) ;; ret StopAwaitsClose
      else stopFinish
  | None => stopFinish
  end.

(** [stopConsole] from [if (consoleTransport.current)] on. *)
Definition stopFromTransport (readable : bool) : M StopPoint :=
  r <- current ;;
  match consoleTransport r with
  | Some t => emit (Call (TransportDisconnect t)) ;; ret StopAwaitsDisconnect
  | None => stopFromDevice readable
  end.

(** [stopConsole] from its first statement to the first [await] it
    executes. *)
Definition stopStart (readable : bool) : M StopPoint :=
  assign (put_keepConsoleReading false) ;;
  assign (put_consoleReadingInProgress false) ;;
  r <- current ;;
  match consoleReader r with
  | Some reader => emit (Call (ReaderCancel reader)) ;; ret StopAwaitsCancel
  | None => stopFromTransport readable
  end.

(** [stopConsole] resumed at a point; [readable] is
    [consoleDevice.current.readable] when it is read. *)
Definition stopResume (readable : bool) (p : StopPoint) : M StopPoint :=
  match p with
  | StopAwaitsCancel => assign (put_consoleReader None) ;; stopFromTransport readable
  | StopAwaitsDisconnect => stopFromDevice readable
  | StopAwaitsClose => stopFinish
  | StopFinished => ret StopFinished
  end.

(** Where the read loop waits. *)
Inductive LoopPoint : Type :=
| LoopAwaitsRead          (* await reader.read() *)
| LoopAwaitsDisconnect    (* await consoleTransport.current.disconnect() *)
| LoopAwaitsClose         (* await consoleDevice.current.close() *)
| LoopFinished.

(** The [finally] block from [consoleDevice.current = null] on. *)
Definition loopFinish : M LoopPoint :=
  assign (put_consoleDevice None) ;;
  dispatch (SET_IS_CONSOLE_CONNECTED false) ;;
  ret LoopFinished.

(** The [finally] block from [if (consoleDevice.current && ...readable)]
    on. *)
Definition loopFromDevice (readable : bool) : M LoopPoint :=
  r <- current ;;
  match consoleDevice r with
  | Some port =>
      if readable then emit (Call (PortClose port)) ;; ret LoopAwaitsClose
      else loopFinish
  | None => loopFinish
  end.

(** The [finally] block of the loop, entered once the loop is left. *)
Definition loopFinally (reader : Reader) (readable : bool) : M LoopPoint :=
  assign (put_consoleReadingInProgress false) ;;
  emit (Call (ReaderReleaseLock reader)) ;;
  r <- current ;;
  if negb (keepConsoleReading r) then
    r <- current ;;
    match consoleTransport r with
    | Some t => emit (Call (TransportDisconnect t)) ;; ret LoopAwaitsDisconnect
    | None => loopFromDevice readable
    end
  else ret LoopFinished.

(** The loop resumed with the result of the read it waited for. *)
Definition loopAfterRead (reader : Reader) (readable : bool) (result : ReadResult)
  : M LoopPoint :=
  match result with
  | ReadDone => loopFinally reader readable
  | ReadValue decoded =>
      match decoded with
      | Some decodedText => dispatch (APPEND_TERMINAL_OUTPUT decodedText)
      | None => ret tt
      end ;;
      r <- current ;;
      if keepConsoleReading r && consoleReadingInProgress r
      then emit (Call (ReaderRead reader)) ;; ret LoopAwaitsRead
      else loopFinally reader readable
  | ReadFailed error =>
      r <- current ;;
      when (keepConsoleReading r)
        (dispatch (SET_ERROR
           (Some (ErrString ("Console read error: " ^+ messageText error))))) ;;
      loopFinally reader readable
  end.

(** The read loop resumed at a point; [result] is what the read it waits
    for settles with. *)
Definition loopResume (reader : Reader) (readable : bool) (result : ReadResult)
    (p : LoopPoint) : M LoopPoint :=
  match p with
  | LoopAwaitsRead => loopAfterRead reader readable result
  | LoopAwaitsDisconnect => assign (put_consoleTransport None) ;; loopFromDevice readable
  | LoopAwaitsClose => loopFinish
  | LoopFinished => ret LoopFinished
  end.

(** The two tasks together: where each waits, the cells, and the events so
    far. *)
Record Tasks : Type :=
  { stopAt : StopPoint; loopAt : LoopPoint; cells : Refs; history : list Event }.

Inductive Turn : Type := StopTurn | LoopTurn.

(** What the two tasks are given by their surroundings. *)
Record TeardownEnv : Type :=
  { teardownReader : Reader;          (* the reader of the loop *)
    stopSeesReadable : bool;          (* readable, when stopConsole reads it *)
    loopSeesReadable : bool;          (* readable, when the loop reads it *)
    pendingRead : ReadResult }.       (* what the pending read settles with *)

(** One turn: the task whose turn it is runs its next piece.  A finished
    task has no turn. *)
Definition turn (env : TeardownEnv) (t : Turn) (s : Tasks) : option Tasks :=
  match t with
  | StopTurn =>
      match stopAt s with
      | StopFinished => None
      | p =>
          let x := stopResume (stopSeesReadable env) p (cells s) in
          match outcome x with
          | Returned p' =>
              Some {| stopAt := p'; loopAt := loopAt s; cells := refsAfter x;
                      history := history s ++ events x |}
          | Thrown _ => None
          end
      end
  | LoopTurn =>
      match loopAt s with
      | LoopFinished => None
      | p =>
          let x := loopResume (teardownReader env) (loopSeesReadable env)
                     (pendingRead env) p (cells s) in
          match outcome x with
          | Returned p' =>
              Some {| stopAt := stopAt s; loopAt := p'; cells := refsAfter x;
                      history := history s ++ events x |}
          | Thrown _ => None
          end
      end
  end.

(** A schedule: whose turn it is, turn after turn. *)
Fixpoint schedule (env : TeardownEnv) (turns : list Turn) (s : Tasks) : option Tasks :=
  match turns with
  | [] => Some s
  | t :: turns' =>
      match turn env t s with
      | Some s' => schedule env turns' s'
      | None => None
      end
  end.

(** The two tasks once [stopConsole] has been called on the cells [r] while
    the loop waits for a read: [stopConsole] has run to its first [await]. *)
Definition stopCalled (env : TeardownEnv) (r : Refs) : option Tasks :=
  let x := stopStart (stopSeesReadable env) r in
  match outcome x with
  | Returned p =>
      Some {| stopAt := p; loopAt := LoopAwaitsRead; cells := refsAfter x;
              history := events x |}
  | Thrown _ => None
  end.

(** Both tasks have run to their end. *)
Definition finished (s : Tasks) : bool :=
  match stopAt s, loopAt s with
  | StopFinished, LoopFinished => true
  | _, _ => false
  end.

(** The number of events of a trace that satisfy a test. *)
Definition occurrences (test : Event -> bool) (evs : list Event) : nat :=
  List.length (filter test evs).

Definition isTransportDisconnect (e : Event) : bool :=
  match e with
  | Call (TransportDisconnect _) => true
  | _ => false
  end.

Definition isReleaseLock (e : Event) : bool :=
  match e with
  | Call (ReaderReleaseLock _) => true
  | _ => false
  end.

Definition isReaderCancel (e : Event) : bool :=
  match e with
  | Call (ReaderCancel _) => true
  | _ => false
  end.

Definition isPortClose (e : Event) : bool :=
  match e with
  | Call (PortClose _) => true
  | _ => false
  end.

Definition lowersConsoleFlag (e : Event) : bool :=
  match e with
  | Dispatch (SET_IS_CONSOLE_CONNECTED false) => true
  | _ => false
  end.

(** [stopConsole] run alone from its first statement: piece after piece,
    with nothing in between.  It waits at most three times. *)
Definition stopAlone (readable : bool) : M StopPoint :=
  p <- stopStart readable ;;
  p <- stopResume readable p ;;
  p <- stopResume readable p ;;
  stopResume readable p.

(** The loop run alone from the end of its pending read. *)
Definition loopAlone (reader : Reader) (readable : bool) (result : ReadResult)
  : M LoopPoint :=
  p <- loopAfterRead reader readable result ;;
  p <- loopResume reader readable result p ;;
  loopResume reader readable result p.

(** Every state in which both tasks have finished that some schedule of at
    most [fuel] turns reaches. *)
Fixpoint completions (fuel : nat) (env : TeardownEnv) (s : Tasks) : list Tasks :=
  if finished s then [s]
  else
    match fuel with
    | O => []
    | S fuel' =>
        match turn env StopTurn s with
        | Some s' => completions fuel' env s'
        | None => []
        end ++
        match turn env LoopTurn s with
        | Some s' => completions fuel' env s'
        | None => []
        end
    end.

(** How many times the two tasks can still wait, at most. *)
Definition waitsLeft (s : Tasks) : nat :=
  match stopAt s with
  | StopAwaitsCancel => 3
  | StopAwaitsDisconnect => 2
  | StopAwaitsClose => 1
  | StopFinished => 0
  end +
  match loopAt s with
  | LoopAwaitsRead => 3
  | LoopAwaitsDisconnect => 2
  | LoopAwaitsClose => 1
  | LoopFinished => 0
  end.

(** The cells of a console that is being read: a port, its transport and
    the reader of the running loop. *)
Definition readingRefs : Refs :=
  {| programDevice := None; programTransport := None; esploaderInstance := None;
     consoleDevice := Some examplePort;
     consoleTransport := Some {| device := examplePort; tracing := false |};
     consoleReader := Some exampleReader;
     keepConsoleReading := true; consoleReadingInProgress := true |}.

(** The port is open for both tasks and the pending read ends with the
    stream. *)
Definition openPortTeardown : TeardownEnv :=
  {| teardownReader := exampleReader; stopSeesReadable := true;
     loopSeesReadable := true; pendingRead := ReadDone |}.

(** ** Properties of the reducer *)

Lemma lastLine_snoc (init : list string) (last : string) :
  lastLine (init ++ [last]) = last.
Proof.
  unfold lastLine. rewrite length_app. simpl.
  replace (List.length init + 1 - 1) with (List.length init) by lia.
  apply nth_middle.
Qed.

Lemma slice_drop_last {A} (init : list A) (last : A) :
  JS.slice (init ++ [last]) 0 (Some (-1)%Z) = init.
Proof.
  unfold JS.slice, JS.clampIndex. rewrite length_app. simpl.
  replace (Z.to_nat (Z.max (Z.of_nat (List.length init + 1) + -1) 0) - 0)
    with (List.length init) by lia.
  rewrite firstn_app, Nat.sub_diag, firstn_all. simpl. apply app_nil_r.
Qed.

Lemma substring_all_suffix (s t : string) :
  substring (String.length s) (String.length t) (s ^+ t) = t.
Proof.
  induction s as [|c s IH]; simpl.
  - induction t as [|d t IHt]; simpl; [reflexivity | now rewrite IHt].
  - exact IH.
Qed.

Lemma length_append (s t : string) :
  String.length (s ^+ t) = String.length s + String.length t.
Proof. induction s as [|c s IH]; simpl; [reflexivity | now rewrite IH]. Qed.

Lemma substring_split (n : nat) (s : string) :
  n <= String.length s ->
  s = substring 0 n s ^+ substring n (String.length s - n) s.
Proof.
  revert s. induction n as [|n IH]; intros s Hn.
  - simpl. rewrite Nat.sub_0_r.
    assert (H : forall u, substring 0 (String.length u) u = u).
    { induction u as [|c u IHu]; simpl; [reflexivity | now rewrite IHu]. }
    destruct s; simpl; [reflexivity | now rewrite H].
  - destruct s as [|c s]; simpl in *; [lia|].
    f_equal. apply IH. lia.
Qed.

(** [endsWith] with the line terminator: the text is something followed by
    the terminator. *)
Lemma endsWith_LF (s : string) :
  JS.endsWith s JS.LF = true <-> exists pre, s = pre ^+ JS.LF.
Proof.
  unfold JS.endsWith. split.
  - intros H. apply andb_true_iff in H. destruct H as [Hlen Heq].
    apply Nat.leb_le in Hlen. apply String.eqb_eq in Heq.
    exists (substring 0 (String.length s - String.length JS.LF) s).
    pose proof (substring_split (String.length s - String.length JS.LF) s) as Hs.
    replace (String.length s - (String.length s - String.length JS.LF))
      with (String.length JS.LF) in Hs by lia.
    rewrite Heq in Hs. apply Hs. lia.
  - intros [pre ->]. rewrite length_append.
    apply andb_true_iff. split.
    + apply Nat.leb_le. lia.
    + replace (String.length pre + String.length JS.LF - String.length JS.LF)
        with (String.length pre) by lia.
      rewrite substring_all_suffix. apply String.eqb_refl.
Qed.

(** C2. For every state and every payload, [null] included, the reducer
    applied to SET_ERROR yields a state whose three busy flags are false and
    whose error is the payload; the same holds of the state right after the
    dispatch at the end of any trace. *)
Theorem set_error_clears_busy_flags :
  forall (state : ESPLoaderState) (payload : option ErrorValue),
    (isLoading (esploaderReducer state (SET_ERROR payload)) = false /\
     isFlashing (esploaderReducer state (SET_ERROR payload)) = false /\
     isErasing (esploaderReducer state (SET_ERROR payload)) = false /\
     error (esploaderReducer state (SET_ERROR payload)) = payload) /\
    (forall evs : list Event,
       isLoading (replay state (evs ++ [Dispatch (SET_ERROR payload)])) = false /\
       isFlashing (replay state (evs ++ [Dispatch (SET_ERROR payload)])) = false /\
       isErasing (replay state (evs ++ [Dispatch (SET_ERROR payload)])) = false /\
       error (replay state (evs ++ [Dispatch (SET_ERROR payload)])) = payload).
Proof.
  intros state payload. split.
  - repeat split.
  - intros evs. revert state.
    induction evs as [|e evs IH]; intros state.
    + repeat split.
    + destruct e; simpl; apply IH.
Qed.

(** C6. APPEND_TERMINAL_OUTPUT concatenates its payload onto the last entry
    when the list is non-empty and the last entry does not end with the line
    terminator, and appends the payload as a new entry otherwise; the chunks
    "abc", "def\n", "ghi" written to an empty buffer give ["abcdef\n"; "ghi"]. *)
Theorem append_terminal_output_coalesces :
  (forall (state : ESPLoaderState) (payload : string),
     terminalOutput
       (esploaderReducer (with_terminalOutput [] state) (APPEND_TERMINAL_OUTPUT payload))
     = [payload]) /\
  (forall (state : ESPLoaderState) (init : list string) (last payload : string),
     terminalOutput
       (esploaderReducer (with_terminalOutput (init ++ [last]) state)
          (APPEND_TERMINAL_OUTPUT payload))
     = if JS.endsWith last JS.LF
       then init ++ [last; payload]
       else init ++ [last ^+ payload]) /\
  (forall s : string, JS.endsWith s JS.LF = true <-> exists pre, s = pre ^+ JS.LF) /\
  terminalOutput
    (replay initialESPLoaderState
       [Dispatch (APPEND_TERMINAL_OUTPUT "abc");
        Dispatch (APPEND_TERMINAL_OUTPUT ("def" ^+ JS.LF));
        Dispatch (APPEND_TERMINAL_OUTPUT "ghi")])
  = ["abcdef" ^+ JS.LF; "ghi"].
Proof.
  split; [|split; [|split]].
  - reflexivity.
  - intros state init last payload. simpl.
    rewrite lastLine_snoc, slice_drop_last, length_app. simpl.
    replace (Nat.ltb 0 (List.length init + 1)) with true
      by (symmetry; apply Nat.ltb_lt; lia).
    simpl. destruct (JS.endsWith last JS.LF); simpl.
    + now rewrite <- app_assoc.
    + reflexivity.
  - exact endsWith_LF.
  - reflexivity.
Qed.

(** C7. RESET_STATE keeps baudrate, consoleBaudrate, consoleDataBits,
    consoleStopBits, consoleParity and debugLogging, and gives every other
    field its value in the initial state: handles and chip null, all flags
    false, no error, empty terminal, no flash progress. *)
Theorem reset_state_frame :
  forall state : ESPLoaderState,
    esploaderReducer state RESET_STATE =
    {| transport := None;
       esploader := None;
       chip := None;
       isConnected := false;
       isConsoleConnected := false;
       isLoading := false;
       isFlashing := false;
       isErasing := false;
       error := None;
       terminalOutput := [];
       flashProgress := None;
       baudrate := baudrate state;
       consoleBaudrate := consoleBaudrate state;
       consoleDataBits := consoleDataBits state;
       consoleStopBits := consoleStopBits state;
       consoleParity := consoleParity state;
       debugLogging := debugLogging state |}.
Proof. intros state. reflexivity. Qed.

(** ** Traces: replay and the events of the combinators *)

Lemma replay_app (state : ESPLoaderState) (evs1 evs2 : list Event) :
  replay state (evs1 ++ evs2) = replay (replay state evs1) evs2.
Proof.
  revert state. induction evs1 as [|e evs1 IH]; intros state; [reflexivity|].
  destruct e; simpl; apply IH.
Qed.

Lemma snapshots_app (state : ESPLoaderState) (evs1 evs2 : list Event) :
  snapshots state (evs1 ++ evs2) =
  snapshots state evs1 ++ snapshots (replay state evs1) evs2.
Proof.
  revert state. induction evs1 as [|e evs1 IH]; intros state; [reflexivity|].
  destruct e; simpl; rewrite ?IH; reflexivity.
Qed.

Section EmitsOnly.

Variable P : Event -> Prop.

Lemma emitsOnly_ret {A} (a : A) : emitsOnly P (ret a).
Proof. intros r. constructor. Qed.

Lemma emitsOnly_throw {A} (e : JsError) : emitsOnly P (@throw A e).
Proof. intros r. constructor. Qed.

Lemma emitsOnly_current : emitsOnly P current.
Proof. intros r. constructor. Qed.

Lemma emitsOnly_assign (f : Refs -> Refs) : emitsOnly P (assign f).
Proof. intros r. constructor. Qed.

Lemma emitsOnly_emit (e : Event) : P e -> emitsOnly P (emit e).
Proof. intros H r. repeat constructor. exact H. Qed.

Lemma emitsOnly_bind {A B} (m : M A) (k : A -> M B) :
  emitsOnly P m -> (forall a, emitsOnly P (k a)) -> emitsOnly P (bind m k).
Proof.
  intros Hm Hk r. unfold bind. specialize (Hm r).
  destruct (m r) as [[a|e] r1 evs1]; simpl in *; [|exact Hm].
  specialize (Hk a r1). destruct (k a r1) as [o r2 evs2]; simpl in *.
  apply Forall_app. split; assumption.
Qed.

Lemma emitsOnly_tryCatch {A} (body : M A) (handler : JsError -> M A) :
  emitsOnly P body -> (forall e, emitsOnly P (handler e)) ->
  emitsOnly P (tryCatch body handler).
Proof.
  intros Hb Hh r. unfold tryCatch. specialize (Hb r).
  destruct (body r) as [[a|e] r1 evs1]; simpl in *; [exact Hb|].
  specialize (Hh e r1). destruct (handler e r1) as [o r2 evs2]; simpl in *.
  apply Forall_app. split; assumption.
Qed.

Lemma emitsOnly_tryFinally {A} (body : M A) (finalizer : M unit) :
  emitsOnly P body -> emitsOnly P finalizer ->
  emitsOnly P (tryFinally body finalizer).
Proof.
  intros Hb Hf r. unfold tryFinally. specialize (Hb r).
  destruct (body r) as [o1 r1 evs1]; simpl in *.
  specialize (Hf r1). destruct (finalizer r1) as [[[]|e] r2 evs2]; simpl in *;
    apply Forall_app; split; assumption.
Qed.

Lemma emitsOnly_await (c : ExternalCall) (answer : option JsError) :
  P (Call c) -> emitsOnly P (await c answer).
Proof.
  intros H. unfold await. apply emitsOnly_bind.
  - now apply emitsOnly_emit.
  - intros _. destruct answer; [apply emitsOnly_throw | apply emitsOnly_ret].
Qed.

Lemma emitsOnly_awaitValue {A} (c : ExternalCall) (answer : Outcome A) :
  P (Call c) -> emitsOnly P (awaitValue c answer).
Proof.
  intros H. unfold awaitValue. apply emitsOnly_bind.
  - now apply emitsOnly_emit.
  - intros _. destruct answer; [apply emitsOnly_ret | apply emitsOnly_throw].
Qed.

Lemma emitsOnly_ignoreErrors (body : M unit) :
  emitsOnly P body -> emitsOnly P (ignoreErrors body).
Proof.
  intros H. unfold ignoreErrors. apply emitsOnly_tryCatch; [exact H|].
  intros _. apply emitsOnly_ret.
Qed.

Lemma emitsOnly_whenSome {A} (x : option A) (k : A -> M unit) :
  (forall a, emitsOnly P (k a)) -> emitsOnly P (whenSome x k).
Proof. intros H. destruct x; simpl; [apply H | apply emitsOnly_ret]. Qed.

Lemma emitsOnly_when (b : bool) (k : M unit) :
  emitsOnly P k -> emitsOnly P (when b k).
Proof. intros H. destruct b; simpl; [exact H | apply emitsOnly_ret]. Qed.

End EmitsOnly.

(** One step of the decomposition of [emitsOnly P m] along the shape of [m];
    what is left are the obligations [P e] for the events [m] emits. *)
Ltac emits_step :=
  match goal with
  | |- forall _, _ => intro
  | |- emitsOnly _ (bind _ _) => apply emitsOnly_bind
  | |- emitsOnly _ (ret _) => apply emitsOnly_ret
  | |- emitsOnly _ (throw _) => apply emitsOnly_throw
  | |- emitsOnly _ current => apply emitsOnly_current
  | |- emitsOnly _ (assign _) => apply emitsOnly_assign
  | |- emitsOnly _ (dispatch _) => apply emitsOnly_emit
  | |- emitsOnly _ (delay _) => apply emitsOnly_emit
  | |- emitsOnly _ (emit _) => apply emitsOnly_emit
  | |- emitsOnly _ (await _ _) => apply emitsOnly_await
  | |- emitsOnly _ (awaitValue _ _) => apply emitsOnly_awaitValue
  | |- emitsOnly _ (tryCatch _ _) => apply emitsOnly_tryCatch
  | |- emitsOnly _ (tryFinally _ _) => apply emitsOnly_tryFinally
  | |- emitsOnly _ (ignoreErrors _) => apply emitsOnly_ignoreErrors
  | |- emitsOnly _ (whenSome _ _) => apply emitsOnly_whenSome
  | |- emitsOnly _ (when _ _) => apply emitsOnly_when
  | |- emitsOnly _ (match ?x with _ => _ end) => destruct x
  | |- emitsOnly _ (let _ := _ in _) => cbv zeta
  end.

Ltac emits := repeat emits_step.

(** Actions that leave a flag alone or turn it off never turn it on. *)

Lemma keeps_connected_off (state : ESPLoaderState) (action : Action) :
  turnsOnConnected (Dispatch action) = false ->
  isConnected state = false ->
  isConnected (esploaderReducer state action) = false.
Proof.
  destruct action as [| | |[]|[]|[]|[]|[]| | | | | | | | | | | | |];
    simpl; intros H H0; try exact H0; try reflexivity; discriminate.
Qed.

Lemma keeps_console_off (state : ESPLoaderState) (action : Action) :
  turnsOnConsoleConnected (Dispatch action) = false ->
  isConsoleConnected state = false ->
  isConsoleConnected (esploaderReducer state action) = false.
Proof.
  destruct action as [| | |[]|[]|[]|[]|[]| | | | | | | | | | | | |];
    simpl; intros H H0; try exact H0; try reflexivity; discriminate.
Qed.

Lemma lowering_keeps_exclusive (state : ESPLoaderState) (action : Action) :
  turnsOnConnected (Dispatch action) = false ->
  turnsOnConsoleConnected (Dispatch action) = false ->
  mutuallyExclusive state ->
  mutuallyExclusive (esploaderReducer state action).
Proof.
  unfold mutuallyExclusive.
  destruct action as [| | |[]|[]|[]|[]|[]| | | | | | | | | | | | |];
    simpl; intros H1 H2 H0; try exact H0; try reflexivity; try discriminate.
  apply andb_false_r.
Qed.

Lemma connected_stays_off (evs : list Event) (state : ESPLoaderState) :
  Forall (fun e => turnsOnConnected e = false) evs ->
  isConnected state = false ->
  Forall (fun s => isConnected s = false) (snapshots state evs) /\
  isConnected (replay state evs) = false.
Proof.
  intros H. revert state. induction H as [|e evs He _ IH]; intros state H0.
  - split; [constructor | exact H0].
  - destruct e as [action| | |]; simpl; try (apply IH; exact H0).
    pose proof (keeps_connected_off state action He H0) as H1.
    destruct (IH _ H1) as [IH1 IH2]. split; [constructor; assumption | exact IH2].
Qed.

Lemma console_stays_off (evs : list Event) (state : ESPLoaderState) :
  Forall (fun e => turnsOnConsoleConnected e = false) evs ->
  isConsoleConnected state = false ->
  Forall (fun s => isConsoleConnected s = false) (snapshots state evs) /\
  isConsoleConnected (replay state evs) = false.
Proof.
  intros H. revert state. induction H as [|e evs He _ IH]; intros state H0.
  - split; [constructor | exact H0].
  - destruct e as [action| | |]; simpl; try (apply IH; exact H0).
    pose proof (keeps_console_off state action He H0) as H1.
    destruct (IH _ H1) as [IH1 IH2]. split; [constructor; assumption | exact IH2].
Qed.

Lemma exclusive_stays (evs : list Event) (state : ESPLoaderState) :
  Forall (fun e => turnsOnConnected e = false /\ turnsOnConsoleConnected e = false) evs ->
  mutuallyExclusive state ->
  Forall mutuallyExclusive (snapshots state evs) /\
  mutuallyExclusive (replay state evs).
Proof.
  intros H. revert state. induction H as [|e evs [He1 He2] _ IH]; intros state H0.
  - split; [constructor | exact H0].
  - destruct e as [action| | |]; simpl; try (apply IH; exact H0).
    pose proof (lowering_keeps_exclusive state action He1 He2 H0) as H1.
    destruct (IH _ H1) as [IH1 IH2]. split; [constructor; assumption | exact IH2].
Qed.

(** ** disconnect *)

Lemma disconnect_returns (env : DisconnectEnv) (r : Refs) :
  outcome (disconnect env r) = Returned tt.
Proof.
  destruct env as [dt rd cl]; destruct r as [pd pt ei cd ct cr k ip].
  destruct pt, dt, pd, rd, cl; reflexivity.
Qed.

Lemma disconnect_ends_off (env : DisconnectEnv) (r : Refs) (state : ESPLoaderState) :
  isConnected (replay state (events (disconnect env r))) = false.
Proof.
  destruct env as [dt rd cl]; destruct r as [pd pt ei cd ct cr k ip].
  destruct pt, dt, pd, rd, cl; reflexivity.
Qed.

Lemma disconnect_lowering (env : DisconnectEnv) :
  emitsOnly (fun e => turnsOnConnected e = false /\ turnsOnConsoleConnected e = false)
    (disconnect env).
Proof. unfold disconnect, disconnectFinally. emits; split; reflexivity. Qed.




(** C10. A disconnect that meets no exception dispatches RESET_STATE: after
    it the terminal buffer is empty and chip is null, while baudrate,
    consoleBaudrate, consoleDataBits, consoleStopBits, consoleParity and
    debugLogging keep their values. *)
Theorem disconnect_success_clears_terminal :
  forall (env : DisconnectEnv) (r : Refs) (state : ESPLoaderState),
    programTransport r = None \/ disconnectTransport env = None ->
    In (Dispatch RESET_STATE) (events (disconnect env r)) /\
    terminalOutput (replay state (events (disconnect env r))) = [] /\
    chip (replay state (events (disconnect env r))) = None /\
    baudrate (replay state (events (disconnect env r))) = baudrate state /\
    consoleBaudrate (replay state (events (disconnect env r))) = consoleBaudrate state /\
    consoleDataBits (replay state (events (disconnect env r))) = consoleDataBits state /\
    consoleStopBits (replay state (events (disconnect env r))) = consoleStopBits state /\
    consoleParity (replay state (events (disconnect env r))) = consoleParity state /\
    debugLogging (replay state (events (disconnect env r))) = debugLogging state.
Proof.
  intros env r state H.
  destruct env as [dt rd cl]; destruct r as [pd pt ei cd ct cr k ip].
  simpl in H.
  destruct pt, dt, pd, rd, cl; simpl;
    try (destruct H as [H|H]; discriminate H);
    repeat split; auto 10.
Qed.

(** A connected session with two lines in its terminal and a console
    baudrate of 9600 is disconnected. *)
Lemma disconnect_success_clears_terminal_witness :
  let state :=
    with_consoleBaudrate 9600 (with_terminalOutput ["booting"; "ready"] connectedState) in
  let env := {| disconnectTransport := None; disconnectReadable := true;
                disconnectClose := None |} in
  terminalOutput state = ["booting"; "ready"] /\
  terminalOutput (replay state (events (disconnect env connectedRefs))) = [] /\
  consoleBaudrate (replay state (events (disconnect env connectedRefs))) = 9600%Z.
Proof.
  intros state env.
  destruct (disconnect_success_clears_terminal env connectedRefs state
              (or_intror eq_refl))
    as (_ & Hterm & _ & _ & Hbaud & _).
  split; [reflexivity|]. split; [exact Hterm | exact Hbaud].
Defined.

(** ** program and eraseFlash *)

Lemma reportAll_run (files : list FlashFile) (reports : list ProgressReport) (r : Refs) :
  outcome (reportAll files reports r) = Returned tt /\
  refsAfter (reportAll files reports r) = r.
Proof.
  induction reports as [|p reports [IH1 IH2]]; [split; reflexivity|].
  simpl. unfold bind. simpl.
  destruct (reportAll files reports r) as [o r1 evs]; simpl in *.
  subst. split; reflexivity.
Qed.

(** The state after an operation's [catch] and the first dispatch of its
    [finally] carries no error. *)
Lemma error_cleared_after (state : ESPLoaderState) (pre post : list Event)
    (payload : option ErrorValue) (busy : Action) :
  busy = SET_IS_FLASHING false \/ busy = SET_IS_ERASING false ->
  Forall (fun e => e = Dispatch (SET_FLASH_PROGRESS None)) post ->
  error (replay state (pre ++ Dispatch (SET_ERROR payload) :: Dispatch busy :: post)) = None.
Proof.
  intros Hbusy Hpost. rewrite replay_app. simpl.
  set (s := esploaderReducer _ busy).
  assert (Hs : error s = None) by (subst s; destruct Hbusy as [-> | ->]; reflexivity).
  clearbody s. revert s Hs.
  induction Hpost as [|e post -> _ IH]; intros s Hs; [exact Hs|].
  simpl. apply IH. exact Hs.
Qed.



(** The trace of a program whose engine call throws. *)
Lemma program_failure_events (state : ESPLoaderState) (r : Refs) (loader : ESPLoader)
    (files : list ESPFile) (options : FlashOverrides) (env : ProgramEnv) (e : JsError) :
  esploaderInstance r = Some loader ->
  isConnected state = true ->
  programWriteFlash env = Some e ->
  events (program state files options env r) =
  [Dispatch (SET_IS_FLASHING true); Dispatch (SET_ERROR None);
   Call (LoaderWriteFlash loader (flashOptionsFor (map toFlashFile files) options))]
  ++ events (reportAll (map toFlashFile files) (programReports env) r)
  ++ [Dispatch (SET_ERROR (Some (ErrString (JS.orDefault (message e) "Failed to program"))));
      Dispatch (SET_IS_FLASHING false);
      Dispatch (SET_FLASH_PROGRESS None)].
Proof.
  intros Hl Hc He.
  destruct (reportAll_run (map toFlashFile files) (programReports env) r) as [Ho Hr].
  destruct (reportAll (map toFlashFile files) (programReports env) r)
    as [o r1 evs] eqn:E.
  simpl in Ho, Hr. subst o r1.
  unfold program, bind, tryFinally, tryCatch. cbn -[reportAll].
  rewrite Hl, Hc. cbn -[reportAll]. rewrite Hl. cbn -[reportAll].
  rewrite E, He. cbn.
  rewrite ?app_nil_r, <- ?app_assoc. reflexivity.
Qed.

(** C3 (what the code does instead). On a connected session, when the
    engine call of program or eraseFlash throws, the failure message is
    dispatched as SET_ERROR, and the [finally] block's SET_IS_FLASHING false
    (SET_IS_ERASING false) resets error: the state after the operation has
    error null. *)
Theorem operation_error_cleared_by_cleanup :
  forall (state : ESPLoaderState) (r : Refs) (loader : ESPLoader)
         (files : list ESPFile) (options : FlashOverrides) (env : ProgramEnv)
         (e : JsError) (live : ESPLoaderState),
    esploaderInstance r = Some loader ->
    isConnected state = true ->
    programWriteFlash env = Some e ->
    (In (Dispatch (SET_ERROR (Some (ErrString (JS.orDefault (message e) "Failed to program")))))
        (events (program state files options env r)) /\
     error (replay live (events (program state files options env r))) = None) /\
    (In (Dispatch (SET_ERROR (Some (ErrString (JS.orDefault (message e) "Failed to erase flash")))))
        (events (eraseFlash state (Some e) r)) /\
     error (replay live (events (eraseFlash state (Some e) r))) = None).
Proof.
  intros state r loader files options env e live Hl Hc He.
  split.
  - rewrite (program_failure_events state r loader files options env e Hl Hc He).
    split.
    + apply in_or_app. right. apply in_or_app. right. left. reflexivity.
    + rewrite app_assoc.
      apply error_cleared_after; [left; reflexivity | repeat constructor].
  - unfold eraseFlash, bind, tryFinally, tryCatch; simpl.
    rewrite Hl, Hc; simpl. rewrite Hl; simpl. split; [auto 10 | reflexivity].
Qed.

(** A connected session whose writeFlash and eraseFlash throw. *)
Lemma operation_error_cleared_by_cleanup_witness :
  let env := {| programReports := []; programWriteFlash := Some (Error_ "flash write failed") |} in
  isConnected connectedState = true /\
  error (replay connectedState
           (events (program connectedState [exampleFile] noOverrides env connectedRefs)))
  = None /\
  error (replay connectedState
           (events (eraseFlash connectedState (Some (Error_ "flash write failed"))
                      connectedRefs)))
  = None.
Proof.
  intros env.
  destruct (operation_error_cleared_by_cleanup connectedState connectedRefs
              {| loaderTransport := {| device := examplePort; tracing := false |};
                 loaderBaudrate := 115200; loaderRomBaudrate := 115200 |}
              [exampleFile] noOverrides env (Error_ "flash write failed")
              connectedState eq_refl eq_refl eq_refl)
    as ((_ & Hp) & (_ & He)).
  split; [reflexivity|]. split; [exact Hp | exact He].
Defined.

(** ** The handshake retry loop *)

(** One pass of the loop body, by the answer of [loader.main()]. *)
Lemma retryLoop_step (remaining attempt : nat) (loader : ESPLoader)
    (mainResult : nat -> option JsError) (r : Refs) :
  retryLoop (S remaining) attempt loader mainResult r =
  let pre := if (1 <? attempt)%nat then [Delay (1000 * Z.of_nat attempt)] else [] in
  match mainResult attempt with
  | None =>
      {| outcome := Returned tt; refsAfter := r;
         events := pre ++ [Call (LoaderMain loader)] |}
  | Some e =>
      if (attempt =? maxRetries)%nat || isPermissionError e then
        {| outcome := Thrown e; refsAfter := r;
           events := pre ++ [Call (LoaderMain loader)] |}
      else
        let next := retryLoop remaining (S attempt) loader mainResult r in
        {| outcome := outcome next; refsAfter := refsAfter next;
           events := pre ++ [Call (LoaderMain loader)]
                     ++ (if isCommunicationError e then [Delay 2000] else [])
                     ++ events next |}
  end.
Proof.
  cbv zeta. simpl retryLoop.
  unfold bind, tryCatch, when, await, delay, emit, ret, throw.
  destruct (1 <? attempt)%nat; simpl;
    destruct (mainResult attempt) as [e|]; simpl; try reflexivity;
    destruct (attempt =? maxRetries)%nat; simpl; try reflexivity;
    destruct (isPermissionError e); simpl; try reflexivity;
    destruct (isCommunicationError e); simpl;
    destruct (retryLoop remaining (S attempt) loader mainResult r); reflexivity.
Qed.

Lemma handshake_policy (loader : ESPLoader) (mainResult : nat -> option JsError)
    (r : Refs) :
  let x := handshake loader mainResult r in
  let k := attempts (events x) in
  1 <= k <= 3 /\
  events x = flat_map (policyAttemptEvents loader mainResult) (seq 1 k) /\
  refsAfter x = r /\
  (forall n, 1 <= n < k ->
     exists e, mainResult n = Some e /\ isPermissionError e = false) /\
  outcome x = match mainResult k with
              | None => Returned tt
              | Some e => Thrown e
              end /\
  (forall e, mainResult k = Some e -> k = 3 \/ isPermissionError e = true).
Proof.
  cbv zeta. unfold handshake, maxRetries.
  rewrite !retryLoop_step. cbv zeta.
  unfold policyAttemptEvents, attempts, maxRetries.
  destruct (mainResult 1) as [e1|] eqn:E1;
    [destruct (isPermissionError e1) eqn:P1;
     [|destruct (isCommunicationError e1) eqn:C1;
       (destruct (mainResult 2) as [e2|] eqn:E2;
        [destruct (isPermissionError e2) eqn:P2;
         [|destruct (isCommunicationError e2) eqn:C2;
           destruct (mainResult 3) as [e3|] eqn:E3]|])]|];
    simpl;
    repeat match goal with H : _ = _ |- _ => rewrite H end; simpl;
    (split; [lia|]); (split; [reflexivity|]); (split; [reflexivity|]);
    (split;
     [intros n Hn;
      first [exfalso; lia
            | assert (Hc : n = 1 \/ n = 2) by lia;
              destruct Hc; subst n; eexists; split; eassumption
            | assert (Hc : n = 1) by lia;
              subst n; eexists; split; eassumption]|]);
    (split; [reflexivity|]);
    intros e He; inversion He; subst; auto.
Qed.

Lemma startsWith_prefix (t : string) :
  forall s, JS.startsWith s t = true <-> exists after, s = t ^+ after.
Proof.
  induction t as [|b t IH]; intros s.
  - split; [intros _; exists s; reflexivity | intros _; destruct s; reflexivity].
  - destruct s as [|a s]; simpl.
    + split; [discriminate | intros [after H]; discriminate H].
    + rewrite andb_true_iff, Ascii.eqb_eq, IH. split.
      * intros [-> [after ->]]. exists after. reflexivity.
      * intros [after H]. injection H as -> ->. split; [reflexivity | now exists after].
Qed.

Lemma includes_occursIn (t : string) :
  forall s, JS.includes s t = true <-> occursIn t s.
Proof.
  induction s as [|a s IH]; cbn [JS.includes]; rewrite orb_true_iff.
  - split.
    + intros [H | H]; [|discriminate H].
      apply startsWith_prefix in H. destruct H as [after H].
      exists "", after. exact H.
    + intros [before [after H]]. left. apply startsWith_prefix.
      destruct before as [|c before]; [|discriminate H].
      exists after. exact H.
  - rewrite IH. split.
    + intros [H | [before [after H]]].
      * apply startsWith_prefix in H. destruct H as [after H].
        exists "", after. exact H.
      * exists (String a before), after. simpl. rewrite H. reflexivity.
    + intros [before [after H]]. destruct before as [|c before].
      * left. apply startsWith_prefix. exists after. exact H.
      * simpl in H. injection H as -> H. right. now exists before, after.
Qed.

Lemma lowerMessage_contains (word : string) (e : JsError) :
  word <> "" ->
  JS.includes (lowerMessage e) word = true <-> messageContains word e.
Proof.
  intros Hw. rewrite includes_occursIn. unfold lowerMessage, messageContains.
  destruct (message e) as [m|].
  - split.
    + intros H. exists m. split; [reflexivity | exact H].
    + intros [m' [E H]]. injection E as <-. exact H.
  - split.
    + intros [before [after H]]. destruct before; [|discriminate H].
      destruct word; [contradiction | discriminate H].
    + intros [m' [E _]]. discriminate E.
Qed.

Lemma isPermissionError_iff (e : JsError) :
  isPermissionError e = true <-> permissionFailure e.
Proof.
  unfold isPermissionError, permissionFailure.
  rewrite orb_true_iff, !lowerMessage_contains by discriminate. reflexivity.
Qed.

Lemma isCommunicationError_iff (e : JsError) :
  isCommunicationError e = true <-> communicationFailure e.
Proof.
  unfold isCommunicationError, communicationFailure.
  rewrite !orb_true_iff, !lowerMessage_contains by discriminate. tauto.
Qed.

(** C5. The retry policy of connect.  The handshake is attempted at least
    once and at most three times; attempt n of the second and third is
    preceded by a delay of n x 1000 ms; a failure that is followed by a retry
    adds a delay of 2000 ms exactly when its message contains, letter case
    apart, "timeout", "sync" or "invalid data".  A failure whose message
    contains "permission" or "access denied" ends the loop at once and is
    thrown to the caller: on the first attempt that makes exactly one attempt
    and no delay.  Any other failure of the first or second attempt is
    followed by a further attempt, so a retry only follows a failure that is
    no permission failure; and the failure of the last attempt made, the
    third in particular, is thrown to the caller.  The tests of the loop are
    the two failure classes: they hold of a failure exactly when its message
    contains one of the words. *)
Theorem connect_retry_policy :
  forall (loader : ESPLoader) (mainResult : nat -> option JsError) (r : Refs),
    let x := handshake loader mainResult r in
    let k := attempts (events x) in
    1 <= k <= 3 /\
    events x = flat_map (policyAttemptEvents loader mainResult) (seq 1 k) /\
    (forall e, isPermissionError e = true <-> permissionFailure e) /\
    (forall e, isCommunicationError e = true <-> communicationFailure e) /\
    (forall n e, 1 <= n <= k -> mainResult n = Some e ->
                 permissionFailure e ->
                 k = n /\ outcome x = Thrown e) /\
    (forall e, mainResult 1 = Some e -> permissionFailure e ->
               k = 1 /\ events x = [Call (LoaderMain loader)] /\ outcome x = Thrown e) /\
    (forall n, 1 <= n < k ->
       exists e, mainResult n = Some e /\ ~ permissionFailure e) /\
    (forall n e, 1 <= n <= k -> n < 3 -> mainResult n = Some e ->
                 ~ permissionFailure e -> n < k) /\
    (forall n e, 1 <= n < k -> mainResult n = Some e ->
       policyAttemptEvents loader mainResult n =
       (if (2 <=? n)%nat then [Delay (Z.of_nat n * 1000)] else []) ++
       [Call (LoaderMain loader)] ++
       (if isCommunicationError e then [Delay 2000] else [])) /\
    (forall e, k = 3 -> mainResult 3 = Some e -> outcome x = Thrown e) /\
    outcome x = match mainResult k with
                | None => Returned tt
                | Some e => Thrown e
                end /\
    (forall e, mainResult k = Some e -> k = 3 \/ permissionFailure e) /\
    refsAfter x = r.
Proof.
  intros loader mainResult r x k.
  destruct (handshake_policy loader mainResult r)
    as (Hk & Hev & Hr & Hretry & Hout & Hlast).
  fold x in Hk, Hev, Hr, Hretry, Hout, Hlast. fold k in Hk, Hev, Hretry, Hout, Hlast.
  assert (Hperm : forall n e, 1 <= n <= k -> mainResult n = Some e ->
                              permissionFailure e ->
                              k = n /\ outcome x = Thrown e).
  { intros n e Hn He Hp. apply isPermissionError_iff in Hp.
    assert (n = k).
    { destruct (Nat.eq_dec n k) as [|Hne]; [assumption|].
      destruct (Hretry n ltac:(lia)) as (e' & He' & Hp').
      rewrite He in He'. inversion He'; subst e'. congruence. }
    subst n. split; [reflexivity|]. rewrite Hout, He. reflexivity. }
  split; [exact Hk|]. split; [exact Hev|].
  split; [exact isPermissionError_iff|]. split; [exact isCommunicationError_iff|].
  split; [exact Hperm|].
  split.
  { intros e He Hp. destruct (Hperm 1 e ltac:(lia) He Hp) as [Hk1 Ho].
    split; [exact Hk1|]. split; [|exact Ho].
    rewrite Hev, Hk1. cbn [seq flat_map]. unfold policyAttemptEvents.
    rewrite He. apply isPermissionError_iff in Hp. rewrite Hp. reflexivity. }
  split.
  { intros n Hn. destruct (Hretry n Hn) as (e & He & Hp). exists e.
    split; [exact He|]. intros Hc. apply isPermissionError_iff in Hc. congruence. }
  split.
  { intros n e Hn H3 He Hp.
    destruct (Nat.eq_dec n k) as [->|Hne]; [|lia].
    destruct (Hlast e He) as [Hk3 | Hc]; [lia|].
    apply isPermissionError_iff in Hc. contradiction. }
  split.
  { intros n e Hn He. unfold policyAttemptEvents. rewrite He.
    destruct (Hretry n Hn) as (e' & He' & Hp'). rewrite He in He'.
    injection He' as <-. rewrite Hp'.
    assert (Hlt : (n <? maxRetries)%nat = true).
    { apply Nat.ltb_lt. unfold maxRetries. lia. }
    rewrite Hlt. reflexivity. }
  split.
  { intros e H3 He. rewrite Hout, H3, He. reflexivity. }
  split; [exact Hout|]. split; [|exact Hr].
  intros e He. destruct (Hlast e He) as [H3 | Hp]; [left; exact H3|].
  right. apply isPermissionError_iff. exact Hp.
Qed.

(** Three runs of the handshake.  Every attempt times out: three attempts,
    the second and the third after growing delays, and the last failure
    thrown.  The first attempt is refused for lack of permission: one attempt
    and no delay.  The port is busy on the first attempt and access is denied
    on the second: two attempts, no extra delay, and the second failure
    thrown. *)
Lemma connect_retry_policy_witness :
  let loader := {| loaderTransport := {| device := examplePort; tracing := false |};
                   loaderBaudrate := 115200; loaderRomBaudrate := 115200 |} in
  let timeout := Error_ "Read timeout exceeded" in
  let refused := Error_ "Permission denied by the user" in
  let busy := Error_ "The port is busy" in
  let denied := Error_ "NetworkError: Access Denied" in
  let x := handshake loader (fun _ => Some timeout) initialRefs in
  let y := handshake loader (fun _ => Some refused) initialRefs in
  let z := handshake loader (fun n => if (n =? 1)%nat then Some busy else Some denied)
             initialRefs in
  (events x = [Call (LoaderMain loader); Delay 2000;
               Delay 2000; Call (LoaderMain loader); Delay 2000;
               Delay 3000; Call (LoaderMain loader)] /\
   attempts (events x) = 3 /\
   outcome x = Thrown timeout) /\
  (attempts (events y) = 1 /\
   events y = [Call (LoaderMain loader)] /\
   outcome y = Thrown refused) /\
  (attempts (events z) = 2 /\
   events z = [Call (LoaderMain loader); Delay 2000; Call (LoaderMain loader)] /\
   outcome z = Thrown denied).
Proof.
  intros loader timeout refused busy denied x y z.
  split; [|split].
  - destruct (connect_retry_policy loader (fun _ => Some timeout) initialRefs)
      as (_ & Hev & _ & _ & _ & _ & _ & _ & _ & Hthird & _).
    split; [exact Hev|]. split; [reflexivity|].
    apply Hthird; reflexivity.
  - destruct (connect_retry_policy loader (fun _ => Some refused) initialRefs)
      as (_ & _ & _ & _ & _ & Hfirst & _).
    apply (Hfirst refused); [reflexivity|].
    left. exists "Permission denied by the user". split; [reflexivity|].
    exists "", " denied by the user". reflexivity.
  - destruct (connect_retry_policy loader
                (fun n => if (n =? 1)%nat then Some busy else Some denied) initialRefs)
      as (_ & Hev & _ & _ & Hperm & _).
    assert (Hd : permissionFailure denied).
    { right. exists "NetworkError: Access Denied". split; [reflexivity|].
      exists "networkerror: ", "". reflexivity. }
    destruct (Hperm 2 denied) as [Hk Ho]; [vm_compute; lia | reflexivity | exact Hd |].
    split; [symmetry; exact Hk|]. split; [exact Hev | exact Ho].
Defined.

(** ** connect *)

Lemma stopConsole_returns (env : StopConsoleEnv) (r : Refs) :
  outcome (stopConsole env r) = Returned tt.
Proof.
  destruct env as [a b c d]; destruct r as [pd pt ei cd ct cr k ip].
  destruct cr, a, ct, b, cd, c, d; reflexivity.
Qed.

Lemma stopConsole_ends_off (env : StopConsoleEnv) (r : Refs) (state : ESPLoaderState) :
  isConsoleConnected (replay state (events (stopConsole env r))) = false.
Proof.
  destruct env as [a b c d]; destruct r as [pd pt ei cd ct cr k ip].
  destruct cr, a, ct, b, cd, c, d; reflexivity.
Qed.

Lemma stopConsole_lowering (env : StopConsoleEnv) :
  emitsOnly (fun e => turnsOnConnected e = false /\ turnsOnConsoleConnected e = false)
    (stopConsole env).
Proof. unfold stopConsole. emits; split; reflexivity. Qed.

Lemma retryLoop_emits (P : Event -> Prop) (remaining : nat) :
  forall (attempt : nat) (loader : ESPLoader) (mainResult : nat -> option JsError),
    (forall c, P (Call c)) -> (forall ms, P (Delay ms)) ->
    emitsOnly P (retryLoop remaining attempt loader mainResult).
Proof.
  induction remaining as [|n IH]; intros attempt loader mainResult HC HD; simpl.
  - emits.
  - emits; auto.
Qed.

(** [connect] in terms of its two stages: the mode switch, then the
    protected part. *)
Lemma connect_run (state : ESPLoaderState) (rom : Z) (portToUse : option SerialPort)
    (env : ConnectEnv) (r : Refs) :
  let s := when (isConsoleConnected state) (stopConsole (connectStop env)) r in
  let y := connectProtected state rom portToUse env (refsAfter s) in
  outcome (connect state rom portToUse env r) = outcome y /\
  refsAfter (connect state rom portToUse env r) = refsAfter y /\
  events (connect state rom portToUse env r) =
  Dispatch (SET_IS_LOADING true) :: Dispatch (SET_ERROR None) :: events s ++ events y.
Proof.
  cbv zeta. unfold connect, bind. cbn -[stopConsole connectProtected].
  destruct (isConsoleConnected state); cbn -[stopConsole connectProtected].
  - pose proof (stopConsole_returns (connectStop env) r) as Ho.
    destruct (stopConsole (connectStop env) r) as [o r1 evs1]. simpl in Ho. subst o.
    cbn -[connectProtected].
    destruct (connectProtected state rom portToUse env r1); repeat split.
  - destruct (connectProtected state rom portToUse env r); repeat split.
Qed.

Lemma connectProtected_keeps_console_off (state : ESPLoaderState) (rom : Z)
    (portToUse : option SerialPort) (env : ConnectEnv) :
  emitsOnly (fun e => turnsOnConsoleConnected e = false)
    (connectProtected state rom portToUse env).
Proof.
  unfold connectProtected, connectAttempt, connectFailed, handshake.
  emits; try reflexivity.
  apply retryLoop_emits; reflexivity.
Qed.

(** Three failures, the first two not permission errors: the retries are
    exhausted and the third failure is thrown. *)
Lemma handshake_exhausted (loader : ESPLoader) (mainResult : nat -> option JsError)
    (e1 e2 e : JsError) (r : Refs) :
  mainResult 1 = Some e1 -> isPermissionError e1 = false ->
  mainResult 2 = Some e2 -> isPermissionError e2 = false ->
  mainResult 3 = Some e ->
  outcome (handshake loader mainResult r) = Thrown e /\
  refsAfter (handshake loader mainResult r) = r /\
  attempts (events (handshake loader mainResult r)) = 3.
Proof.
  intros H1 P1 H2 P2 H3.
  unfold handshake, maxRetries. rewrite !retryLoop_step. cbv zeta.
  rewrite H1, H2, H3, P1, P2. unfold attempts.
  destruct (isCommunicationError e1), (isCommunicationError e2); repeat split.
Qed.

Lemma connectProtected_failure (state : ESPLoaderState) (rom : Z)
    (portToUse : option SerialPort) (env : ConnectEnv) (r : Refs)
    (port : SerialPort) (e1 e2 e : JsError) :
  connectSerial env = None ->
  portToUse = Some port \/
  (portToUse = None /\ connectRequestPort env = Returned (Some port)) ->
  connectMain env 1 = Some e1 -> isPermissionError e1 = false ->
  connectMain env 2 = Some e2 -> isPermissionError e2 = false ->
  connectMain env 3 = Some e ->
  let t := {| device := port; tracing := debugLogging state |} in
  let x := connectProtected state rom portToUse env r in
  outcome x = Returned "" /\
  (programDevice (refsAfter x) = None /\ programTransport (refsAfter x) = None /\
   esploaderInstance (refsAfter x) = None) /\
  exists pre, events x = pre ++ connectFailureEvents env t port e.
Proof.
  intros Hs Hp H1 P1 H2 P2 H3 t x. subst x.
  set (loader := {| loaderTransport := t; loaderBaudrate := baudrate state;
                    loaderRomBaudrate := rom |}).
  set (r0 := put_esploaderInstance (Some loader)
               (put_programTransport (Some t) (put_programDevice (Some port) r))).
  destruct (handshake_exhausted loader (connectMain env) e1 e2 e r0 H1 P1 H2 P2 H3)
    as (Ho & Hr & _).
  destruct (handshake loader (connectMain env) r0) as [o r2 evs] eqn:E.
  simpl in Ho, Hr. subst o r2.
  unfold connectProtected, connectAttempt, connectFailed, tryFinally, tryCatch, bind,
    connectFailureEvents.
  cbn -[handshake]. rewrite Hs. cbn -[handshake].
  destruct Hp as [-> | [-> Hq]]; [|rewrite Hq]; cbn -[handshake];
    fold t; fold loader; fold r0; rewrite E; cbn;
    destruct (cleanupDisconnect env), (cleanupReadable env), (cleanupClose env); cbn;
    (split; [reflexivity|]); (split; [repeat split|]);
    first [ exists (Call GetSerialInstance :: evs);
            simpl; rewrite <- app_assoc; reflexivity
          | exists (Call GetSerialInstance :: Call RequestPort :: evs);
            simpl; rewrite <- app_assoc; reflexivity ].
Qed.

(** C4 (what the code does instead). When the handshake fails on all three
    attempts (the first two failures not being permission errors, so that the
    retries are exhausted) and [e] is the third failure, connect returns the
    empty string, clears the three program-mode cells, and ends its trace
    with: SET_ERROR of [userMessage] (one of three one-line texts, or the
    message itself), SET_IS_CONNECTED false, the transport disconnect, the
    port close when the port is open, the settle delay, SET_IS_LOADING false;
    failures of the disconnect and of the close change nothing of this.  The
    multi-line texts of [remediation] are never dispatched, and
    SET_IS_CONNECTED false resets error: the state after the call has error
    null. *)
Theorem connect_failure_outcome :
  forall (state : ESPLoaderState) (rom : Z) (portToUse : option SerialPort)
         (env : ConnectEnv) (r : Refs) (port : SerialPort) (e1 e2 e : JsError)
         (live : ESPLoaderState),
    connectSerial env = None ->
    portToUse = Some port \/
    (portToUse = None /\ connectRequestPort env = Returned (Some port)) ->
    connectMain env 1 = Some e1 -> isPermissionError e1 = false ->
    connectMain env 2 = Some e2 -> isPermissionError e2 = false ->
    connectMain env 3 = Some e ->
    let t := {| device := port; tracing := debugLogging state |} in
    let x := connect state rom portToUse env r in
    outcome x = Returned "" /\
    (programDevice (refsAfter x) = None /\ programTransport (refsAfter x) = None /\
     esploaderInstance (refsAfter x) = None) /\
    (exists pre, events x = pre ++ connectFailureEvents env t port e) /\
    error (replay live (events x)) = None /\
    isConnected (replay live (events x)) = false /\
    isLoading (replay live (events x)) = false.
Proof.
  intros state rom portToUse env r port e1 e2 e live Hs Hp H1 P1 H2 P2 H3 t x.
  destruct (connect_run state rom portToUse env r) as (Ho & Hr & Hev).
  fold x in Ho, Hr, Hev.
  destruct (connectProtected_failure state rom portToUse env
              (refsAfter (when (isConsoleConnected state)
                            (stopConsole (connectStop env)) r))
              port e1 e2 e Hs Hp H1 P1 H2 P2 H3)
    as (Ho' & Hr' & pre & Hev').
  fold t in Hev'.
  rewrite Ho, Hr. split; [exact Ho'|]. split; [exact Hr'|].
  assert (Hsplit : exists pre', events x = pre' ++ connectFailureEvents env t port e).
  { rewrite Hev, Hev'. eexists.
    rewrite !app_comm_cons, !app_assoc. reflexivity. }
  split; [exact Hsplit|].
  destruct Hsplit as [pre' ->]. rewrite !replay_app.
  unfold connectFailureEvents.
  destruct (cleanupReadable env), (cleanupClose env); repeat split.
Qed.

(** Every handshake attempt of a connect from the initial state times out. *)
Lemma connect_failure_outcome_witness :
  let timeout := Error_ "Read timeout exceeded" in
  let shown :=
    "Connection timeout. Try pressing the BOOT button on your device while connecting." in
  let x := connect initialESPLoaderState 115200 None
             (connectWith (fun _ => Some timeout)) initialRefs in
  userMessage "Read timeout exceeded" = shown /\
  JS.includes shown JS.LF = false /\
  message (remediation timeout) <> Some shown /\
  In (Dispatch (SET_ERROR (Some (ErrString shown)))) (events x) /\
  outcome x = Returned "" /\
  error (replay initialESPLoaderState (events x)) = None.
Proof.
  intros timeout shown x.
  destruct (connect_failure_outcome initialESPLoaderState 115200 None
              (connectWith (fun _ => Some timeout)) initialRefs examplePort
              timeout timeout timeout initialESPLoaderState eq_refl
              (or_intror (conj eq_refl eq_refl))
              eq_refl eq_refl eq_refl eq_refl eq_refl)
    as (Hout & _ & _ & Herr & _).
  split; [reflexivity|]. split; [reflexivity|].
  split; [discriminate|].
  split; [vm_compute; auto 20|].
  split; [exact Hout | exact Herr].
Defined.

(** ** startConsole and the read loop *)

Lemma startConsole_run (state : ESPLoaderState) (portToUse : option SerialPort)
    (env : StartConsoleEnv) (r : Refs) :
  let s := when (isConnected state) (disconnect (startDisconnect env) ;; delay 2000) r in
  let y := startConsoleProper state portToUse env (refsAfter s) in
  events (startConsole state portToUse env r) =
  Dispatch (SET_IS_LOADING true) :: Dispatch (SET_ERROR None) :: events s ++ events y.
Proof.
  cbv zeta. unfold startConsole, bind. cbn -[disconnect startConsoleProper].
  destruct (isConnected state); cbn -[disconnect startConsoleProper].
  - pose proof (disconnect_returns (startDisconnect env) r) as Ho.
    destruct (disconnect (startDisconnect env) r) as [o r1 evs1]. simpl in Ho. subst o.
    cbn -[startConsoleProper].
    destruct (startConsoleProper state portToUse env r1); reflexivity.
  - destruct (startConsoleProper state portToUse env r); reflexivity.
Qed.

Lemma disconnect_then_delay_events (env : DisconnectEnv) (r : Refs) :
  events ((disconnect env ;; delay 2000) r) = events (disconnect env r) ++ [Delay 2000].
Proof.
  pose proof (disconnect_returns env r) as Ho.
  unfold bind. destruct (disconnect env r) as [o r1 evs1]. simpl in Ho. subst o.
  reflexivity.
Qed.

Lemma startConsoleProper_keeps_connected_off (state : ESPLoaderState)
    (portToUse : option SerialPort) (env : StartConsoleEnv) :
  emitsOnly (fun e => turnsOnConnected e = false)
    (startConsoleProper state portToUse env).
Proof.
  unfold startConsoleProper, startConsoleAttempt, startConsoleFailed, recoverFromLock.
  emits; reflexivity.
Qed.

Lemma readWhile_lowering (reader : Reader) (reads : list ReadResult) :
  emitsOnly (fun e => turnsOnConnected e = false /\ turnsOnConsoleConnected e = false)
    (readWhile reader reads).
Proof.
  induction reads as [|result reads IH]; simpl; emits;
    try (split; reflexivity); exact IH.
Qed.

Lemma consoleReadLoop_lowering (reader : Reader) (env : ReadLoopEnv) :
  emitsOnly (fun e => turnsOnConnected e = false /\ turnsOnConsoleConnected e = false)
    (consoleReadLoop reader env).
Proof.
  unfold consoleReadLoop, readLoopFinally.
  emits; try (split; reflexivity). apply readWhile_lowering.
Qed.

Lemma reportAll_lowering (files : list FlashFile) (reports : list ProgressReport) :
  emitsOnly (fun e => turnsOnConnected e = false /\ turnsOnConsoleConnected e = false)
    (reportAll files reports).
Proof.
  induction reports as [|p reports IH]; simpl; emits.
  - unfold reportProgress. emits. split; reflexivity.
  - exact IH.
Qed.

Lemma program_lowering (state : ESPLoaderState) (files : list ESPFile)
    (options : FlashOverrides) (env : ProgramEnv) :
  emitsOnly (fun e => turnsOnConnected e = false /\ turnsOnConsoleConnected e = false)
    (program state files options env).
Proof.
  unfold program. emits; try (split; reflexivity). apply reportAll_lowering.
Qed.

Lemma eraseFlash_lowering (state : ESPLoaderState) (eraseResult : option JsError) :
  emitsOnly (fun e => turnsOnConnected e = false /\ turnsOnConsoleConnected e = false)
    (eraseFlash state eraseResult).
Proof. unfold eraseFlash. emits; split; reflexivity. Qed.

(** ** Mutual exclusion of the two modes *)

Lemma events_then_ret {A} (m : M A) (r : Refs) :
  events ((m ;; ret tt) r) = events (m r).
Proof.
  unfold bind. destruct (m r) as [[a|e] r1 evs1]; simpl; [apply app_nil_r | reflexivity].
Qed.

Lemma console_off_exclusive (states : list ESPLoaderState) :
  Forall (fun s => isConsoleConnected s = false) states ->
  Forall mutuallyExclusive states.
Proof.
  apply Forall_impl. intros s H. unfold mutuallyExclusive. rewrite H.
  apply andb_false_r.
Qed.

Lemma connected_off_exclusive (states : list ESPLoaderState) :
  Forall (fun s => isConnected s = false) states ->
  Forall mutuallyExclusive states.
Proof.
  apply Forall_impl. intros s H. unfold mutuallyExclusive. rewrite H. reflexivity.
Qed.

(** A trace made of a part that turns no flag on and ends with the console
    flag off, followed by a part that never turns the console flag on. *)
Lemma switch_to_program (state : ESPLoaderState) (evs1 evs2 : list Event) :
  mutuallyExclusive state ->
  Forall (fun e => turnsOnConnected e = false /\ turnsOnConsoleConnected e = false) evs1 ->
  isConsoleConnected (replay state evs1) = false ->
  Forall (fun e => turnsOnConsoleConnected e = false) evs2 ->
  Forall mutuallyExclusive (snapshots state (evs1 ++ evs2)) /\
  mutuallyExclusive (replay state (evs1 ++ evs2)).
Proof.
  intros H0 H1 Hoff H2.
  destruct (exclusive_stays evs1 state H1 H0) as [Ha _].
  destruct (console_stays_off evs2 (replay state evs1) H2 Hoff) as [Hb Hc].
  rewrite snapshots_app, replay_app. split.
  - apply Forall_app. split; [exact Ha | now apply console_off_exclusive].
  - unfold mutuallyExclusive. rewrite Hc. apply andb_false_r.
Qed.

Lemma switch_to_console (state : ESPLoaderState) (evs1 evs2 : list Event) :
  mutuallyExclusive state ->
  Forall (fun e => turnsOnConnected e = false /\ turnsOnConsoleConnected e = false) evs1 ->
  isConnected (replay state evs1) = false ->
  Forall (fun e => turnsOnConnected e = false) evs2 ->
  Forall mutuallyExclusive (snapshots state (evs1 ++ evs2)) /\
  mutuallyExclusive (replay state (evs1 ++ evs2)).
Proof.
  intros H0 H1 Hoff H2.
  destruct (exclusive_stays evs1 state H1 H0) as [Ha _].
  destruct (connected_stays_off evs2 (replay state evs1) H2 Hoff) as [Hb Hc].
  rewrite snapshots_app, replay_app. split.
  - apply Forall_app. split; [exact Ha | now apply connected_off_exclusive].
  - unfold mutuallyExclusive. rewrite Hc. reflexivity.
Qed.

Lemma connect_exclusive (captured state : ESPLoaderState) (rom : Z)
    (portToUse : option SerialPort) (env : ConnectEnv) (r : Refs) :
  isConsoleConnected captured = isConsoleConnected state ->
  mutuallyExclusive state ->
  Forall mutuallyExclusive (snapshots state (events (connect captured rom portToUse env r))) /\
  mutuallyExclusive (replay state (events (connect captured rom portToUse env r))).
Proof.
  intros Hfresh H0.
  destruct (connect_run captured rom portToUse env r) as (_ & _ & Hev).
  rewrite Hev. clear Hev.
  set (s := when (isConsoleConnected captured) (stopConsole (connectStop env)) r).
  change (Dispatch (SET_IS_LOADING true) :: Dispatch (SET_ERROR None)
          :: events s ++ events (connectProtected captured rom portToUse env (refsAfter s)))
    with (([Dispatch (SET_IS_LOADING true); Dispatch (SET_ERROR None)] ++ events s)
          ++ events (connectProtected captured rom portToUse env (refsAfter s))).
  apply switch_to_program.
  - exact H0.
  - apply Forall_app. split; [repeat constructor|].
    subst s. destruct (isConsoleConnected captured); simpl.
    + apply stopConsole_lowering.
    + constructor.
  - rewrite replay_app. subst s.
    destruct (isConsoleConnected captured) eqn:Hk; simpl.
    + apply stopConsole_ends_off.
    + symmetry. exact Hfresh.
  - apply connectProtected_keeps_console_off.
Qed.

Lemma startConsole_exclusive (captured state : ESPLoaderState)
    (portToUse : option SerialPort) (env : StartConsoleEnv) (r : Refs) :
  isConnected captured = isConnected state ->
  mutuallyExclusive state ->
  Forall mutuallyExclusive
    (snapshots state (events (startConsole captured portToUse env r))) /\
  mutuallyExclusive (replay state (events (startConsole captured portToUse env r))).
Proof.
  intros Hfresh H0.
  rewrite startConsole_run.
  set (s := when (isConnected captured) (disconnect (startDisconnect env) ;; delay 2000) r).
  set (y := startConsoleProper _ _ _ _).
  change (Dispatch (SET_IS_LOADING true) :: Dispatch (SET_ERROR None)
          :: events s ++ events y)
    with (([Dispatch (SET_IS_LOADING true); Dispatch (SET_ERROR None)] ++ events s)
          ++ events y).
  apply switch_to_console.
  - exact H0.
  - apply Forall_app. split; [repeat constructor|].
    subst s. destruct (isConnected captured); simpl.
    + rewrite disconnect_then_delay_events. apply Forall_app. split.
      * apply disconnect_lowering.
      * repeat constructor.
    + constructor.
  - rewrite replay_app. subst s.
    destruct (isConnected captured) eqn:Hc; simpl.
    + rewrite disconnect_then_delay_events, replay_app. simpl.
      apply disconnect_ends_off.
    + symmetry. exact Hfresh.
  - subst y. apply startConsoleProper_keeps_connected_off.
Qed.

Lemma setDebugLogging_lowering (state : ESPLoaderState) (effect : EffectCapture)
    (enabled : bool) (env : CleanupEnv) :
  emitsOnly (fun e => turnsOnConnected e = false /\ turnsOnConsoleConnected e = false)
    (dispatch (SET_DEBUG_LOGGING enabled) ;;
     when (negb (Bool.eqb enabled (debugLogging state))) (providerCleanup effect env)).
Proof. unfold providerCleanup. emits; split; reflexivity. Qed.

Lemma invoke_exclusive (props : ProviderProps) (state : ESPLoaderState)
    (effect : EffectCapture) (i : Invocation) (r : Refs) :
  latestRender state i ->
  mutuallyExclusive state ->
  Forall mutuallyExclusive (snapshots state (events (invoke props state effect i r))) /\
  mutuallyExclusive (replay state (events (invoke props state effect i r))).
Proof.
  intros Hfresh H0.
  destruct i as [captured portToUse env|captured portToUse env|env|env
                |captured files options env|captured eraseResult|reader env
                |enabled env];
    cbn [invoke latestRender] in *.
  - rewrite events_then_ret. apply connect_exclusive; [apply Hfresh | exact H0].
  - apply startConsole_exclusive; [apply Hfresh | exact H0].
  - apply exclusive_stays; [apply disconnect_lowering | exact H0].
  - apply exclusive_stays; [apply stopConsole_lowering | exact H0].
  - apply exclusive_stays; [apply program_lowering | exact H0].
  - apply exclusive_stays; [apply eraseFlash_lowering | exact H0].
  - apply exclusive_stays; [apply consoleReadLoop_lowering | exact H0].
  - apply exclusive_stays; [apply setDebugLogging_lowering | exact H0].
Qed.

(** C1 (what the code does instead).  The consumer awaits connect and then
    startConsole in one handler, so both calls go through the callbacks of
    the first render; the user picks one port for program mode and another
    for the console, and every call of a collaborator succeeds.  The connect
    succeeds.  startConsole then reads the isConnected its closure captured,
    false, and skips the disconnect of program mode: no call of the sequence
    disconnects the program transport, after the second call the program and
    the console cells both hold a transport, and the session ends with
    isConnected and isConsoleConnected both true.  In the other order it is
    connect that reads a stale isConsoleConnected and skips stopConsole: the
    reader of the console is not cancelled, and again both flags end
    true. *)
Theorem stale_closure_leaves_both_modes_on :
  let first := providerInitialState plainProps in
  let connectCall := InvokeConnect first None (connectWith (fun _ => None)) in
  let consoleCall := InvokeStartConsole first None startOnSecondPort in
  let run := session plainProps first (mountedEffect plainProps) initialRefs in
  latestRender first connectCall /\ latestRender first consoleCall /\
  isConnected (replay first (run [connectCall; consoleCall])) = true /\
  isConsoleConnected (replay first (run [connectCall; consoleCall])) = true /\
  ~ Forall mutuallyExclusive (snapshots first (run [connectCall; consoleCall])) /\
  (forall t, ~ In (Call (TransportDisconnect t)) (run [connectCall; consoleCall])) /\
  map (fun sr => (programTransport (snd sr), consoleTransport (snd sr)))
    (boundaries plainProps first (mountedEffect plainProps) initialRefs
       [connectCall; consoleCall]) =
  [(Some {| device := examplePort; tracing := false |}, None);
   (Some {| device := examplePort; tracing := false |},
    Some {| device := secondPort; tracing := false |})] /\
  isConnected (replay first (run [consoleCall; connectCall])) = true /\
  isConsoleConnected (replay first (run [consoleCall; connectCall])) = true /\
  (forall reader, ~ In (Call (ReaderCancel reader)) (run [consoleCall; connectCall])).
Proof.
  cbv zeta. split; [repeat split|]. split; [repeat split|].
  split; [reflexivity|]. split; [reflexivity|].
  split; [|split; [|split; [reflexivity|split; [reflexivity|split; [reflexivity|]]]]].
  - intros H. apply Forall_forall with (x := replay (providerInitialState plainProps)
        (session plainProps (providerInitialState plainProps) (mountedEffect plainProps)
           initialRefs
           [InvokeConnect (providerInitialState plainProps) None
              (connectWith (fun _ => None));
            InvokeStartConsole (providerInitialState plainProps) None
              startOnSecondPort])) in H.
    + discriminate H.
    + vm_compute. tauto.
  - intros t H. vm_compute in H.
    repeat (destruct H as [H|H]; [discriminate H|]). exact H.
  - intros reader H. vm_compute in H.
    repeat (destruct H as [H|H]; [discriminate H|]). exact H.
Qed.
(** ** stopConsole, twice *)


(** ** What the operations throw *)

Section ThrowsOnly.

Variable Q : JsError -> Prop.

Lemma throwsOnly_ret {A} (a : A) : throwsOnly Q (ret a).
Proof. intros r e H. discriminate H. Qed.

Lemma throwsOnly_throw {A} (e : JsError) : Q e -> throwsOnly Q (@throw A e).
Proof. intros HQ r e' H. inversion H. subst. exact HQ. Qed.

Lemma throwsOnly_current : throwsOnly Q current.
Proof. intros r e H. discriminate H. Qed.

Lemma throwsOnly_assign (f : Refs -> Refs) : throwsOnly Q (assign f).
Proof. intros r e H. discriminate H. Qed.

Lemma throwsOnly_emit (ev : Event) : throwsOnly Q (emit ev).
Proof. intros r e H. discriminate H. Qed.

Lemma throwsOnly_bind {A B} (m : M A) (k : A -> M B) :
  throwsOnly Q m -> (forall a, throwsOnly Q (k a)) -> throwsOnly Q (bind m k).
Proof.
  intros Hm Hk r e. unfold bind. specialize (Hm r).
  destruct (m r) as [[a|e1] r1 evs1]; simpl in *.
  - specialize (Hk a r1). destruct (k a r1) as [o r2 evs2]; simpl in *. apply Hk.
  - intros H. inversion H. subst. apply Hm. reflexivity.
Qed.

Lemma throwsOnly_tryCatch {A} (body : M A) (handler : JsError -> M A) :
  (forall e, throwsOnly Q (handler e)) -> throwsOnly Q (tryCatch body handler).
Proof.
  intros Hh r e. unfold tryCatch.
  destruct (body r) as [[a|e1] r1 evs1]; simpl; [discriminate|].
  specialize (Hh e1 r1). destruct (handler e1 r1) as [o r2 evs2]; simpl in *.
  intros H. apply Hh. exact H.
Qed.

Lemma throwsOnly_tryFinally {A} (body : M A) (finalizer : M unit) :
  throwsOnly Q body -> throwsOnly Q finalizer -> throwsOnly Q (tryFinally body finalizer).
Proof.
  intros Hb Hf r e. unfold tryFinally. specialize (Hb r).
  destruct (body r) as [o1 r1 evs1]; simpl in *.
  specialize (Hf r1). destruct (finalizer r1) as [[[]|e2] r2 evs2]; simpl in *.
  - apply Hb.
  - intros H. inversion H. subst. apply Hf. reflexivity.
Qed.

Lemma throwsOnly_ignoreErrors (body : M unit) : throwsOnly Q (ignoreErrors body).
Proof. apply throwsOnly_tryCatch. intros e. apply throwsOnly_ret. Qed.


Lemma throwsOnly_awaitValue {A} (c : ExternalCall) (answer : Outcome A) :
  (forall e, answer = Thrown e -> Q e) -> throwsOnly Q (awaitValue c answer).
Proof.
  intros H. unfold awaitValue. apply throwsOnly_bind; [apply throwsOnly_emit|].
  intros _. destruct answer as [a|e]; [apply throwsOnly_ret | apply throwsOnly_throw; auto].
Qed.

Lemma throwsOnly_whenSome {A} (x : option A) (k : A -> M unit) :
  (forall a, throwsOnly Q (k a)) -> throwsOnly Q (whenSome x k).
Proof. intros H. destruct x; simpl; [apply H | apply throwsOnly_ret]. Qed.

Lemma throwsOnly_when (b : bool) (k : M unit) :
  throwsOnly Q k -> throwsOnly Q (when b k).
Proof. intros H. destruct b; simpl; [exact H | apply throwsOnly_ret]. Qed.

End ThrowsOnly.

(** One step of the decomposition of [throwsOnly Q m] along the shape of [m]. *)
Ltac throws_step :=
  match goal with
  | |- forall _, _ => intro
  | |- throwsOnly _ (bind _ _) => apply throwsOnly_bind
  | |- throwsOnly _ (ret _) => apply throwsOnly_ret
  | |- throwsOnly _ current => apply throwsOnly_current
  | |- throwsOnly _ (assign _) => apply throwsOnly_assign
  | |- throwsOnly _ (dispatch _) => apply throwsOnly_emit
  | |- throwsOnly _ (delay _) => apply throwsOnly_emit
  | |- throwsOnly _ (emit _) => apply throwsOnly_emit
  | |- throwsOnly _ (tryCatch _ _) => apply throwsOnly_tryCatch
  | |- throwsOnly _ (tryFinally _ _) => apply throwsOnly_tryFinally
  | |- throwsOnly _ (ignoreErrors _) => apply throwsOnly_ignoreErrors
  | |- throwsOnly _ (whenSome _ _) => apply throwsOnly_whenSome
  | |- throwsOnly _ (when _ _) => apply throwsOnly_when
  | |- throwsOnly _ (match ?x with _ => _ end) => destruct x
  | |- throwsOnly _ (let _ := _ in _) => cbv zeta
  end.

Ltac throws := repeat throws_step.





Lemma readWhile_throws_nothing (reader : Reader) (reads : list ReadResult) :
  throwsOnly (fun _ => False) (readWhile reader reads).
Proof. induction reads as [|result reads IH]; simpl; throws; exact IH. Qed.

(** ** Invariants along a trace *)

(** A property of the state that the actions of a trace preserve holds in
    every state of the trace. *)
Lemma replay_invariant (I : ESPLoaderState -> Prop) (P : Event -> Prop) :
  (forall s a, P (Dispatch a) -> I s -> I (esploaderReducer s a)) ->
  forall (evs : list Event) (state : ESPLoaderState),
    Forall P evs -> I state ->
    Forall I (snapshots state evs) /\ I (replay state evs).
Proof.
  intros Hstep evs state H. revert state.
  induction H as [|e evs He _ IH]; intros state H0.
  - split; [constructor | exact H0].
  - destruct e as [action| | |]; simpl; try (apply IH; exact H0).
    pose proof (Hstep state action He H0) as H1.
    destruct (IH _ H1) as [IH1 IH2]. split; [constructor; assumption | exact IH2].
Qed.

Lemma configuration_step (s : ESPLoaderState) (a : Action) (c : Z * Z * DataBits * StopBits * Parity * bool) :
  keepsConfiguration (Dispatch a) -> configuration s = c ->
  configuration (esploaderReducer s a) = c.
Proof. destruct a; simpl; intros H H0; try exact H0; discriminate. Qed.

Lemma flagsOff_step (s : ESPLoaderState) (a : Action) :
  raisesNoFlag (Dispatch a) -> flagsOff s -> flagsOff (esploaderReducer s a).
Proof.
  unfold flagsOff.
  destruct a as [| | |[]|[]|[]|[]|[]| | | | | | | | | | | | |]; simpl;
    intros H [H1 [H2 H3]]; try discriminate; repeat split; assumption.
Qed.

Lemma idle_step (s : ESPLoaderState) (a : Action) :
  calm (Dispatch a) -> idle s -> idle (esploaderReducer s a).
Proof.
  unfold idle.
  destruct a as [| | |[]|[]|[]|[]|[]| | | | | |[p|]| | | | | | |]; simpl;
    intros H [H1 [H2 [H3 H4]]]; try discriminate; try contradiction;
    repeat split; assumption.
Qed.

Lemma calm_raisesNoFlag (e : Event) : calm e -> raisesNoFlag e.
Proof. destruct e as [[| | | | | | | | | | | | |[p|]| | | | | | |]| | |]; simpl; auto; contradiction. Qed.

(** ** What the operations dispatch *)

Lemma readWhile_emits (P : Event -> Prop) (reader : Reader) (reads : list ReadResult) :
  (forall c, P (Call c)) ->
  (forall text, P (Dispatch (APPEND_TERMINAL_OUTPUT text))) ->
  (forall e, P (Dispatch (SET_ERROR e))) ->
  emitsOnly P (readWhile reader reads).
Proof.
  intros HC HA HE. induction reads as [|result reads IH]; simpl; emits; auto.
Qed.

Lemma reportAll_emits (P : Event -> Prop) (files : list FlashFile)
    (reports : list ProgressReport) :
  (forall p, P (Dispatch (SET_FLASH_PROGRESS (Some p)))) ->
  emitsOnly P (reportAll files reports).
Proof.
  intros HP. induction reports as [|p reports IH]; simpl; emits.
  - unfold reportProgress. emits. apply HP.
  - exact IH.
Qed.

Ltac emits_all :=
  unfold connect, connectProtected, connectAttempt, connectFailed, handshake,
    startConsole, startConsoleProper, startConsoleAttempt, startConsoleFailed,
    recoverFromLock, disconnect, disconnectFinally, stopConsole, program, eraseFlash,
    consoleReadLoop, readLoopFinally;
  emits;
  try (apply retryLoop_emits; intros);
  try (apply readWhile_emits; intros);
  try (apply reportAll_emits; intros);
  simpl; auto.

Lemma invoke_keeps_port_settings (props : ProviderProps) (state : ESPLoaderState)
    (effect : EffectCapture) (i : Invocation) :
  emitsOnly keepsPortSettings (invoke props state effect i).
Proof. destruct i; unfold invoke, providerCleanup; emits_all. Qed.

Lemma invoke_keeps_configuration (props : ProviderProps) (state : ESPLoaderState)
    (effect : EffectCapture) (debug : bool) (i : Invocation) :
  keepsLogger debug i ->
  emitsOnly (keepsConfigurationAt debug) (invoke props state effect i).
Proof.
  intros Hi. destruct i; unfold invoke, providerCleanup; emits_all.
Qed.

Lemma session_emits (P : Event -> Prop) (Q : Invocation -> Prop) (props : ProviderProps) :
  (forall state effect i, Q i -> emitsOnly P (invoke props state effect i)) ->
  forall calls state effect r,
    Forall Q calls -> Forall P (session props state effect r calls).
Proof.
  intros H calls. induction calls as [|i calls IH]; intros state effect r HQ;
    cbn [session].
  - constructor.
  - inversion HQ as [|i' calls' Hi Hrest]; subst.
    apply Forall_app. split; [apply H; exact Hi | apply IH; exact Hrest].
Qed.

Lemma Forall_trivial {A} (l : list A) : Forall (fun _ => True) l.
Proof. induction l; constructor; auto. Qed.

Lemma portSettings_step (s : ESPLoaderState) (a : Action)
    (c : Z * Z * DataBits * StopBits * Parity) :
  keepsPortSettings (Dispatch a) -> portSettings s = c ->
  portSettings (esploaderReducer s a) = c.
Proof. destruct a; simpl; intros H H0; try exact H0; contradiction. Qed.

Lemma configurationAt_step (debug : bool) (s : ESPLoaderState) (a : Action)
    (c : Z * Z * DataBits * StopBits * Parity) :
  keepsConfigurationAt debug (Dispatch a) -> configuration s = (c, debug) ->
  configuration (esploaderReducer s a) = (c, debug).
Proof.
  destruct a; simpl; intros H H0; try exact H0; try discriminate H.
  subst payload. unfold configuration in *. simpl.
  injection H0 as H1 H2. subst. reflexivity.
Qed.

(** X7. Configuration frame.  No operation changes a configuration field.  In
    every state of every sequence of invocations of connect, startConsole,
    disconnect, stopConsole, program, eraseFlash and setDebugLogging, with
    runs of the read loop in between - whatever state the closures captured
    and whatever the collaborators answer - the two baud rates and the three
    console framing settings are what they were at the start; when every
    setDebugLogging of the sequence is called with the value the debug switch
    has at the start, in particular when there is none, the debug switch is
    what it was as well.  The terminal sink leaves all six alone.  Only the
    six setters change them. *)
Theorem operations_keep_configuration :
  forall (props : ProviderProps) (calls : list Invocation) (state : ESPLoaderState)
         (effect : EffectCapture) (r : Refs) (written : list TerminalCall),
    Forall (fun s => portSettings s = portSettings state)
      (snapshots state (session props state effect r calls)) /\
    (Forall (keepsLogger (debugLogging state)) calls ->
     Forall (fun s => configuration s = configuration state)
       (snapshots state (session props state effect r calls))) /\
    Forall (fun s => configuration s = configuration state)
      (snapshots state (terminalTrace written)).
Proof.
  intros props calls state effect r written. split; [|split].
  - apply (replay_invariant (fun s => portSettings s = portSettings state)
             keepsPortSettings).
    + intros s a. apply portSettings_step.
    + apply (session_emits keepsPortSettings (fun _ => True)).
      * intros s e i _. apply invoke_keeps_port_settings.
      * apply Forall_trivial.
    + reflexivity.
  - intros Hcalls.
    apply (replay_invariant (fun s => configuration s = configuration state)
             (keepsConfigurationAt (debugLogging state))).
    + intros s a. apply configurationAt_step.
    + apply (session_emits _ (keepsLogger (debugLogging state))); [|exact Hcalls].
      intros s e i. apply invoke_keeps_configuration.
    + reflexivity.
  - apply (replay_invariant (fun s => configuration s = configuration state)
             keepsConfiguration).
    + intros s a. apply configuration_step.
    + unfold terminalTrace. induction written as [|c written IH]; simpl.
      * constructor.
      * apply Forall_app. split; [|exact IH]. destruct c; repeat constructor.
    + reflexivity.
Qed.

(** ** The busy indicators *)

Lemma flags_stay_off (evs : list Event) (state : ESPLoaderState) :
  Forall raisesNoFlag evs -> flagsOff state ->
  Forall flagsOff (snapshots state evs) /\ flagsOff (replay state evs).
Proof. apply (replay_invariant flagsOff raisesNoFlag). exact flagsOff_step. Qed.

Lemma idle_stays (evs : list Event) (state : ESPLoaderState) :
  Forall calm evs -> idle state -> idle (replay state evs).
Proof. intros H H0. apply (replay_invariant idle calm idle_step evs state H H0). Qed.

Lemma stopConsole_calm (env : StopConsoleEnv) : emitsOnly calm (stopConsole env).
Proof. emits_all. Qed.

Lemma connectProtected_calm (state : ESPLoaderState) (rom : Z)
    (portToUse : option SerialPort) (env : ConnectEnv) :
  emitsOnly calm (connectProtected state rom portToUse env).
Proof. emits_all. Qed.

Lemma startConsoleProper_calm (state : ESPLoaderState) (portToUse : option SerialPort)
    (env : StartConsoleEnv) :
  emitsOnly calm (startConsoleProper state portToUse env).
Proof. emits_all. Qed.

Lemma consoleReadLoop_calm (reader : Reader) (env : ReadLoopEnv) :
  emitsOnly calm (consoleReadLoop reader env).
Proof. emits_all. Qed.

Lemma disconnect_ends_idle (env : DisconnectEnv) (r : Refs) (state : ESPLoaderState) :
  flashProgress state = None -> idle (replay state (events (disconnect env r))).
Proof.
  intros H. unfold idle.
  destruct env as [dt rd cl]; destruct r as [pd pt ei cd ct cr k ip].
  destruct pt, dt, pd, rd, cl; simpl; repeat split; assumption.
Qed.

(** The trace of [program] past its guard: the two opening dispatches, a
    body that turns no flag on, and the two dispatches of [finally]. *)
Lemma program_events (state : ESPLoaderState) (files : list ESPFile)
    (options : FlashOverrides) (env : ProgramEnv) (r : Refs) :
  isNull (esploaderInstance r) || negb (isConnected state) = false ->
  exists body,
    events (program state files options env r) =
    Dispatch (SET_IS_FLASHING true) :: Dispatch (SET_ERROR None) :: body ++
    [Dispatch (SET_IS_FLASHING false); Dispatch (SET_FLASH_PROGRESS None)] /\
    Forall raisesNoFlag body.
Proof.
  intros Hg. unfold program. unfold bind at 1. cbn [current outcome refsAfter events].
  rewrite Hg. unfold bind at 1. cbn [dispatch emit outcome refsAfter events].
  unfold bind at 1. cbn [dispatch emit outcome refsAfter events].
  unfold tryFinally.
  match goal with
  | |- context [match tryCatch ?b ?h r with _ => _ end] =>
      assert (Hb : emitsOnly raisesNoFlag (tryCatch b h))
        by (emits; simpl; auto; apply reportAll_emits; reflexivity);
      specialize (Hb r);
      destruct (tryCatch b h r) as [o r1 evs1]
  end.
  exists evs1. split; [reflexivity | exact Hb].
Qed.

Lemma eraseFlash_events (state : ESPLoaderState) (eraseResult : option JsError) (r : Refs) :
  isNull (esploaderInstance r) || negb (isConnected state) = false ->
  exists body,
    events (eraseFlash state eraseResult r) =
    Dispatch (SET_IS_ERASING true) :: Dispatch (SET_ERROR None) :: body ++
    [Dispatch (SET_IS_ERASING false)] /\
    Forall calm body.
Proof.
  intros Hg. unfold eraseFlash. unfold bind at 1. cbn [current outcome refsAfter events].
  rewrite Hg. unfold bind at 1. cbn [dispatch emit outcome refsAfter events].
  unfold bind at 1. cbn [dispatch emit outcome refsAfter events].
  unfold tryFinally.
  match goal with
  | |- context [match tryCatch ?b ?h r with _ => _ end] =>
      assert (Hb : emitsOnly calm (tryCatch b h))
        by (emits; simpl; auto);
      specialize (Hb r);
      destruct (tryCatch b h r) as [o r1 evs1]
  end.
  exists evs1. split; [reflexivity | exact Hb].
Qed.

Lemma guard_events_program (state : ESPLoaderState) (files : list ESPFile)
    (options : FlashOverrides) (env : ProgramEnv) (r : Refs) :
  isNull (esploaderInstance r) || negb (isConnected state) = true ->
  events (program state files options env r) =
  [Dispatch (SET_ERROR (Some (ErrString notConnectedMessage)))].
Proof.
  intros Hg. unfold program. unfold bind at 1. cbn [current outcome refsAfter events].
  rewrite Hg. reflexivity.
Qed.

Lemma guard_events_eraseFlash (state : ESPLoaderState) (eraseResult : option JsError)
    (r : Refs) :
  isNull (esploaderInstance r) || negb (isConnected state) = true ->
  events (eraseFlash state eraseResult r) =
  [Dispatch (SET_ERROR (Some (ErrString notConnectedMessage)))].
Proof.
  intros Hg. unfold eraseFlash. unfold bind at 1. cbn [current outcome refsAfter events].
  rewrite Hg. reflexivity.
Qed.

Lemma flagsOff_after_clear (state : ESPLoaderState) (a : Action) :
  flagsOff (esploaderReducer (esploaderReducer state a) (SET_ERROR None)).
Proof. repeat split. Qed.

Lemma flag_off_of_flagsOff (states : list ESPLoaderState) :
  Forall flagsOff states ->
  Forall (fun s => isLoading s = false) states /\
  Forall (fun s => isFlashing s = false) states /\
  Forall (fun s => isErasing s = false) states.
Proof.
  intros H. repeat split; revert H; apply Forall_impl; intros s [H1 [H2 H3]]; assumption.
Qed.

(** X5. The busy indicators are reset at once.  connect and startConsole set
    isLoading, program sets isFlashing and eraseFlash sets isErasing, and
    each then dispatches SET_ERROR null, whose reducer case turns the three
    flags off: of the states the operation goes through, only the first has
    the flag on; in the next one and in all the later ones, so during the
    handshake, the write and the erase, the flag is off. *)
Theorem busy_indicator_reset_at_once :
  forall (state : ESPLoaderState) (r : Refs),
    (forall rom portToUse env,
       onOnlyAtFirst isLoading
         (snapshots state (events (connect state rom portToUse env r)))) /\
    (forall portToUse env,
       isConnected state = false ->
       onOnlyAtFirst isLoading
         (snapshots state (events (startConsole state portToUse env r)))) /\
    (forall files options env,
       esploaderInstance r <> None -> isConnected state = true ->
       onOnlyAtFirst isFlashing
         (snapshots state (events (program state files options env r)))) /\
    (forall eraseResult,
       esploaderInstance r <> None -> isConnected state = true ->
       onOnlyAtFirst isErasing
         (snapshots state (events (eraseFlash state eraseResult r)))).
Proof.
  intros state r.
  assert (G : esploaderInstance r <> None -> isConnected state = true ->
              isNull (esploaderInstance r) || negb (isConnected state) = false).
  { intros H1 H2. rewrite H2. destruct (esploaderInstance r); [reflexivity | contradiction]. }
  split; [|split; [|split]].
  - intros rom portToUse env.
    destruct (connect_run state rom portToUse env r) as [_ [_ E]]. rewrite E.
    cbn [snapshots onOnlyAtFirst]. split; [reflexivity|]. split; [discriminate|].
    apply flag_off_of_flagsOff. constructor; [apply flagsOff_after_clear|].
    apply flags_stay_off; [|apply flagsOff_after_clear].
    apply Forall_app. split.
    + eapply Forall_impl; [exact calm_raisesNoFlag|].
      destruct (isConsoleConnected state); [apply stopConsole_calm | constructor].
    + eapply Forall_impl; [exact calm_raisesNoFlag|]. apply connectProtected_calm.
  - intros portToUse env Hc. rewrite startConsole_run. cbv zeta. rewrite Hc.
    cbn [when ret events refsAfter app snapshots onOnlyAtFirst].
    split; [reflexivity|]. split; [discriminate|].
    apply flag_off_of_flagsOff. constructor; [apply flagsOff_after_clear|].
    apply flags_stay_off; [|apply flagsOff_after_clear].
    eapply Forall_impl; [exact calm_raisesNoFlag|]. apply startConsoleProper_calm.
  - intros files options env H1 H2.
    destruct (program_events state files options env r (G H1 H2)) as [body [E Hb]].
    rewrite E. cbn [snapshots onOnlyAtFirst].
    split; [reflexivity|]. split; [discriminate|].
    apply flag_off_of_flagsOff. constructor; [apply flagsOff_after_clear|].
    apply flags_stay_off; [|apply flagsOff_after_clear].
    apply Forall_app. split; [exact Hb|]. repeat constructor.
  - intros eraseResult H1 H2.
    destruct (eraseFlash_events state eraseResult r (G H1 H2)) as [body [E Hb]].
    rewrite E. cbn [snapshots onOnlyAtFirst].
    split; [reflexivity|]. split; [discriminate|].
    apply flag_off_of_flagsOff. constructor; [apply flagsOff_after_clear|].
    apply flags_stay_off; [|apply flagsOff_after_clear].
    apply Forall_app. split; [|repeat constructor].
    revert Hb. apply Forall_impl. exact calm_raisesNoFlag.
Qed.

Lemma invoke_ends_idle (props : ProviderProps) (state : ESPLoaderState)
    (effect : EffectCapture) (i : Invocation) (r : Refs) :
  idle state -> idle (replay state (events (invoke props state effect i r))).
Proof.
  intros Hi. pose proof Hi as [H1 [H2 [H3 H4]]].
  assert (I2 : forall a, flashProgress (esploaderReducer state a) = None ->
                         idle (esploaderReducer (esploaderReducer state a) (SET_ERROR None))).
  { intros a Ha. destruct (flagsOff_after_clear state a) as [F1 [F2 F3]].
    repeat split; try assumption. }
  destruct i as [captured portToUse env|captured portToUse env|env|env
                |captured files options env|captured eraseResult|reader env
                |enabled env];
    unfold invoke.
  - rewrite events_then_ret.
    destruct (connect_run captured (romBaudrate props captured) portToUse env r)
      as [_ [_ E]].
    rewrite E. cbn [replay]. rewrite replay_app.
    apply idle_stays; [apply connectProtected_calm|].
    apply idle_stays; [|apply I2; exact H4].
    destruct (isConsoleConnected captured); [apply stopConsole_calm | constructor].
  - rewrite startConsole_run. cbv zeta. cbn [replay]. rewrite replay_app.
    apply idle_stays; [apply startConsoleProper_calm|].
    destruct (isConnected captured); cbn [when]; [|apply I2; exact H4].
    rewrite disconnect_then_delay_events, replay_app. cbn [replay].
    apply disconnect_ends_idle. exact H4.
  - apply disconnect_ends_idle. exact H4.
  - apply idle_stays; [apply stopConsole_calm | exact Hi].
  - destruct (isNull (esploaderInstance r) || negb (isConnected captured)) eqn:Hg.
    + rewrite guard_events_program by exact Hg. simpl. repeat split; assumption.
    + destruct (program_events captured files options env r Hg) as [body [E Hb]].
      rewrite E. cbn [replay]. rewrite replay_app.
      destruct (flags_stay_off body _ Hb (flagsOff_after_clear state (SET_IS_FLASHING true)))
        as [_ [F1 [F2 F3]]].
      simpl. repeat split; assumption.
  - destruct (isNull (esploaderInstance r) || negb (isConnected captured)) eqn:Hg.
    + rewrite guard_events_eraseFlash by exact Hg. simpl. repeat split; assumption.
    + destruct (eraseFlash_events captured eraseResult r Hg) as [body [E Hb]].
      rewrite E.
      cbn [replay]. apply idle_stays; [|apply I2; exact H4].
      apply Forall_app. split; [exact Hb | repeat constructor].
  - apply idle_stays; [apply consoleReadLoop_calm | exact Hi].
  - apply idle_stays; [|exact Hi].
    assert (Hc : emitsOnly calm
                   (dispatch (SET_DEBUG_LOGGING enabled) ;;
                    when (negb (Bool.eqb enabled (debugLogging state)))
                      (providerCleanup effect env))).
    { unfold providerCleanup. emits; first [exact I | reflexivity]. }
    apply Hc.
Qed.

(** ** What the operations do to the cells *)

Section KeepsRefs.

Variable R : Refs -> Refs -> Prop.
Hypothesis R_refl : forall r, R r r.
Hypothesis R_trans : forall r1 r2 r3, R r1 r2 -> R r2 r3 -> R r1 r3.

Lemma keepsRefs_ret {A} (a : A) : keepsRefs R (ret a).
Proof. intros r. apply R_refl. Qed.

Lemma keepsRefs_throw {A} (e : JsError) : keepsRefs R (@throw A e).
Proof. intros r. apply R_refl. Qed.

Lemma keepsRefs_current : keepsRefs R current.
Proof. intros r. apply R_refl. Qed.

Lemma keepsRefs_emit (e : Event) : keepsRefs R (emit e).
Proof. intros r. apply R_refl. Qed.

Lemma keepsRefs_assign (f : Refs -> Refs) :
  (forall r, R r (f r)) -> keepsRefs R (assign f).
Proof. intros H r. apply H. Qed.

Lemma keepsRefs_bind {A B} (m : M A) (k : A -> M B) :
  keepsRefs R m -> (forall a, keepsRefs R (k a)) -> keepsRefs R (bind m k).
Proof.
  intros Hm Hk r. unfold bind. specialize (Hm r).
  destruct (m r) as [[a|e] r1 evs1]; simpl in *; [|exact Hm].
  specialize (Hk a r1). destruct (k a r1) as [o r2 evs2]; simpl in *.
  eapply R_trans; eassumption.
Qed.

Lemma keepsRefs_tryCatch {A} (body : M A) (handler : JsError -> M A) :
  keepsRefs R body -> (forall e, keepsRefs R (handler e)) ->
  keepsRefs R (tryCatch body handler).
Proof.
  intros Hb Hh r. unfold tryCatch. specialize (Hb r).
  destruct (body r) as [[a|e] r1 evs1]; simpl in *; [exact Hb|].
  specialize (Hh e r1). destruct (handler e r1) as [o r2 evs2]; simpl in *.
  eapply R_trans; eassumption.
Qed.

Lemma keepsRefs_tryFinally {A} (body : M A) (finalizer : M unit) :
  keepsRefs R body -> keepsRefs R finalizer -> keepsRefs R (tryFinally body finalizer).
Proof.
  intros Hb Hf r. unfold tryFinally. specialize (Hb r).
  destruct (body r) as [o1 r1 evs1]; simpl in *.
  specialize (Hf r1). destruct (finalizer r1) as [[[]|e] r2 evs2]; simpl in *;
    eapply R_trans; eassumption.
Qed.

Lemma keepsRefs_await (c : ExternalCall) (answer : option JsError) :
  keepsRefs R (await c answer).
Proof. intros r. unfold await, bind. destruct answer; apply R_refl. Qed.

Lemma keepsRefs_awaitValue {A} (c : ExternalCall) (answer : Outcome A) :
  keepsRefs R (awaitValue c answer).
Proof. intros r. unfold awaitValue, bind. destruct answer; apply R_refl. Qed.

Lemma keepsRefs_ignoreErrors (body : M unit) :
  keepsRefs R body -> keepsRefs R (ignoreErrors body).
Proof.
  intros H. unfold ignoreErrors. apply keepsRefs_tryCatch; [exact H|].
  intros _. apply keepsRefs_ret.
Qed.

Lemma keepsRefs_whenSome {A} (x : option A) (k : A -> M unit) :
  (forall a, keepsRefs R (k a)) -> keepsRefs R (whenSome x k).
Proof. intros H. destruct x; simpl; [apply H | apply keepsRefs_ret]. Qed.

Lemma keepsRefs_when (b : bool) (k : M unit) :
  keepsRefs R k -> keepsRefs R (when b k).
Proof. intros H. destruct b; simpl; [exact H | apply keepsRefs_ret]. Qed.

End KeepsRefs.

(** One step of the decomposition of [keepsRefs R m] along the shape of
    [m]; what is left are the obligations for the assignments of [m]. *)
Ltac keeps_step Hrefl Htrans :=
  match goal with
  | |- forall _, _ => intro
  | |- keepsRefs _ (bind _ _) => apply (keepsRefs_bind _ Htrans)
  | |- keepsRefs _ (ret _) => apply (keepsRefs_ret _ Hrefl)
  | |- keepsRefs _ (throw _) => apply (keepsRefs_throw _ Hrefl)
  | |- keepsRefs _ current => apply (keepsRefs_current _ Hrefl)
  | |- keepsRefs _ (assign _) => apply keepsRefs_assign
  | |- keepsRefs _ (dispatch _) => apply (keepsRefs_emit _ Hrefl)
  | |- keepsRefs _ (delay _) => apply (keepsRefs_emit _ Hrefl)
  | |- keepsRefs _ (emit _) => apply (keepsRefs_emit _ Hrefl)
  | |- keepsRefs _ (await _ _) => apply (keepsRefs_await _ Hrefl)
  | |- keepsRefs _ (awaitValue _ _) => apply (keepsRefs_awaitValue _ Hrefl)
  | |- keepsRefs _ (tryCatch _ _) => apply (keepsRefs_tryCatch _ Htrans)
  | |- keepsRefs _ (tryFinally _ _) => apply (keepsRefs_tryFinally _ Htrans)
  | |- keepsRefs _ (ignoreErrors _) => apply (keepsRefs_ignoreErrors _ Hrefl Htrans)
  | |- keepsRefs _ (whenSome _ _) => apply (keepsRefs_whenSome _ Hrefl)
  | |- keepsRefs _ (when _ _) => apply (keepsRefs_when _ Hrefl)
  | |- keepsRefs _ (match ?x with _ => _ end) => destruct x
  | |- keepsRefs _ (let _ := _ in _) => cbv zeta
  end.

Ltac keeps Hrefl Htrans := repeat keeps_step Hrefl Htrans.

Lemma sameProgramCells_refl (r : Refs) : sameProgramCells r r.
Proof. repeat split. Qed.

Lemma sameProgramCells_trans (r1 r2 r3 : Refs) :
  sameProgramCells r1 r2 -> sameProgramCells r2 r3 -> sameProgramCells r1 r3.
Proof.
  unfold sameProgramCells. intros [A1 [A2 A3]] [B1 [B2 B3]].
  repeat split; congruence.
Qed.

Lemma eq_trans_refs (r1 r2 r3 : Refs) : r1 = r2 -> r2 = r3 -> r1 = r3.
Proof. congruence. Qed.

Lemma retryLoop_keeps_refs (remaining : nat) :
  forall (attempt : nat) (loader : ESPLoader) (mainResult : nat -> option JsError),
    keepsRefs eq (retryLoop remaining attempt loader mainResult).
Proof.
  induction remaining as [|n IH]; intros attempt loader mainResult; simpl;
    keeps (@eq_refl Refs) eq_trans_refs. apply IH.
Qed.

Lemma readWhile_keeps_refs (reader : Reader) (reads : list ReadResult) :
  keepsRefs eq (readWhile reader reads).
Proof.
  induction reads as [|result reads IH]; simpl;
    keeps (@eq_refl Refs) eq_trans_refs; exact IH.
Qed.

Lemma reportAll_keeps_refs (files : list FlashFile) (reports : list ProgressReport) :
  keepsRefs eq (reportAll files reports).
Proof. intros r. symmetry. apply reportAll_run. Qed.

Lemma keepsRefs_weaken {A} (R R' : Refs -> Refs -> Prop) (m : M A) :
  (forall r r', R r r' -> R' r r') -> keepsRefs R m -> keepsRefs R' m.
Proof. intros H Hm r. apply H, Hm. Qed.

Ltac keeps_program_cells :=
  keeps sameProgramCells_refl sameProgramCells_trans;
  try (repeat split; fail).

Lemma stopConsole_keeps_program_cells (env : StopConsoleEnv) :
  keepsRefs sameProgramCells (stopConsole env).
Proof. unfold stopConsole. keeps_program_cells. Qed.

Lemma consoleReadLoop_keeps_program_cells (reader : Reader) (env : ReadLoopEnv) :
  keepsRefs sameProgramCells (consoleReadLoop reader env).
Proof.
  unfold consoleReadLoop, readLoopFinally. keeps_program_cells.
  apply (keepsRefs_weaken eq); [|apply readWhile_keeps_refs].
  intros r r' <-. apply sameProgramCells_refl.
Qed.

Lemma program_keeps_refs (state : ESPLoaderState) (files : list ESPFile)
    (options : FlashOverrides) (env : ProgramEnv) :
  keepsRefs eq (program state files options env).
Proof.
  unfold program. keeps (@eq_refl Refs) eq_trans_refs. apply reportAll_keeps_refs.
Qed.

Lemma eraseFlash_keeps_refs (state : ESPLoaderState) (eraseResult : option JsError) :
  keepsRefs eq (eraseFlash state eraseResult).
Proof. unfold eraseFlash. keeps (@eq_refl Refs) eq_trans_refs. Qed.

(** ** The program-mode connection and its handles *)

Lemma programFields_step (s : ESPLoaderState) (a : Action)
    (c : bool * option ESPLoader * option Transport * option string) :
  keepsProgramFields (Dispatch a) -> programFields s = c ->
  programFields (esploaderReducer s a) = c.
Proof. destruct a; simpl; intros H H0; try exact H0; contradiction. Qed.

Lemma programFields_stay (evs : list Event) (state : ESPLoaderState) :
  Forall keepsProgramFields evs ->
  programFields (replay state evs) = programFields state.
Proof.
  intros H.
  apply (replay_invariant (fun s => programFields s = programFields state)
           keepsProgramFields); [|exact H|reflexivity].
  intros s a. apply programFields_step.
Qed.

Lemma replay_silent (evs : list Event) (state : ESPLoaderState) :
  Forall silent evs -> replay state evs = state.
Proof.
  intros H. induction H as [|e evs He _ IH]; [reflexivity|].
  destruct e; simpl in *; [contradiction| | |]; exact IH.
Qed.

Lemma frame_coherent (s s' : ESPLoaderState) (r r' : Refs) :
  programFields s' = programFields s -> sameProgramCells r r' ->
  programCoherent (s, r) -> programCoherent (s', r').
Proof.
  unfold programFields, sameProgramCells, programCoherent. simpl.
  intros Hf [H1 [H2 H3]] Hc Hon. inversion Hf as [[F1 F2 F3 F4]].
  rewrite H1, H2, H3, F2, F3, F4. apply Hc. rewrite <- F1. exact Hon.
Qed.

Lemma handshake_run (loader : ESPLoader) (mainResult : nat -> option JsError) (r : Refs) :
  refsAfter (handshake loader mainResult r) = r /\
  Forall silent (events (handshake loader mainResult r)).
Proof.
  split.
  - symmetry. apply retryLoop_keeps_refs.
  - apply retryLoop_emits; intros; exact I.
Qed.

Lemma connectProtected_coherent (state : ESPLoaderState) (rom : Z)
    (portToUse : option SerialPort) (env : ConnectEnv) (r : Refs) (s : ESPLoaderState) :
  programCoherent (s, r) ->
  programCoherent (replay s (events (connectProtected state rom portToUse env r)),
                   refsAfter (connectProtected state rom portToUse env r)).
Proof.
  intros Hc.
  assert (Hh : forall loader r0 s0 rest,
             refsAfter (handshake loader (connectMain env) r0) = r0 /\
             replay s0 (events (handshake loader (connectMain env) r0) ++ rest)
             = replay s0 rest).
  { intros loader r0 s0 rest. destruct (handshake_run loader (connectMain env) r0) as [H1 H2].
    split; [exact H1|]. rewrite replay_app, (replay_silent _ _ H2). reflexivity. }
  unfold connectProtected, connectAttempt, connectFailed, tryFinally, tryCatch, bind.
  destruct r as [pd pt ei cd ct cr k ip].
  cbn -[handshake].
  destruct (connectSerial env); cbn -[handshake].
  { destruct pt, pd, (cleanupDisconnect env), (cleanupReadable env), (cleanupClose env);
      cbn; intros H; discriminate H. }
  destruct portToUse as [port|]; [|destruct (connectRequestPort env) as [[port|]|e]];
    cbn -[handshake].
  1,2: match goal with
       | |- context [handshake ?l ?m ?r0] =>
           specialize (Hh l r0); destruct (handshake l m r0) as [[[]|e] r2 evs]
       end; cbn -[replay programCoherent] in *;
       destruct (Hh s []) as [-> _];
       cbn -[replay programCoherent].
  all: try destruct pt; try destruct pd;
    destruct (cleanupDisconnect env), (cleanupReadable env), (cleanupClose env);
    cbn -[replay programCoherent]; cbn [replay]; rewrite <- ?app_assoc;
    try rewrite (proj2 (Hh _ _));
    unfold programCoherent in *; cbn in *;
    first [ intros H; discriminate H
          | intros _; repeat split; discriminate
          | exact Hc ].
Qed.

Lemma refs_then_ret {A} (m : M A) (r : Refs) :
  refsAfter ((m ;; ret tt) r) = refsAfter (m r).
Proof. unfold bind. destruct (m r) as [[a|e] r1 evs1]; reflexivity. Qed.

Lemma startConsole_ends_program_off (state captured : ESPLoaderState)
    (portToUse : option SerialPort) (env : StartConsoleEnv) (r : Refs) :
  isConnected captured = true ->
  isConnected (replay state (events (startConsole captured portToUse env r))) = false.
Proof.
  intros Hc. rewrite startConsole_run. cbv zeta. rewrite Hc.
  cbn [replay]. rewrite replay_app.
  apply connected_stays_off; [apply startConsoleProper_keeps_connected_off|].
  cbn [when]. rewrite disconnect_then_delay_events, replay_app. apply disconnect_ends_off.
Qed.

Lemma startConsoleProper_keeps_program_fields (state : ESPLoaderState)
    (portToUse : option SerialPort) (env : StartConsoleEnv) :
  emitsOnly keepsProgramFields (startConsoleProper state portToUse env).
Proof. emits_all. Qed.

Lemma startConsoleProper_keeps_program_cells (state : ESPLoaderState)
    (portToUse : option SerialPort) (env : StartConsoleEnv) :
  keepsRefs sameProgramCells (startConsoleProper state portToUse env).
Proof.
  unfold startConsoleProper, startConsoleAttempt, startConsoleFailed, recoverFromLock.
  keeps_program_cells.
Qed.

Lemma stopConsole_keeps_program_fields (env : StopConsoleEnv) :
  emitsOnly keepsProgramFields (stopConsole env).
Proof. emits_all. Qed.

Lemma program_keeps_program_fields (state : ESPLoaderState) (files : list ESPFile)
    (options : FlashOverrides) (env : ProgramEnv) :
  emitsOnly keepsProgramFields (program state files options env).
Proof. emits_all. Qed.

Lemma eraseFlash_keeps_program_fields (state : ESPLoaderState)
    (eraseResult : option JsError) :
  emitsOnly keepsProgramFields (eraseFlash state eraseResult).
Proof. emits_all. Qed.

Lemma consoleReadLoop_keeps_program_fields (reader : Reader) (env : ReadLoopEnv) :
  emitsOnly keepsProgramFields (consoleReadLoop reader env).
Proof. emits_all. Qed.

Lemma invoke_coherent (props : ProviderProps) (state : ESPLoaderState)
    (effect : EffectCapture) (i : Invocation) (r : Refs) :
  keepsLogger (debugLogging state) i ->
  programCoherent (state, r) ->
  programCoherent (replay state (events (invoke props state effect i r)),
                   refsAfter (invoke props state effect i r)).
Proof.
  intros Hlog Hc.
  destruct i as [captured portToUse env|captured portToUse env|env|env
                |captured files options env|captured eraseResult|reader env
                |enabled env];
    unfold invoke.
  - rewrite events_then_ret, refs_then_ret.
    destruct (connect_run captured (romBaudrate props captured) portToUse env r)
      as [_ [Hr E]].
    rewrite E, Hr.
    change (Dispatch (SET_IS_LOADING true) :: Dispatch (SET_ERROR None)
            :: events (when (isConsoleConnected captured) (stopConsole (connectStop env)) r)
               ++ ?y)
      with (([Dispatch (SET_IS_LOADING true); Dispatch (SET_ERROR None)]
             ++ events (when (isConsoleConnected captured)
                          (stopConsole (connectStop env)) r))
            ++ y).
    rewrite replay_app. apply connectProtected_coherent.
    apply (frame_coherent state _ r); [| |exact Hc].
    + apply programFields_stay. apply Forall_app. split; [repeat constructor|].
      destruct (isConsoleConnected captured); [|constructor].
      cbn [when]. apply stopConsole_keeps_program_fields.
    + destruct (isConsoleConnected captured); cbn [when].
      * apply stopConsole_keeps_program_cells.
      * apply sameProgramCells_refl.
  - destruct (isConnected captured) eqn:Hcap.
    + intros H. cbn [fst] in H.
      rewrite (startConsole_ends_program_off state captured) in H by exact Hcap.
      discriminate H.
    + assert (E : startConsole captured portToUse env r =
                  (dispatch (SET_IS_LOADING true) ;;
                   dispatch (SET_ERROR None) ;;
                   startConsoleProper captured portToUse env) r).
      { unfold startConsole. rewrite Hcap. unfold bind, when, ret, dispatch, emit.
        cbn. destruct (startConsoleProper captured portToUse env r). reflexivity. }
      rewrite E. apply (frame_coherent state _ r); [| |exact Hc].
      * apply programFields_stay.
        assert (Hf : emitsOnly keepsProgramFields
                       (dispatch (SET_IS_LOADING true) ;;
                        dispatch (SET_ERROR None) ;;
                        startConsoleProper captured portToUse env)).
        { emits; try exact I. apply startConsoleProper_keeps_program_fields. }
        apply Hf.
      * assert (Hk : keepsRefs sameProgramCells
                       (dispatch (SET_IS_LOADING true) ;;
                        dispatch (SET_ERROR None) ;;
                        startConsoleProper captured portToUse env)).
        { keeps sameProgramCells_refl sameProgramCells_trans.
          apply startConsoleProper_keeps_program_cells. }
        apply Hk.
  - intros H. cbn [fst] in H. rewrite disconnect_ends_off in H. discriminate H.
  - apply (frame_coherent state _ r); [| |exact Hc].
    + apply programFields_stay. apply stopConsole_keeps_program_fields.
    + apply stopConsole_keeps_program_cells.
  - apply (frame_coherent state _ r); [| |exact Hc].
    + apply programFields_stay. apply program_keeps_program_fields.
    + rewrite <- program_keeps_refs. apply sameProgramCells_refl.
  - apply (frame_coherent state _ r); [| |exact Hc].
    + apply programFields_stay. apply eraseFlash_keeps_program_fields.
    + rewrite <- eraseFlash_keeps_refs. apply sameProgramCells_refl.
  - apply (frame_coherent state _ r); [| |exact Hc].
    + apply programFields_stay. apply consoleReadLoop_keeps_program_fields.
    + apply consoleReadLoop_keeps_program_cells.
  - cbn [keepsLogger] in Hlog. subst enabled. rewrite Bool.eqb_reflx.
    cbn. exact Hc.
Qed.

Lemma invoke_keeps_debugLogging (props : ProviderProps) (state : ESPLoaderState)
    (effect : EffectCapture) (i : Invocation) (r : Refs) :
  keepsLogger (debugLogging state) i ->
  debugLogging (replay state (events (invoke props state effect i r)))
  = debugLogging state.
Proof.
  intros Hlog.
  destruct (replay_invariant (fun s => configuration s = configuration state)
              (keepsConfigurationAt (debugLogging state))
              (fun s a => configurationAt_step (debugLogging state) s a _)
              (events (invoke props state effect i r)) state
              (invoke_keeps_configuration props state effect (debugLogging state) i Hlog r)
              eq_refl) as [_ H].
  unfold configuration in H. injection H as _ _ _ _ _ H. exact H.
Qed.

Lemma boundaries_invariant (I : ESPLoaderState * Refs -> Prop)
    (Q : Invocation -> Prop) (props : ProviderProps) :
  (forall state effect r i,
     Q i -> I (state, r) ->
     I (replay state (events (invoke props state effect i r)),
        refsAfter (invoke props state effect i r))) ->
  forall calls state effect r,
    Forall Q calls -> I (state, r) ->
    Forall I (boundaries props state effect r calls).
Proof.
  intros Hstep calls. induction calls as [|i calls IH]; intros state effect r Hc H0;
    cbn [boundaries].
  - constructor.
  - inversion Hc as [|i' calls' Hi Hrest]; subst.
    constructor; [apply Hstep; assumption|].
    apply IH; [exact Hrest | apply Hstep; assumption].
Qed.

(** X6. Every operation cleans up its indicators.  From the provider's initial
    state, after each completed invocation of any sequence of connect,
    startConsole, disconnect, stopConsole, program, eraseFlash and
    setDebugLogging calls and read-loop runs - whatever state the closures
    captured, whatever the collaborators answer, and whether the operation
    succeeded, failed or was refused - isLoading, isFlashing and isErasing
    are false and flashProgress is null. *)
Theorem operations_end_idle :
  forall (props : ProviderProps) (calls : list Invocation),
    Forall (fun sr => idle (fst sr))
      (boundaries props (providerInitialState props) (mountedEffect props)
         initialRefs calls).
Proof.
  intros props calls.
  apply (boundaries_invariant (fun sr => idle (fst sr)) (fun _ => True)).
  - intros state effect r i _. apply invoke_ends_idle.
  - apply Forall_trivial.
  - repeat split.
Qed.

(** X8. The session state and the cells agree on the program-mode connection
    as long as the logger stays.  From the provider's initial state, after
    each completed invocation of a sequence of operations in which every
    setDebugLogging is called with the value the debug switch has, and
    whatever state the closures captured: when isConnected is true, the
    esploader, transport and chip fields are non-null and so are the cells
    programDevice, programTransport and esploaderInstance, so program and
    eraseFlash called through the latest render do not refuse.  A
    setDebugLogging that changes the switch breaks the agreement on every
    connected session: the cleanup of the provider's effect empties the three
    program-mode cells and dispatches nothing but SET_DEBUG_LOGGING, so
    isConnected stays true, and program called through the latest render
    then refuses with the not-connected error and calls nothing. *)
Theorem connected_session_has_handles :
  forall (props : ProviderProps) (calls : list Invocation),
    (Forall (keepsLogger (debugLogging (providerInitialState props))) calls ->
     Forall programCoherent
       (boundaries props (providerInitialState props) (mountedEffect props)
          initialRefs calls) /\
     Forall (fun sr =>
               isConnected (fst sr) = true ->
               isNull (esploaderInstance (snd sr)) || negb (isConnected (fst sr)) = false)
       (boundaries props (providerInitialState props) (mountedEffect props)
          initialRefs calls)) /\
    (forall (state : ESPLoaderState) (effect : EffectCapture) (r : Refs)
            (enabled : bool) (env : CleanupEnv),
       enabled <> debugLogging state ->
       let x := invoke props state effect (InvokeSetDebugLogging enabled env) r in
       let state' := replay state (events x) in
       isConnected state' = isConnected state /\
       programDevice (refsAfter x) = None /\
       programTransport (refsAfter x) = None /\
       esploaderInstance (refsAfter x) = None /\
       (isConnected state = true -> ~ programCoherent (state', refsAfter x)) /\
       forall files options programEnv,
         events (invoke props state'
                   (effectAfter state effect (InvokeSetDebugLogging enabled env)
                      state' (refsAfter x))
                   (InvokeProgram state' files options programEnv) (refsAfter x))
         = [Dispatch (SET_ERROR (Some (ErrString notConnectedMessage)))]).
Proof.
  intros props calls. split.
  - intros Hcalls.
    set (d := debugLogging (providerInitialState props)) in *.
    assert (H : Forall (fun sr => programCoherent sr /\ debugLogging (fst sr) = d)
                  (boundaries props (providerInitialState props) (mountedEffect props)
                     initialRefs calls)).
    { apply (boundaries_invariant
               (fun sr => programCoherent sr /\ debugLogging (fst sr) = d)
               (keepsLogger d)).
      - intros state effect r i Hq [Hc Hd]. cbn [fst] in Hd. rewrite <- Hd in Hq.
        split.
        + apply invoke_coherent; [exact Hq | exact Hc].
        + cbn [fst]. rewrite invoke_keeps_debugLogging; [exact Hd | exact Hq].
      - exact Hcalls.
      - split; [intros H; discriminate H | reflexivity]. }
    split.
    + revert H. apply Forall_impl. intros sr [Hc _]. exact Hc.
    + revert H. apply Forall_impl. intros [s r] [Hc _] Hon.
      destruct (Hc Hon) as [_ [_ [_ [_ [_ Hi]]]]]. cbn [fst snd] in *.
      rewrite Hon. destruct (esploaderInstance r); [reflexivity | contradiction].
  - intros state effect r enabled env Hne. cbv zeta.
    assert (Hb : negb (Bool.eqb enabled (debugLogging state)) = true).
    { destruct enabled, (debugLogging state); try reflexivity; contradiction. }
    unfold invoke. rewrite Hb.
    destruct effect as [a b c d e], env as [f g], r as [pd pt ei cd ct cr k ip].
    assert (Hrun : isConnected
                     (replay state
                        (events ((dispatch (SET_DEBUG_LOGGING enabled) ;;
                                  when true
                                    (providerCleanup
                                       {| programTransportRef := a; consoleTransportRef := b;
                                          programDeviceRef := c; consolePortRef := d;
                                          capturedIsConnected := e |}
                                       {| consolePortReadable := f;
                                          programPortReadable := g |}))
                                   {| programDevice := pd; programTransport := pt;
                                      esploaderInstance := ei; consoleDevice := cd;
                                      consoleTransport := ct; consoleReader := cr;
                                      keepConsoleReading := k;
                                      consoleReadingInProgress := ip |})))
                   = isConnected state).
    { destruct cr, b, d, f, a, e, c, g; reflexivity. }
    split; [exact Hrun|].
    split; [destruct cr, b, d, f, a, e, c, g; reflexivity|].
    split; [destruct cr, b, d, f, a, e, c, g; reflexivity|].
    split; [destruct cr, b, d, f, a, e, c, g; reflexivity|].
    split.
    + intros Hon Hcoh. unfold programCoherent in Hcoh. cbn [fst snd] in Hcoh.
      rewrite Hrun in Hcoh. destruct (Hcoh Hon) as [_ [_ [_ [Hpd _]]]].
      apply Hpd. destruct cr, b, d, f, a, e, c, g; reflexivity.
    + intros files options programEnv.
      destruct cr, b, d, f, a, e, c, g; reflexivity.
Qed.

(** A connect, then a setDebugLogging with the value the switch has: the
    session stays connected with its handles in place.  The same switch
    flipped on that session: it still shows connected and the
    esploaderInstance cell is empty. *)
Lemma connected_session_has_handles_witness :
  let first := providerInitialState plainProps in
  let env := {| consolePortReadable := false; programPortReadable := true |} in
  let calls := [InvokeConnect first None (connectWith (fun _ => None));
                InvokeSetDebugLogging false env] in
  let x := connect first 115200 None (connectWith (fun _ => None)) initialRefs in
  let connected := replay first (events x) in
  let flipped := invoke plainProps connected (mountedEffect plainProps)
                   (InvokeSetDebugLogging true env) (refsAfter x) in
  Forall (keepsLogger (debugLogging first)) calls /\
  map (fun sr => isConnected (fst sr))
    (boundaries plainProps first (mountedEffect plainProps) initialRefs calls)
  = [true; true] /\
  Forall programCoherent
    (boundaries plainProps first (mountedEffect plainProps) initialRefs calls) /\
  isConnected (replay connected (events flipped)) = true /\
  esploaderInstance (refsAfter flipped) = None.
Proof.
  cbv zeta.
  destruct (connected_session_has_handles plainProps
              [InvokeConnect (providerInitialState plainProps) None
                 (connectWith (fun _ => None));
               InvokeSetDebugLogging false
                 {| consolePortReadable := false; programPortReadable := true |}])
    as [Hkeep Hflip].
  assert (Hcalls : Forall (keepsLogger (debugLogging (providerInitialState plainProps)))
                     [InvokeConnect (providerInitialState plainProps) None
                        (connectWith (fun _ => None));
                      InvokeSetDebugLogging false
                        {| consolePortReadable := false; programPortReadable := true |}]).
  { repeat constructor. }
  split; [exact Hcalls|]. split; [reflexivity|].
  split; [exact (proj1 (Hkeep Hcalls))|].
  match goal with
  | |- isConnected (replay ?s (events (invoke _ _ ?e (InvokeSetDebugLogging ?b ?env) ?r)))
       = true /\ _ =>
      destruct (Hflip s e r b env) as (Hc & _ & _ & Hi & _);
        [vm_compute; discriminate|]
  end.
  split; [rewrite Hc; reflexivity | exact Hi].
Defined.

(** ** The three ways connect ends *)



(** ** attemptConnectionRecovery *)






(** ** startConsole: the mode switch and the rejected start *)











(** ** The terminal buffer *)

Lemma append_empty_r (s : string) : s ^+ "" = s.
Proof. induction s as [|c s IH]; simpl; [reflexivity | now rewrite IH]. Qed.

Lemma append_assoc_text (s t u : string) : (s ^+ t) ^+ u = s ^+ t ^+ u.
Proof. induction s as [|c s IH]; simpl; [reflexivity | now rewrite IH]. Qed.

Lemma joined_snoc (lines : list string) (line : string) :
  joined (lines ++ [line]) = joined lines ^+ line.
Proof.
  unfold joined. induction lines as [|l lines IH]; simpl.
  - apply append_empty_r.
  - rewrite IH. symmetry. apply append_assoc_text.
Qed.

Lemma snoc_cases {A} (l : list A) :
  l = [] \/ exists init last, l = init ++ [last].
Proof.
  destruct l as [|a l] using rev_ind; [left; reflexivity|].
  right. exists l, a. reflexivity.
Qed.

(** What the two writing actions do to the text and to the line structure
    of the buffer. *)
Lemma add_terminal_output_text (state : ESPLoaderState) (data : string) :
  joined (terminalOutput (esploaderReducer state (ADD_TERMINAL_OUTPUT data)))
  = joined (terminalOutput state) ^+ data.
Proof. simpl. apply joined_snoc. Qed.

Lemma append_terminal_output_text (state : ESPLoaderState) (data : string) :
  joined (terminalOutput (esploaderReducer state (APPEND_TERMINAL_OUTPUT data)))
  = joined (terminalOutput state) ^+ data.
Proof.
  simpl. destruct (snoc_cases (terminalOutput state)) as [-> | [l [x ->]]].
  - simpl. apply append_empty_r.
  - rewrite lastLine_snoc, slice_drop_last, length_app. simpl.
    replace (0 <? List.length l + 1)%nat with true
      by (symmetry; apply Nat.ltb_lt; lia).
    simpl. destruct (JS.endsWith x JS.LF); simpl.
    + apply joined_snoc.
    + rewrite !joined_snoc. symmetry. apply append_assoc_text.
Qed.

Lemma removelast_snoc {A} (l : list A) (a : A) : removelast (l ++ [a]) = l.
Proof. apply removelast_last. Qed.

Lemma append_terminal_output_linewise (state : ESPLoaderState) (data : string) :
  linewise (terminalOutput state) ->
  linewise (terminalOutput (esploaderReducer state (APPEND_TERMINAL_OUTPUT data))).
Proof.
  unfold linewise. simpl.
  destruct (snoc_cases (terminalOutput state)) as [-> | [l [x ->]]].
  - intros _. constructor.
  - rewrite lastLine_snoc, slice_drop_last, length_app. simpl.
    replace (0 <? List.length l + 1)%nat with true
      by (symmetry; apply Nat.ltb_lt; lia).
    rewrite !removelast_snoc. simpl. intros H.
    destruct (JS.endsWith x JS.LF) eqn:Hx; simpl; rewrite removelast_snoc.
    + apply Forall_app. split; [exact H | repeat constructor; exact Hx].
    + exact H.
Qed.

Lemma terminal_step (s : ESPLoaderState) (a : Action) (out : list string) :
  keepsTerminal (Dispatch a) -> terminalOutput s = out ->
  terminalOutput (esploaderReducer s a) = out.
Proof. destruct a; simpl; intros H H0; try exact H0; contradiction. Qed.

Lemma terminal_stays (evs : list Event) (state : ESPLoaderState) :
  Forall keepsTerminal evs ->
  terminalOutput (replay state evs) = terminalOutput state.
Proof.
  intros H.
  apply (replay_invariant (fun s => terminalOutput s = terminalOutput state)
           keepsTerminal); [|exact H|reflexivity].
  intros s a. apply terminal_step.
Qed.

(** X11. The terminal shows what was written.  After any sequence of calls of
    the terminal sink handed to the engine, the entries of terminalOutput,
    read one after the other, are exactly the data written since the last
    [clean], in order, after the text that was there before: coalescing
    chunks into lines loses and reorders nothing. *)
Theorem terminal_shows_what_was_written :
  forall (calls : list TerminalCall) (state : ESPLoaderState),
    joined (terminalOutput (replay state (terminalTrace calls)))
    = shownText (joined (terminalOutput state)) calls.
Proof.
  unfold terminalTrace, shownText.
  induction calls as [|c calls IH]; intros state; [reflexivity|].
  destruct c as [|data|data]; cbn [flat_map esploaderTerminal dispatch emit events app
                                   replay fold_left].
  - rewrite IH. reflexivity.
  - rewrite IH, add_terminal_output_text. reflexivity.
  - rewrite IH, append_terminal_output_text. reflexivity.
Qed.

(** ** The read loop and the terminal *)

Lemma readWhile_step (reader : Reader) (r : Refs) (result : ReadResult)
    (reads : list ReadResult) :
  keepConsoleReading r && consoleReadingInProgress r = true ->
  events (readWhile reader (result :: reads) r) =
  Call (ReaderRead reader) ::
  match result with
  | ReadDone => []
  | ReadValue (Some decodedText) =>
      Dispatch (APPEND_TERMINAL_OUTPUT decodedText) :: events (readWhile reader reads r)
  | ReadValue None => events (readWhile reader reads r)
  | ReadFailed error =>
      [Dispatch (SET_ERROR (Some (ErrString ("Console read error: " ^+ messageText error))))]
  end.
Proof.
  intros Hk. pose proof Hk as Hk'. apply andb_true_iff in Hk'. destruct Hk' as [Hk1 _].
  cbn [readWhile]. unfold bind. cbn [current outcome refsAfter events]. rewrite Hk.
  destruct result as [|[decodedText|]|error]; cbn -[readWhile].
  - reflexivity.
  - destruct (readWhile reader reads r); reflexivity.
  - destruct (readWhile reader reads r); reflexivity.
  - rewrite Hk1. reflexivity.
Qed.

Lemma readWhile_text (reader : Reader) (r : Refs) (reads : list ReadResult) :
  keepConsoleReading r && consoleReadingInProgress r = true ->
  forall state,
    joined (terminalOutput (replay state (events (readWhile reader reads r))))
    = joined (terminalOutput state) ^+ receivedText reads /\
    (linewise (terminalOutput state) ->
     linewise (terminalOutput (replay state (events (readWhile reader reads r))))).
Proof.
  intros Hk. induction reads as [|result reads IH]; intros state.
  - simpl. unfold bind. cbn. rewrite Hk. cbn. rewrite append_empty_r. auto.
  - rewrite (readWhile_step reader r result reads Hk).
    destruct result as [|[decodedText|]|error]; cbn [replay receivedText].
    + rewrite append_empty_r. auto.
    + destruct (IH (esploaderReducer state (APPEND_TERMINAL_OUTPUT decodedText)))
        as [IH1 IH2].
      split.
      * rewrite IH1, append_terminal_output_text. apply append_assoc_text.
      * intros H. apply IH2, append_terminal_output_linewise, H.
    + apply IH.
    + rewrite append_empty_r. auto.
Qed.

Lemma readLoopFinally_keeps_terminal (reader : Reader) (env : ReadLoopEnv) :
  emitsOnly keepsTerminal (readLoopFinally reader env).
Proof. unfold readLoopFinally. emits; exact I. Qed.

Lemma readWhile_idle (reader : Reader) (r : Refs) (reads : list ReadResult) :
  keepConsoleReading r && consoleReadingInProgress r = false ->
  readWhile reader reads r = {| outcome := Returned true; refsAfter := r; events := [] |}.
Proof. intros H. destruct reads; simpl; unfold bind; cbn; rewrite H; reflexivity. Qed.

(** X12. Console output reaches the terminal complete and in order.  One run of
    the read loop adds to the text of terminalOutput exactly the chunks it
    decoded, in order, up to the first read that ends the stream or fails -
    nothing when the loop is not allowed to read; if every entry of the
    buffer but the last ended with a line terminator before the run, that
    still holds after it. *)
Theorem console_output_reaches_terminal :
  forall (reader : Reader) (env : ReadLoopEnv) (r : Refs) (state : ESPLoaderState),
    let after := replay state (events (consoleReadLoop reader env r)) in
    joined (terminalOutput after)
    = joined (terminalOutput state)
      ^+ (if keepConsoleReading r && consoleReadingInProgress r
          then receivedText (loopReads env) else "") /\
    (linewise (terminalOutput state) -> linewise (terminalOutput after)).
Proof.
  intros reader env r state. cbv zeta.
  assert (E : exists tail,
             events (consoleReadLoop reader env r)
             = events (readWhile reader (loopReads env) r) ++ tail /\
             Forall keepsTerminal tail).
  { pose proof (readWhile_throws_nothing reader (loopReads env) r) as Ht.
    unfold consoleReadLoop, bind.
    destruct (readWhile reader (loopReads env) r) as [[left|e] r1 evs].
    - pose proof (readLoopFinally_keeps_terminal reader env r1) as Hf.
      destruct left; cbn [when].
      + destruct (readLoopFinally reader env r1) as [o r2 evs2].
        exists evs2. split; [reflexivity | exact Hf].
      + exists []. split; [reflexivity | constructor].
    - destruct (Ht e eq_refl). }
  destruct E as [tail [E Htail]]. rewrite E, replay_app, (terminal_stays _ _ Htail).
  destruct (keepConsoleReading r && consoleReadingInProgress r) eqn:Hk.
  - apply readWhile_text. exact Hk.
  - rewrite (readWhile_idle _ _ _ Hk). cbn. rewrite append_empty_r. auto.
Qed.

(** ** getTrace *)

Lemma slice_last (n : nat) {A} (a : list A) :
  JS.slice a (- Z.of_nat (S n)) None = skipn (List.length a - S n) a.
Proof.
  unfold JS.slice, JS.clampIndex.
  replace (- Z.of_nat (S n) <? 0)%Z with true by (symmetry; apply Z.ltb_lt; lia).
  replace (Z.to_nat (Z.max (Z.of_nat (List.length a) + - Z.of_nat (S n)) 0))
    with (List.length a - S n) by lia.
  apply firstn_all2. rewrite length_skipn. lia.
Qed.

(** X13. getTrace.  When the state is connected in neither mode the answer is
    empty, whatever terminalOutput holds; otherwise it is the last 50
    entries of terminalOutput in order - all of them when there are fewer -
    so never more than 50, and terminalOutput is some older entries followed
    by the answer.  In particular the trace is empty after every disconnect
    of a session that is not in console mode, also when the disconnect
    failed and the terminal was not cleared. *)
Theorem getTrace_window :
  forall (state : ESPLoaderState),
    (isConnected state = false -> isConsoleConnected state = false ->
     getTrace state = []) /\
    (isConnected state || isConsoleConnected state = true ->
     getTrace state
     = skipn (List.length (terminalOutput state) - 50) (terminalOutput state)) /\
    List.length (getTrace state) <= 50 /\
    (exists older, terminalOutput state = older ++ getTrace state) /\
    (forall env r,
       isConsoleConnected state = false ->
       getTrace (replay state (events (disconnect env r))) = []).
Proof.
  intros state.
  assert (W : JS.slice (terminalOutput state) (-50) None
              = skipn (List.length (terminalOutput state) - 50) (terminalOutput state)).
  { exact (slice_last 49 (terminalOutput state)). }
  unfold getTrace. rewrite W.
  split; [intros -> ->; reflexivity|].
  split.
  { intros H. destruct (isConnected state), (isConsoleConnected state);
      try reflexivity; discriminate H. }
  split.
  { destruct (negb (isConnected state) && negb (isConsoleConnected state));
      [simpl; lia | rewrite length_skipn; lia]. }
  split.
  { destruct (negb (isConnected state) && negb (isConsoleConnected state)).
    - exists (terminalOutput state). symmetry. apply app_nil_r.
    - exists (firstn (List.length (terminalOutput state) - 50) (terminalOutput state)).
      symmetry. apply firstn_skipn. }
  intros env r Hc.
  rewrite disconnect_ends_off.
  assert (Hoff : isConsoleConnected (replay state (events (disconnect env r))) = false).
  { apply console_stays_off; [|exact Hc].
    eapply Forall_impl; [|apply disconnect_lowering]. intros e [_ H]. exact H. }
  rewrite Hoff. reflexivity.
Qed.

(** ** The cleanup of the provider's effect *)

(** X14. The cleanup works on the handles captured when the effect was set up.
    It cannot fail; it empties the five cells esploaderInstance,
    programTransport, programDevice, consoleTransport and consoleDevice,
    stops the read loop's flag and leaves the reader cell as it is.  The only
    handle it takes from the cells as they are now is the reader it cancels:
    every transport it disconnects and every port it closes is a captured
    one.  An effect set up at mount, when the cells are still empty, has
    captured nothing: its cleanup disconnects no transport and closes no
    port, whatever was opened since.  After the cleanup program and
    eraseFlash refuse with the not-connected error, whatever the state
    says. *)
Theorem cleanup_uses_the_captured_handles :
  forall (captured : EffectCapture) (env : CleanupEnv) (r : Refs),
    let x := providerCleanup captured env r in
    outcome x = Returned tt /\
    (esploaderInstance (refsAfter x) = None /\
     programTransport (refsAfter x) = None /\
     programDevice (refsAfter x) = None /\
     consoleTransport (refsAfter x) = None /\
     consoleDevice (refsAfter x) = None /\
     keepConsoleReading (refsAfter x) = false /\
     consoleReader (refsAfter x) = consoleReader r) /\
    Forall (fun e =>
              match e with
              | Call (ReaderCancel reader) => consoleReader r = Some reader
              | Call (TransportDisconnect t) =>
                  consoleTransportRef captured = Some t \/
                  (programTransportRef captured = Some t /\
                   capturedIsConnected captured = true)
              | Call (PortClose port) =>
                  consolePortRef captured = Some port \/
                  programDeviceRef captured = Some port
              | _ => False
              end) (events x) /\
    (forall props,
       events (providerCleanup (captureAt (providerInitialState props) initialRefs) env r)
       = match consoleReader r with
         | Some reader => [Call (ReaderCancel reader)]
         | None => []
         end) /\
    (forall state files options programEnv eraseResult,
       events (program state files options programEnv (refsAfter x))
       = [Dispatch (SET_ERROR (Some (ErrString notConnectedMessage)))] /\
       events (eraseFlash state eraseResult (refsAfter x))
       = [Dispatch (SET_ERROR (Some (ErrString notConnectedMessage)))]).
Proof.
  intros captured env r. cbv zeta.
  destruct captured as [ptr ctr pdr cpr cc]; destruct env as [cpo ppo];
    destruct r as [pd pt ei cd ct cr k ip].
  split; [destruct cr, ctr, cpr, cpo, ptr, cc, pdr, ppo; reflexivity|].
  split; [destruct cr, ctr, cpr, cpo, ptr, cc, pdr, ppo; repeat split|].
  split.
  { destruct cr, ctr, cpr, cpo, ptr, cc, pdr, ppo; cbn;
      repeat (apply Forall_cons || apply Forall_nil); auto. }
  split.
  { intros props. destruct cr; reflexivity. }
  intros state files options programEnv eraseResult.
  split.
  - apply guard_events_program.
    destruct cr, ctr, cpr, cpo, ptr, cc, pdr, ppo; reflexivity.
  - apply guard_events_eraseFlash.
    destruct cr, ctr, cpr, cpo, ptr, cc, pdr, ppo; reflexivity.
Qed.

(** ** resetDevice *)

Lemma resetDevice_core (state : ESPLoaderState) (r : Refs) (env : ResetEnv) :
  Forall (fun e => match e with
                   | Dispatch (SET_ERROR (Some _)) | Delay _ => True
                   | _ => False
                   end) (coreEvents (resetDevice state r env)).
Proof.
  unfold resetDevice, consoleReset, maxRetries. cbn.
  destruct (isConnected state), (esploaderInstance r), (isConsoleConnected state),
    (consoleTransport r); cbn;
    repeat match goal with
           | |- context [match ?x with _ => _ end] => destruct x; cbn
           end;
    repeat constructor.
Qed.

(** X15. resetDevice.  In program mode it calls softReset up to three times and
    stops at the first success; it waits 500 ms after a first failure and
    1000 ms after a second one, and only when the third attempt fails as
    well does it dispatch SET_ERROR, with the message of that last failure:
    a failure that a later attempt makes good is never shown.  Outside
    program mode, a session in console mode sends CTRL+C and pulses DTR, and
    the first failing step is the error; a session in neither mode gets the
    "Not connected in any mode" error.  Whatever happens, the only action
    dispatched is SET_ERROR: the connection fields, the console flag and the
    terminal are what they were, so the session still shows connected after
    a reset. *)
Theorem resetDevice_policy :
  forall (state live : ESPLoaderState) (r : Refs) (env : ResetEnv),
    let evs := resetDevice state r env in
    (forall loader,
       isConnected state = true -> esploaderInstance r = Some loader ->
       let call := Device (SoftReset loader) in
       let failed e :=
         Core (Dispatch (SET_ERROR (Some (ErrString
           (JS.orDefault (message e) "Failed to reset device"))))) in
       evs =
       call ::
       match softResetResult env 1 with
       | None => []
       | Some _ =>
           Core (Delay 500) :: call ::
           match softResetResult env 2 with
           | None => []
           | Some _ =>
               Core (Delay 1000) :: call ::
               match softResetResult env 3 with
               | None => []
               | Some e => [failed e]
               end
           end
       end) /\
    (forall t,
       isConnected state = false \/ esploaderInstance r = None ->
       isConsoleConnected state = true -> consoleTransport r = Some t ->
       evs = consoleReset t env /\ filter isSoftReset evs = []) /\
    (isConnected state = false \/ esploaderInstance r = None ->
     isConsoleConnected state = false \/ consoleTransport r = None ->
     evs = [Core (Dispatch (SET_ERROR (Some (ErrString notConnectedInAnyMode))))]) /\
    programFields (replay live (coreEvents evs)) = programFields live /\
    isConsoleConnected (replay live (coreEvents evs)) = isConsoleConnected live /\
    terminalOutput (replay live (coreEvents evs)) = terminalOutput live.
Proof.
  intros state live r env. cbv zeta.
  split.
  { intros loader Hc Hl. unfold resetDevice. rewrite Hc, Hl. cbn.
    destruct (softResetResult env 1); [|reflexivity]. cbn.
    destruct (softResetResult env 2); [|reflexivity]. cbn.
    destruct (softResetResult env 3); reflexivity. }
  split.
  { intros t H1 Hc Ht. unfold resetDevice. rewrite Hc, Ht.
    assert (E : match isConnected state, esploaderInstance r with
                | true, Some loader => resetLoop maxRetries 0 loader (softResetResult env)
                | _, _ => consoleReset t env
                end = consoleReset t env).
    { destruct H1 as [-> | ->]; [reflexivity | destruct (isConnected state); reflexivity]. }
    rewrite E. split; [reflexivity|].
    unfold consoleReset.
    destruct (resetWrite env), (resetDtrLow env), (resetDtrHigh env); reflexivity. }
  split.
  { intros H1 H2. unfold resetDevice.
    destruct H1 as [-> | ->], H2 as [-> | ->];
      destruct (isConnected state), (isConsoleConnected state),
        (esploaderInstance r), (consoleTransport r); reflexivity. }
  pose proof (resetDevice_core state r env) as Hcore.
  assert (Hframe : forall evs,
             Forall (fun e => match e with
                              | Dispatch (SET_ERROR (Some _)) | Delay _ => True
                              | _ => False
                              end) evs ->
             Forall (fun e => keepsProgramFields e /\ keepsTerminal e /\
                              turnsOnConsoleConnected e = false /\
                              match e with
                              | Dispatch (SET_IS_CONSOLE_CONNECTED _)
                              | Dispatch RESET_STATE => False
                              | _ => True
                              end) evs).
  { intros evs. apply Forall_impl.
    intros [[| | | | | | | |[p|]| | | | | | | | | | | |]|ms|c|rd]; simpl; intuition. }
  specialize (Hframe _ Hcore).
  split; [|split].
  - apply programFields_stay. revert Hframe. apply Forall_impl. intros e H. apply H.
  - apply (replay_invariant
             (fun s => isConsoleConnected s = isConsoleConnected live)
             (fun e => match e with
                       | Dispatch (SET_IS_CONSOLE_CONNECTED _)
                       | Dispatch RESET_STATE => False
                       | _ => True
                       end)); [| |reflexivity].
    + intros s a. destruct a; simpl; intros H H0; try exact H0; contradiction.
    + revert Hframe. apply Forall_impl. intros e H. apply H.
  - apply terminal_stays. revert Hframe. apply Forall_impl. intros e H. apply H.
Qed.

(** ** Firmware guidance: detection and the validation of one file *)

Lemma typeEqb_eq (t u : FirmwareFileType) : typeEqb t u = true <-> t = u.
Proof. destruct t, u; simpl; split; intros H; try reflexivity; discriminate H. Qed.

(** A file is taken for an application image only by its address, and only
    at a multiple of 64 KB from 0x10000 on. *)
Lemma detect_app_aligned (fileName : string) (address : N) :
  detectFileType fileName address = App ->
  (65536 <= address)%N /\ (address mod 65536 = 0)%N.
Proof.
  unfold detectFileType.
  repeat match goal with
         | |- context [if ?c then _ else _] => destruct c eqn:?
         end; intros H; try discriminate H.
  - match goal with H0 : (address =? 65536)%N = true |- _ => apply N.eqb_eq in H0; subst end.
    split; [lia | reflexivity].
  - match goal with H0 : _ && _ = true |- _ => apply andb_true_iff in H0; destruct H0 as [A B] end.
    apply N.leb_le in A. apply N.eqb_eq in B. split; assumption.
Qed.

Lemma chipGiven_truthy (chipType : option string) (c : string) :
  chipGiven chipType = Some c -> chipType = Some c /\ truthy c = true.
Proof.
  destruct chipType as [c'|]; simpl; [|intros H; discriminate H].
  destruct (truthy c') eqn:E; intros H; [|discriminate H].
  injection H as <-. split; [reflexivity | exact E].
Qed.

Lemma inherited_iff (chipType : string) :
  chipProperty chipType = Inherited <-> In chipType objectPrototypeKeys.
Proof.
  unfold chipProperty. split.
  - destruct (ownProperty CHIP_REQUIREMENTS chipType); [intros H; discriminate H|].
    destruct (existsb (String.eqb chipType) objectPrototypeKeys) eqn:E;
      [|intros H; discriminate H].
    intros _. apply existsb_exists in E. destruct E as [k [Hin Hk]].
    apply String.eqb_eq in Hk. subst k. exact Hin.
  - intros Hin.
    assert (E : existsb (String.eqb chipType) objectPrototypeKeys = true).
    { apply existsb_exists. exists chipType. split; [exact Hin | apply String.eqb_refl]. }
    rewrite E.
    assert (O : ownProperty CHIP_REQUIREMENTS chipType = None).
    { simpl in Hin.
      repeat (destruct Hin as [<- | Hin]; [reflexivity|]). destruct Hin. }
    rewrite O. reflexivity.
Qed.

(** X16. What validateFile reports.  It throws only for a chip name that is a
    property inherited from Object.prototype.  Otherwise isValid is true
    exactly when errors is empty; errors holds at most one message, the
    wrong-address message of the detected type, and only for a table chip,
    a type with a list of valid addresses and an address outside it.  The
    64 KB alignment message is never reported: a file is detected as an
    application image only at an aligned address.  Without a chip, or with a
    chip the table does not know, the file is valid with exactly one
    warning. *)
Theorem validateFile_reports :
  forall (file : ESPFile) (chipType : option string),
    match validateFile file chipType with
    | Thrown _ =>
        exists c, chipGiven chipType = Some c /\ In c objectPrototypeKeys
    | Returned result =>
        (isValid result = true <-> errors result = []) /\
        detectedType result
        = detectFileType (JS.orDefault (fileName file) "") (address file) /\
        ~ In alignmentMessage (errors result) /\
        (errors result = [] \/
         exists c requirements info valid,
           chipGiven chipType = Some c /\
           chipProperty c = Own requirements /\
           typeLookup (requiredFiles requirements) (detectedType result) = Some info /\
           validAddresses info = Some valid /\
           ~ In (address file) valid /\
           errors result = [wrongAddressMessage (detectedType result) valid (address file)]) /\
        (match chipGiven chipType with
         | None => True
         | Some c => chipProperty c = Absent
         end ->
         isValid result = true /\ List.length (warnings result) = 1 /\
         suggestions result = [])
    end.
Proof.
  intros file chipType. unfold validateFile.
  set (detected := detectFileType (JS.orDefault (fileName file) "") (address file)).
  destruct (chipGiven chipType) as [c|] eqn:Hg.
  2:{ cbn. repeat split; auto; try (intros; discriminate); simpl in *; contradiction. }
  destruct (chipProperty c) as [requirements| |] eqn:Hp.
  3:{ cbn. repeat split; auto; try (intros; discriminate); simpl in *; contradiction. }
  2:{ exists c. split; [reflexivity | apply inherited_iff, Hp]. }
  assert (Halign : (if typeEqb detected App && negb (address file mod 65536 =? 0)%N
                    then [alignmentMessage] else []) = []).
  { destruct (typeEqb detected App) eqn:Ht; [|reflexivity].
    apply typeEqb_eq in Ht. destruct (detect_app_aligned _ _ Ht) as [_ Hm].
    rewrite Hm. reflexivity. }
  rewrite Halign, app_nil_r. cbn [isValid errors detectedType warnings suggestions].
  assert (Hne : forall valid a, wrongAddressMessage detected valid a <> alignmentMessage).
  { intros valid a. unfold wrongAddressMessage, alignmentMessage.
    destruct detected; simpl; intros H; discriminate H. }
  destruct (typeLookup (requiredFiles requirements) detected) as [info|] eqn:Hl.
  2:{ repeat split; auto; try (intros; discriminate); simpl in *; try contradiction. }
  destruct (validAddresses info) as [valid|] eqn:Hv.
  2:{ repeat split; auto; try (intros; discriminate); simpl in *; try contradiction. }
  destruct (existsb (N.eqb (address file)) valid) eqn:Hin.
  { repeat split; auto; try (intros; discriminate); simpl in *; try contradiction. }
  split; [split; intros H; discriminate H|].
  split; [reflexivity|].
  split.
  { intros [H | []]. exact (Hne _ _ H). }
  split.
  { right. exists c, requirements, info, valid. repeat split; auto.
    intros Hc. assert (E : existsb (N.eqb (address file)) valid = true).
    { apply existsb_exists. exists (address file). split; [exact Hc | apply N.eqb_refl]. }
    rewrite E in Hin. discriminate Hin. }
  intros H. discriminate H.
Qed.

(** ** Firmware guidance: the validation of a set of files *)

(** A list of names gives no pair exactly when it holds at most one name. *)
Lemma pairsAt_nil (address : N) (fileNames : list string) :
  pairsAt address fileNames = [] <-> List.length fileNames <= 1.
Proof.
  destruct fileNames as [|a [|b rest]]; simpl; split; intros H;
    try reflexivity; try lia; discriminate H.
Qed.

Lemma conflictsOf_nil (addressMap : list (N * list string)) :
  conflictsOf addressMap = [] <->
  Forall (fun entry => List.length (snd entry) <= 1) addressMap.
Proof.
  unfold conflictsOf. induction addressMap as [|[a names] m IH]; simpl.
  - split; [constructor | reflexivity].
  - split.
    + intros H. apply app_eq_nil in H. destruct H as [H1 H2].
      constructor; [apply pairsAt_nil in H1; exact H1 | apply IH, H2].
    + intros H. inversion H as [|x l H1 H2]. subst.
      simpl in H1. rewrite (proj2 (pairsAt_nil a names) H1). apply IH, H2.
Qed.

Lemma namesCount_addName (addressMap : list (N * list string)) (address : N)
    (name : string) (a : N) :
  namesCount (addName addressMap address name) a
  = namesCount addressMap a + (if (address =? a)%N then 1 else 0).
Proof.
  induction addressMap as [|[k names] m IH]; simpl.
  - lia.
  - destruct (k =? address)%N eqn:E; simpl.
    + apply N.eqb_eq in E. subst k. rewrite length_app. simpl.
      destruct (address =? a)%N; lia.
    + rewrite IH. lia.
Qed.

Lemma keys_addName (addressMap : list (N * list string)) (address : N) (name : string) :
  NoDup (map fst addressMap) -> NoDup (map fst (addName addressMap address name)).
Proof.
  induction addressMap as [|[k names] m IH]; simpl; intros H.
  - constructor; [intros [] | constructor].
  - destruct (k =? address)%N eqn:E; simpl; [exact H|].
    inversion H as [|x l Hk Hm]. subst. constructor; [|apply IH, Hm].
    intros Hin. apply Hk. clear - Hin E.
    induction m as [|[k' names'] m IHm]; simpl in *.
    + destruct Hin as [<- | []]. rewrite N.eqb_refl in E. discriminate E.
    + destruct (k' =? address)%N; simpl in Hin; [exact Hin|].
      destruct Hin as [<- | Hin]; [left; reflexivity | right; apply IHm, Hin].
Qed.

Lemma namesCount_entry (addressMap : list (N * list string)) (a : N) (names : list string) :
  NoDup (map fst addressMap) -> In (a, names) addressMap ->
  namesCount addressMap a = List.length names.
Proof.
  induction addressMap as [|[k ns] m IH]; simpl; intros Hnd Hin; [destruct Hin|].
  inversion Hnd as [|x l Hk Hm]. subst.
  assert (Hzero : forall m', ~ In a (map fst m') -> namesCount m' a = 0).
  { induction m' as [|[k' ns'] m' IHm]; simpl; intros Hn; [reflexivity|].
    destruct (k' =? a)%N eqn:E.
    - apply N.eqb_eq in E. subst. exfalso. apply Hn. left. reflexivity.
    - apply IHm. intros H. apply Hn. right. exact H. }
  destruct Hin as [Heq | Hin].
  - injection Heq as -> ->. rewrite N.eqb_refl, (Hzero m Hk). lia.
  - destruct (k =? a)%N eqn:E.
    + apply N.eqb_eq in E. subst. exfalso. apply Hk.
      apply (in_map fst) in Hin. exact Hin.
    + rewrite (IH Hm Hin). reflexivity.
Qed.

Lemma namesCount_bound (addressMap : list (N * list string)) :
  NoDup (map fst addressMap) ->
  (Forall (fun entry => List.length (snd entry) <= 1) addressMap <->
   forall a, namesCount addressMap a <= 1).
Proof.
  intros Hnd. split.
  - intros H a. induction addressMap as [|[k ns] m IH]; simpl; [lia|].
    inversion H as [|x l H1 H2]. inversion Hnd as [|x' l' Hk Hm]. subst.
    simpl in H1. destruct (k =? a)%N eqn:E.
    + apply N.eqb_eq in E. subst.
      assert (Hz : namesCount m a = 0).
      { clear - Hk. induction m as [|[k' ns'] m IHm]; simpl; [reflexivity|].
        destruct (k' =? a)%N eqn:E.
        - apply N.eqb_eq in E. subst. exfalso. apply Hk. left. reflexivity.
        - apply IHm. intros H. apply Hk. right. exact H. }
      lia.
    + specialize (IH Hm H2). lia.
  - intros H. apply Forall_forall. intros [a names] Hin. simpl.
    rewrite <- (namesCount_entry addressMap a names Hnd Hin). apply H.
Qed.

Lemma addressMapOf_run (files : list ESPFile) :
  forall addressMap,
    NoDup (map fst addressMap) ->
    let final := fold_left (fun m file => addName m (address file) (displayName file))
                   files addressMap in
    NoDup (map fst final) /\
    forall a, namesCount final a
              = namesCount addressMap a + count_occ N.eq_dec (map address files) a.
Proof.
  induction files as [|file files IH]; intros addressMap Hnd; cbv zeta; simpl.
  - split; [exact Hnd | intros a; lia].
  - destruct (IH (addName addressMap (address file) (displayName file))
                (keys_addName _ _ _ Hnd)) as [H1 H2].
    split; [exact H1|]. intros a. rewrite H2, namesCount_addName.
    destruct (N.eq_dec (address file) a) as [->|Hne].
    + rewrite N.eqb_refl. lia.
    + apply N.eqb_neq in Hne. rewrite Hne. lia.
Qed.

Lemma conflicts_iff_duplicates (files : list ESPFile) :
  conflictsOf (addressMapOf files) = [] <-> NoDup (map address files).
Proof.
  destruct (addressMapOf_run files [] (NoDup_nil _)) as [Hnd Hc].
  cbv zeta in Hnd, Hc. fold (addressMapOf files) in Hnd, Hc.
  rewrite conflictsOf_nil, (namesCount_bound _ Hnd), (NoDup_count_occ N.eq_dec).
  split; intros H a; specialize (H a); rewrite Hc in *; simpl in *; exact H.
Qed.

Lemma missingOf_in (requirements : ChipFirmwareRequirements)
    (present : list FirmwareFileType) (t : FirmwareFileType) :
  In t (missingOf requirements present) <->
  (exists info, In (t, info) (requiredFiles requirements) /\ isRequired info = true) /\
  ~ In t present.
Proof.
  unfold missingOf. rewrite in_map_iff. split.
  - intros [[t' info] [Ht Hin]]. simpl in Ht. subst t'.
    apply filter_In in Hin. destruct Hin as [Hin Hc]. simpl in Hc.
    apply andb_true_iff in Hc. destruct Hc as [Hr Hp].
    split; [exists info; split; assumption|].
    intros Hpres. apply negb_true_iff in Hp.
    assert (E : existsb (typeEqb t) present = true).
    { apply existsb_exists. exists t. split; [exact Hpres | apply typeEqb_eq; reflexivity]. }
    rewrite E in Hp. discriminate Hp.
  - intros [[info [Hin Hr]] Hn]. exists (t, info). split; [reflexivity|].
    apply filter_In. split; [exact Hin|]. simpl. rewrite Hr. simpl.
    apply negb_true_iff. destruct (existsb (typeEqb t) present) eqn:E; [|reflexivity].
    apply existsb_exists in E. destruct E as [u [Hu Htu]].
    apply typeEqb_eq in Htu. subst u. contradiction.
Qed.

(** X17. What validateFirmwareSet reports.  It throws only for a chip name
    inherited from Object.prototype.  Without a chip, or with a chip the
    table does not know, the set is never complete and nothing is listed as
    missing or in conflict.  For a chip of the table: a type is listed as
    missing exactly when the chip requires it and no file is detected as
    that type; no address conflict is listed exactly when the addresses of
    the files are pairwise distinct; and the set is complete exactly when
    nothing is missing and the addresses are pairwise distinct. *)
Theorem validateFirmwareSet_reports :
  forall (files : list ESPFile) (chipType : option string),
    match validateFirmwareSet files chipType with
    | Thrown _ =>
        exists c, chipGiven chipType = Some c /\ In c objectPrototypeKeys
    | Returned summary =>
        match chipGiven chipType with
        | None =>
            isComplete summary = false /\ missingRequired summary = [] /\
            addressConflicts summary = []
        | Some c =>
            match chipProperty c with
            | Own requirements =>
                (forall t,
                   In t (missingRequired summary) <->
                   (exists info, In (t, info) (requiredFiles requirements)
                                 /\ isRequired info = true) /\
                   ~ In t (presentTypes files)) /\
                (addressConflicts summary = [] <-> NoDup (map address files)) /\
                (isComplete summary = true <->
                 missingRequired summary = [] /\ NoDup (map address files))
            | _ =>
                isComplete summary = false /\ missingRequired summary = [] /\
                addressConflicts summary = []
            end
        end
    end.
Proof.
  intros files chipType. unfold validateFirmwareSet.
  destruct (chipGiven chipType) as [c|] eqn:Hg; [|repeat split].
  destruct (chipProperty c) as [requirements| |] eqn:Hp; [| |repeat split].
  2:{ exists c. split; [reflexivity | apply inherited_iff, Hp]. }
  cbn [isComplete missingRequired addressConflicts].
  split; [intros t; apply missingOf_in|].
  split; [apply conflicts_iff_duplicates|].
  rewrite <- conflicts_iff_duplicates.
  destruct (missingOf requirements (presentTypes files)),
    (conflictsOf (addressMapOf files)); split; intros H;
    try reflexivity; try discriminate H; try (split; reflexivity);
    destruct H as [H1 H2]; try discriminate H1; discriminate H2.
Qed.

(** ** Firmware guidance: presets *)

Lemma own_chips (chipType : string) :
  (exists requirements, chipProperty chipType = Own requirements) <->
  In chipType (map fst CHIP_REQUIREMENTS).
Proof.
  unfold chipProperty. split.
  - intros [requirements H].
    destruct (ownProperty CHIP_REQUIREMENTS chipType) as [q|] eqn:E.
    + clear H. cbn -[String.eqb] in E.
      repeat match type of E with
             | (if String.eqb ?k chipType then _ else _) = _ =>
                 destruct (String.eqb k chipType) eqn:?
             end;
        try discriminate E;
        match goal with
        | H0 : String.eqb _ chipType = true |- _ =>
            apply String.eqb_eq in H0; subst chipType; simpl; auto 10
        end.
    + destruct (existsb (String.eqb chipType) objectPrototypeKeys); discriminate H.
  - simpl. intros H.
    repeat (destruct H as [<- | H]; [eexists; reflexivity|]). destruct H.
Qed.

Ltac preset_case presetType :=
  destruct presetType;
  (eexists; split; [vm_compute; reflexivity|];
   split; [reflexivity|]; split;
   [ eexists; split; [vm_compute; reflexivity|]; repeat split
   | repeat (apply Forall_cons || apply Forall_nil);
     eexists; (split; [vm_compute; reflexivity|]); repeat split ]).

(** X18. Presets pass validation.  For each of the five chips of the table and
    for both kinds of preset, loadPreset replaces the list of files by the
    preset's entries, named after their types; this list is complete for the
    chip - nothing required is missing and no two files share an address -
    and each of its files is valid on its own, with no error and no warning.
    For a chip name the table does not know (and that is no inherited
    property) loadPreset replaces the list of files by the empty list; with
    no chip it leaves the list alone. *)
Theorem presets_pass_validation :
  forall (chipType : string) (presetType : PresetType),
    (In chipType (map fst CHIP_REQUIREMENTS) ->
     exists files,
       loadPreset (Some chipType) presetType = Returned (Some files) /\
       List.length files = match presetType with Basic => 3 | Ota => 4 end /\
       (exists summary,
          validateFirmwareSet files (Some chipType) = Returned summary /\
          isComplete summary = true /\ missingRequired summary = [] /\
          addressConflicts summary = []) /\
       Forall (fun file =>
                 exists result,
                   validateFile file (Some chipType) = Returned result /\
                   isValid result = true /\ errors result = [] /\ warnings result = [])
         files) /\
    (truthy chipType = true -> chipProperty chipType = Absent ->
     loadPreset (Some chipType) presetType = Returned (Some [])) /\
    loadPreset None presetType = Returned None /\
    loadPreset (Some "") presetType = Returned None.
Proof.
  intros chipType presetType. split; [|split; [|split; reflexivity]].
  - simpl. intros H.
    repeat (destruct H as [<- | H]; [preset_case presetType|]).
    destruct H.
  - intros Ht Ha. unfold loadPreset, generatePreset. simpl. rewrite Ht, Ha. reflexivity.
Qed.

(** X19. A chip name that is an inherited property.  [CHIP_REQUIREMENTS] is
    indexed with the chip name as it comes; for the name of a property of
    Object.prototype the lookup does not answer undefined, so the unknown-chip
    branch is not taken: getChipRequirements returns the inherited value, and
    validateFile, validateFirmwareSet, generatePreset and loadPreset throw on
    its missing fields.  For every other chip name none of them throws. *)
Theorem inherited_chip_names_throw :
  forall (chipType : string) (file : ESPFile) (files : list ESPFile)
         (presetType : PresetType),
    (In chipType objectPrototypeKeys ->
     getChipRequirements (Some chipType) = Inherited /\
     validateFile file (Some chipType) = Thrown undefinedDereference /\
     validateFirmwareSet files (Some chipType) = Thrown undefinedDereference /\
     generatePreset chipType presetType = Thrown undefinedDereference /\
     loadPreset (Some chipType) presetType = Thrown undefinedDereference) /\
    (~ In chipType objectPrototypeKeys ->
     (exists result, validateFile file (Some chipType) = Returned result) /\
     (exists summary, validateFirmwareSet files (Some chipType) = Returned summary) /\
     (exists preset, generatePreset chipType presetType = Returned preset) /\
     (exists loaded, loadPreset (Some chipType) presetType = Returned loaded)).
Proof.
  intros chipType file files presetType. split.
  - intros Hin. pose proof (proj2 (inherited_iff chipType) Hin) as Hp.
    assert (Ht : truthy chipType = true).
    { simpl in Hin. repeat (destruct Hin as [<- | Hin]; [reflexivity|]). destruct Hin. }
    unfold getChipRequirements, validateFile, validateFirmwareSet, loadPreset,
      generatePreset, chipGiven.
    rewrite Ht, Hp. repeat split.
  - intros Hn.
    assert (Hp : chipProperty chipType <> Inherited).
    { intros H. apply Hn, inherited_iff, H. }
    unfold validateFile, validateFirmwareSet, loadPreset, generatePreset, chipGiven.
    destruct (truthy chipType); destruct (chipProperty chipType);
      try contradiction; repeat split; eexists; reflexivity.
Qed.

(** ** Browser compatibility *)

Lemma browserName_cases (env : BrowserEnv) :
  In (browserName (getBrowserInfo env))
    ["Chrome"; "Edge"; "Firefox"; "Safari"; "Opera"; "Unknown"] /\
  isSecure (getBrowserInfo env)
  = (String.eqb (protocol env) "https:" || String.eqb (hostname env) "localhost"
     || String.eqb (hostname env) "127.0.0.1") /\
  (JS.includes (userAgent env) "Edg" = true -> browserName (getBrowserInfo env) = "Edge") /\
  (browserName (getBrowserInfo env) = "Chrome" ->
   JS.includes (userAgent env) "Chrome" = true /\ JS.includes (userAgent env) "Edg" = false) /\
  (browserName (getBrowserInfo env) = "Safari" ->
   JS.includes (userAgent env) "Chrome" = false).
Proof.
  unfold getBrowserInfo.
  destruct (JS.includes (userAgent env) "Chrome") eqn:Hc,
    (JS.includes (userAgent env) "Edg") eqn:He,
    (JS.includes (userAgent env) "Firefox") eqn:Hf,
    (JS.includes (userAgent env) "Safari") eqn:Hs,
    (JS.includes (userAgent env) "Opera") eqn:Ho;
    cbn [andb negb browserName isSecure];
    (split; [simpl; auto 10|]); (split; [reflexivity|]);
    repeat split; auto; intros; try discriminate; congruence.
Qed.

(** X21. What the compatibility hook reports.  Whatever the environment and the
    functionality test answer: supported is true exactly when the status is
    not "unsupported"; outside a secure context (https, localhost or
    127.0.0.1) the answer is unsupported even with a native Web Serial API;
    the status is "supported" only with a native API that the functionality
    test found working, and "polyfill" only with a native API or a browser
    named Chrome, Edge or Opera.  A failed functionality test never turns a
    supported answer into an unsupported one: it only lowers "supported" to
    "polyfill" and adds one recommendation.  A user agent that mentions Edg is
    named Edge even though it mentions Chrome too. *)
Theorem compatibility_report :
  forall (env : BrowserEnv) (test : FunctionalityEnv),
    let detected := detectWebSerialCompatibility env in
    let shown := useWebSerialCompatibility env test in
    (supported shown = true <-> status shown <> StatusUnsupported) /\
    supported shown = supported detected /\
    browserInfo shown = getBrowserInfo env /\
    (isSecure (getBrowserInfo env) = false ->
     supported shown = false /\ status shown = StatusUnsupported) /\
    (status shown = StatusSupported ->
     nativeSerial env = true /\ testWebSerialFunctionality test = true /\ shown = detected) /\
    (status shown = StatusPolyfill ->
     nativeSerial env = true \/
     In (browserName (getBrowserInfo env)) ["Chrome"; "Edge"; "Opera"]) /\
    (testWebSerialFunctionality test = false -> status detected = StatusSupported ->
     status shown = StatusPolyfill /\
     recommendations shown = "Try refreshing the page" :: recommendations detected) /\
    (JS.includes (userAgent env) "Edg" = true ->
     browserName (browserInfo shown) = "Edge").
Proof.
  intros env test. cbv zeta.
  destruct (browserName_cases env) as [Hn [Hs [He _]]].
  unfold useWebSerialCompatibility, detectCompatibility, detectWebSerialCompatibility.
  assert (Hcb : isChromeBased (browserName (getBrowserInfo env)) = true ->
                In (browserName (getBrowserInfo env)) ["Chrome"; "Edge"; "Opera"]).
  { unfold isChromeBased. intros H. apply existsb_exists in H.
    destruct H as [k [Hk Hkk]]. apply String.eqb_eq in Hkk. subst k. exact Hk. }
  destruct (isSecure (getBrowserInfo env)) eqn:Hsec; cbn [negb].
  2:{ cbn. repeat split; auto; intros; try discriminate; try contradiction; try congruence. }
  destruct (nativeSerial env) eqn:Hnat.
  - cbn [supported status].
    destruct (testWebSerialFunctionality test) eqn:Ht; cbn;
      repeat split; auto; intros; try discriminate; try contradiction; try congruence.
  - destruct (isChromeBased (browserName (getBrowserInfo env))) eqn:Hc.
    + cbn [supported status andb].
      destruct (testWebSerialFunctionality test); cbn;
        repeat split; auto; intros; try discriminate; try contradiction; try congruence;
        right; apply Hcb; reflexivity.
    + cbn. repeat split; auto; intros; try discriminate; try contradiction; try congruence.
Qed.

(** ** The ANSI parser *)

Lemma snoc_append (s : string) (c : ascii) (t : string) :
  snoc s c ^+ t = s ^+ String c t.
Proof. unfold snoc. rewrite append_assoc_text. reflexivity. Qed.

Lemma splitFrom_nonempty (s : string) :
  forall (textSoFar : string) (st : ScanState), splitFrom s textSoFar st <> [].
Proof.
  induction s as [|c s IH]; intros textSoFar st; [discriminate|].
  destruct st as [| |codes]; cbn [splitFrom];
    repeat match goal with
           | |- context [if ?b then _ else _] => destruct b
           end; try apply IH; discriminate.
Qed.

(** The split loses nothing: putting the matched sequences back between the
    pieces of text gives the text that was scanned. *)
Lemma splitFrom_unsplit (s : string) :
  forall (textSoFar : string) (st : ScanState),
    unsplit (splitFrom s textSoFar st) = textSoFar ^+ pendingText st ^+ s.
Proof.
  induction s as [|c s IH]; intros textSoFar st.
  - simpl. rewrite !append_empty_r. reflexivity.
  - destruct st as [| |codes]; cbn [splitFrom].
    + destruct (Ascii.eqb c ESC) eqn:E.
      * apply Ascii.eqb_eq in E. subst c. rewrite IH. reflexivity.
      * rewrite IH. cbn [pendingText]. simpl. apply snoc_append.
    + destruct (Ascii.eqb c "[") eqn:E1; [|destruct (Ascii.eqb c ESC) eqn:E2].
      * apply Ascii.eqb_eq in E1. subst c. rewrite IH. reflexivity.
      * apply Ascii.eqb_eq in E2. subst c. rewrite IH.
        cbn [pendingText]. rewrite !append_assoc_text. reflexivity.
      * rewrite IH. cbn [pendingText]. simpl (String.append "" _).
        rewrite snoc_append, !append_assoc_text. reflexivity.
    + destruct (isCodeChar c) eqn:E0;
        [|destruct (Ascii.eqb c "m") eqn:E1; [|destruct (Ascii.eqb c ESC) eqn:E2]].
      * rewrite IH. cbn [pendingText]. unfold CSI. cbn [String.append].
        rewrite snoc_append. reflexivity.
      * apply Ascii.eqb_eq in E1. subst c. cbn [unsplit].
        destruct (splitFrom s "" InText) as [|p ps] eqn:Es.
        { destruct (splitFrom_nonempty s "" InText Es). }
        rewrite <- Es, IH. cbn [pendingText]. simpl (String.append "" _).
        rewrite !append_assoc_text. reflexivity.
      * apply Ascii.eqb_eq in E2. subst c. rewrite IH.
        cbn [pendingText]. rewrite !append_assoc_text. reflexivity.
      * rewrite IH. cbn [pendingText]. simpl (String.append "" _).
        rewrite snoc_append, !append_assoc_text. reflexivity.
Qed.

Lemma includes_char (c d : ascii) (s : string) :
  JS.includes (String c s) (String d "") = Ascii.eqb c d || JS.includes s (String d "").
Proof.
  cbn [JS.includes JS.startsWith].
  destruct s; cbn [JS.startsWith]; rewrite andb_true_r; reflexivity.
Qed.

Lemma split_plain (s : string) :
  hasEscape s = false ->
  forall textSoFar, splitFrom s textSoFar InText = [textSoFar ^+ s].
Proof.
  unfold hasEscape. induction s as [|c s IH]; intros H textSoFar.
  - reflexivity.
  - rewrite includes_char in H. apply orb_false_iff in H. destruct H as [Hc Hs].
    cbn [splitFrom]. rewrite Hc, (IH Hs). rewrite snoc_append. reflexivity.
Qed.

Lemma segmentsFrom_texts (n : nat) :
  forall (parts : list string) (currentStyle : ANSIStyle),
    List.length parts <= n ->
    map text (segmentsFrom parts currentStyle) = filter truthy (contents parts) /\
    Forall (fun segment => text segment <> "") (segmentsFrom parts currentStyle).
Proof.
  induction n as [|n IH]; intros parts currentStyle Hn.
  - destruct parts; [split; [reflexivity | constructor] | simpl in Hn; lia].
  - destruct parts as [|content [|codes rest]]; cbn [segmentsFrom contents filter].
    + split; [reflexivity | constructor].
    + rewrite app_nil_r. destruct (truthy content) eqn:E; simpl;
        split; try reflexivity; repeat constructor.
      simpl. intros ->. discriminate E.
    + assert (Hr : List.length rest <= n) by (simpl in Hn; lia).
      destruct (IH rest (applyCodes currentStyle (codesOf codes)) Hr) as [H1 H2].
      rewrite map_app, H1.
      split.
      * destruct (truthy content); reflexivity.
      * apply Forall_app. split; [|exact H2].
        destruct (truthy content) eqn:E; repeat constructor.
        simpl. intros ->. discriminate E.
Qed.

(** X22. parseANSI keeps the text.  The split at the escape sequences loses
    nothing: the pieces of text with the matched sequences put back between
    them are the input.  The texts of the parsed segments are exactly the
    non-empty pieces, in order; no segment is empty; a text that holds no
    escape character comes back as one segment without style (none when the
    text is empty). *)
Theorem parseANSI_keeps_the_text :
  forall (s : string),
    unsplit (splitANSI s) = s /\
    map text (parseANSI s) = filter truthy (contents (splitANSI s)) /\
    Forall (fun segment => text segment <> "") (parseANSI s) /\
    (hasEscape s = false ->
     parseANSI s = if truthy s then [{| text := s; style := noStyle |}] else []).
Proof.
  intros s. split; [|split; [|split]].
  - unfold splitANSI. rewrite splitFrom_unsplit. reflexivity.
  - apply (segmentsFrom_texts (List.length (splitANSI s))). lia.
  - apply (segmentsFrom_texts (List.length (splitANSI s))). lia.
  - intros H. unfold parseANSI, splitANSI. rewrite (split_plain s H). simpl.
    destruct (truthy s); reflexivity.
Qed.

(** ** Which errors outlive an operation *)






(** ** Mutual exclusion through the latest render *)

(** X25. Mutual exclusion of the modes through the latest render.  Whatever
    the props, in every sequence of connect, startConsole, disconnect,
    stopConsole, program, eraseFlash and setDebugLogging calls and read-loop
    runs in which each call goes through the callback of the latest render -
    the state its closure captured agrees with the state reached on the
    fields of the callback's dependency list - and whatever the collaborators
    answer, no state of the session, the initial one included, has
    isConnected and isConsoleConnected both true.  The isConsoleConnected
    that startConsole reads may be out of date: it is not one of its
    dependencies. *)
Theorem modes_exclusive_through_latest_render :
  forall (props : ProviderProps) (calls : list Invocation),
    fromLatestRender props (providerInitialState props) (mountedEffect props)
      initialRefs calls ->
    Forall (fun state => isConnected state && isConsoleConnected state = false)
      (providerInitialState props
       :: snapshots (providerInitialState props)
            (session props (providerInitialState props) (mountedEffect props)
               initialRefs calls)).
Proof.
  intros props calls Hfresh. constructor; [reflexivity|].
  assert (H0 : mutuallyExclusive (providerInitialState props)) by reflexivity.
  revert Hfresh H0.
  generalize (providerInitialState props) (mountedEffect props) initialRefs.
  induction calls as [|i calls IH]; intros state effect r Hfresh H0;
    [constructor|].
  cbn [session fromLatestRender] in *. destruct Hfresh as [Hi Hrest].
  destruct (invoke_exclusive props state effect i r Hi H0) as [Ha Hb].
  rewrite snapshots_app. apply Forall_app. split; [exact Ha|].
  apply IH; [exact Hrest | exact Hb].
Qed.

(** A connect from the first render, then a startConsole through the
    callback of the render that followed the connect: program mode is
    disconnected before the console starts. *)
Lemma modes_exclusive_through_latest_render_witness :
  let first := providerInitialState plainProps in
  let connected :=
    replay first
      (events (connect first 115200 None (connectWith (fun _ => None)) initialRefs)) in
  let calls := [InvokeConnect first None (connectWith (fun _ => None));
                InvokeStartConsole connected None quietStart] in
  let trace := session plainProps first (mountedEffect plainProps) initialRefs calls in
  fromLatestRender plainProps first (mountedEffect plainProps) initialRefs calls /\
  In (Call (TransportDisconnect {| device := examplePort; tracing := false |})) trace /\
  isConsoleConnected (replay first trace) = true /\
  Forall (fun state => isConnected state && isConsoleConnected state = false)
    (first :: snapshots first trace).
Proof.
  cbv zeta.
  assert (H : fromLatestRender plainProps (providerInitialState plainProps)
                (mountedEffect plainProps) initialRefs
                [InvokeConnect (providerInitialState plainProps) None
                   (connectWith (fun _ => None));
                 InvokeStartConsole
                   (replay (providerInitialState plainProps)
                      (events (connect (providerInitialState plainProps) 115200 None
                                 (connectWith (fun _ => None)) initialRefs)))
                   None quietStart]).
  { vm_compute. repeat split. }
  split; [exact H|]. split; [vm_compute; tauto|]. split; [reflexivity|].
  apply (modes_exclusive_through_latest_render plainProps _ H).
Defined.

(** ** Rejections with null or undefined *)

(** *** The earlier operations are the case of object rejections *)

Lemma alike_ret {A} (a : A) : alike (ret a) (Nullish.ret a).
Proof. intros r. reflexivity. Qed.

Lemma alike_throw {A} (e : JsError) :
  alike (@throw A e) (Nullish.throw (Nullish.RejectedWith e)).
Proof. intros r. reflexivity. Qed.

Lemma alike_current : alike current Nullish.current.
Proof. intros r. reflexivity. Qed.

Lemma alike_assign (f : Refs -> Refs) : alike (assign f) (Nullish.assign f).
Proof. intros r. reflexivity. Qed.

Lemma alike_emit (e : Event) : alike (emit e) (Nullish.emit e).
Proof. intros r. reflexivity. Qed.

Lemma alike_bind {A B} (m : M A) (n : Nullish.M A) (k : A -> M B) (l : A -> Nullish.M B) :
  alike m n -> (forall a, alike (k a) (l a)) -> alike (bind m k) (Nullish.bind n l).
Proof.
  intros Hm Hk r. unfold bind, Nullish.bind. rewrite (Hm r).
  destruct (m r) as [[a|e] r1 evs1]; cbn; [|reflexivity].
  rewrite (Hk a r1). destruct (k a r1) as [o r2 evs2]. reflexivity.
Qed.

Lemma alike_tryCatch {A} (body : M A) (body' : Nullish.M A)
    (handler : JsError -> M A) (handler' : Nullish.Rejection -> Nullish.M A) :
  alike body body' ->
  (forall e, alike (handler e) (handler' (Nullish.RejectedWith e))) ->
  alike (tryCatch body handler) (Nullish.tryCatch body' handler').
Proof.
  intros Hb Hh r. unfold tryCatch, Nullish.tryCatch. rewrite (Hb r).
  destruct (body r) as [[a|e] r1 evs1]; cbn; [reflexivity|].
  rewrite (Hh e r1). destruct (handler e r1) as [o r2 evs2]. reflexivity.
Qed.

Lemma alike_tryFinally {A} (body : M A) (body' : Nullish.M A)
    (finalizer : M unit) (finalizer' : Nullish.M unit) :
  alike body body' -> alike finalizer finalizer' ->
  alike (tryFinally body finalizer) (Nullish.tryFinally body' finalizer').
Proof.
  intros Hb Hf r. unfold tryFinally, Nullish.tryFinally. rewrite (Hb r).
  destruct (body r) as [o1 r1 evs1]; cbn.
  rewrite (Hf r1). destruct (finalizer r1) as [[[]|e] r2 evs2]; reflexivity.
Qed.

Lemma alike_ignoreErrors (body : M unit) (body' : Nullish.M unit) :
  alike body body' -> alike (ignoreErrors body) (Nullish.ignoreErrors body').
Proof.
  intros H. apply alike_tryCatch; [exact H|]. intros e. apply alike_ret.
Qed.

Lemma alike_await (c : ExternalCall) (answer : option JsError) :
  alike (await c answer) (Nullish.await c (objectAnswer answer)).
Proof. intros r. destruct answer; reflexivity. Qed.

Lemma alike_awaitValue {A} (c : ExternalCall) (answer : Outcome A) :
  alike (awaitValue c answer) (Nullish.awaitValue c (objectOutcome answer)).
Proof. intros r. destruct answer; reflexivity. Qed.

Lemma alike_whenSome {A} (x : option A) (k : A -> M unit) (l : A -> Nullish.M unit) :
  (forall a, alike (k a) (l a)) -> alike (whenSome x k) (Nullish.whenSome x l).
Proof. intros H. destruct x; [apply H | apply alike_ret]. Qed.

Lemma alike_when (b : bool) (k : M unit) (l : Nullish.M unit) :
  alike k l -> alike (when b k) (Nullish.when b l).
Proof. intros H. destruct b; [exact H | apply alike_ret]. Qed.

(** One step of the proof that two operations of the same shape run
    alike. *)
Ltac alike_step :=
  match goal with
  | |- forall _, _ => intro
  | |- alike _ (Nullish.readingMessage _ (Nullish.RejectedWith _)) =>
      cbn [Nullish.readingMessage]
  | |- alike (bind _ _) _ => apply alike_bind
  | |- alike (ret _) _ => apply alike_ret
  | |- alike (throw _) _ => apply alike_throw
  | |- alike current _ => apply alike_current
  | |- alike (assign _) _ => apply alike_assign
  | |- alike (dispatch _) _ => apply alike_emit
  | |- alike (delay _) _ => apply alike_emit
  | |- alike (emit _) _ => apply alike_emit
  | |- alike (await _ _) _ => apply alike_await
  | |- alike (awaitValue _ _) _ => apply alike_awaitValue
  | |- alike (tryCatch _ _) _ => apply alike_tryCatch
  | |- alike (tryFinally _ _) _ => apply alike_tryFinally
  | |- alike (ignoreErrors _) (Nullish.ignoreErrors _) => apply alike_ignoreErrors
  | |- alike (ignoreErrors _) (Nullish.tryCatch _ _) => unfold ignoreErrors
  | |- alike (whenSome _ _) _ => apply alike_whenSome
  | |- alike (when _ _) _ => apply alike_when
  | |- alike (match ?x with _ => _ end) _ => destruct x
  | |- alike (if ?x then _ else _) _ => destruct x
  | |- alike (let _ := _ in _) _ => cbv zeta
  end.

(** The answers of an environment of object rejections. *)
Ltac object_answers :=
  cbn [objectStopConsoleEnv objectConnectEnv objectDisconnectEnv objectProgramEnv
       Nullish.stopCancel Nullish.stopDisconnect Nullish.stopReadable Nullish.stopClose
       Nullish.connectStop Nullish.connectSerial Nullish.connectRequestPort
       Nullish.connectMain Nullish.connectChipName Nullish.cleanupDisconnect
       Nullish.cleanupReadable Nullish.cleanupClose
       Nullish.disconnectTransport Nullish.disconnectReadable Nullish.disconnectClose
       Nullish.programReports Nullish.programWriteFlash].

Ltac alikes := object_answers; repeat alike_step.

Lemma stopConsole_alike (env : StopConsoleEnv) :
  alike (stopConsole env) (Nullish.stopConsole (objectStopConsoleEnv env)).
Proof. unfold stopConsole, Nullish.stopConsole. alikes. Qed.

Lemma retryLoop_alike (remaining : nat) :
  forall (attempt : nat) (loader : ESPLoader) (mainResult : nat -> option JsError),
    alike (retryLoop remaining attempt loader mainResult)
      (Nullish.retryLoop remaining attempt loader
         (fun n => objectAnswer (mainResult n))).
Proof.
  induction remaining as [|n IH]; intros attempt loader mainResult;
    cbn [retryLoop Nullish.retryLoop].
  - apply alike_ret.
  - alikes. apply IH.
Qed.

Lemma connect_alike (state : ESPLoaderState) (rom : Z) (portToUse : option SerialPort)
    (env : ConnectEnv) :
  alike (connect state rom portToUse env)
    (Nullish.connect state rom portToUse (objectConnectEnv env)).
Proof.
  unfold connect, Nullish.connect, connectProtected, Nullish.connectProtected,
    connectAttempt, Nullish.connectAttempt, connectFailed, Nullish.connectFailed,
    handshake, Nullish.handshake.
  alikes.
  - apply stopConsole_alike.
  - apply (retryLoop_alike maxRetries 1).
Qed.

Lemma disconnect_alike (env : DisconnectEnv) :
  alike (disconnect env) (Nullish.disconnect (objectDisconnectEnv env)).
Proof.
  unfold disconnect, Nullish.disconnect, disconnectFinally, Nullish.disconnectFinally.
  alikes.
Qed.

Lemma reportAll_alike (files : list FlashFile) (reports : list ProgressReport) :
  alike (reportAll files reports) (Nullish.reportAll files reports).
Proof.
  induction reports as [|p reports IH]; simpl.
  - apply alike_ret.
  - apply alike_bind; [apply alike_emit | intros _; exact IH].
Qed.

Lemma program_alike (state : ESPLoaderState) (files : list ESPFile)
    (options : FlashOverrides) (env : ProgramEnv) :
  alike (program state files options env)
    (Nullish.program state files options (objectProgramEnv env)).
Proof.
  unfold program, Nullish.program. alikes; try apply reportAll_alike.
Qed.

Lemma eraseFlash_alike (state : ESPLoaderState) (eraseResult : option JsError) :
  alike (eraseFlash state eraseResult)
    (Nullish.eraseFlash state (objectAnswer eraseResult)).
Proof. unfold eraseFlash, Nullish.eraseFlash. alikes. Qed.

(** *** When the operations reject *)

Lemma nullish_stopConsole_run (env : Nullish.StopConsoleEnv) (r : Refs) :
  Nullish.outcome (Nullish.stopConsole env r) =
  (if stopConsoleRejects r env then Nullish.failedRead else Nullish.Returned tt) /\
  (stopConsoleRejects r env = true ->
   forall reader, consoleReader r = Some reader ->
     Nullish.events (Nullish.stopConsole env r) = [Call (ReaderCancel reader)] /\
     consoleReader (Nullish.refsAfter (Nullish.stopConsole env r)) = Some reader).
Proof.
  destruct env as [a b c d]; destruct r as [pd pt ei cd ct cr k ip].
  destruct cr, a as [[e|]|], ct, b, cd, c, d; cbn; split;
    try reflexivity; try discriminate;
    intros _ reader H; injection H as <-; split; reflexivity.
Qed.

Lemma nullish_disconnect_outcome (env : Nullish.DisconnectEnv) (r : Refs) :
  Nullish.outcome (Nullish.disconnect env r) =
  if disconnectRejects r env then Nullish.failedRead else Nullish.Returned tt.
Proof.
  destruct env as [dt rd cl]; destruct r as [pd pt ei cd ct cr k ip].
  destruct pt, dt as [[e|]|], pd, rd, cl; reflexivity.
Qed.

Lemma nullish_reportAll_run (files : list FlashFile) (reports : list ProgressReport)
    (r : Refs) :
  Nullish.outcome (Nullish.reportAll files reports r) = Nullish.Returned tt /\
  Nullish.refsAfter (Nullish.reportAll files reports r) = r.
Proof.
  induction reports as [|p reports IH]; [split; reflexivity|].
  cbn [Nullish.reportAll]. unfold Nullish.bind. cbn.
  destruct (Nullish.reportAll files reports r) as [o r1 evs]. cbn in *.
  destruct IH as [-> ->]. split; reflexivity.
Qed.

Lemma nullish_program_outcome (state : ESPLoaderState) (files : list ESPFile)
    (options : FlashOverrides) (env : Nullish.ProgramEnv) (r : Refs) :
  Nullish.outcome (Nullish.program state files options env r) =
  if engineCallRejects state r (Nullish.programWriteFlash env)
  then Nullish.failedRead else Nullish.Returned tt.
Proof.
  unfold Nullish.program, engineCallRejects, Nullish.bind at 1. cbn [Nullish.current].
  destruct (esploaderInstance r) as [loader|] eqn:Hl; [|reflexivity].
  destruct (isConnected state); [|reflexivity].
  cbn [isNull negb orb andb].
  unfold Nullish.bind, Nullish.tryFinally, Nullish.tryCatch, Nullish.dispatch, Nullish.emit,
    Nullish.current. cbn. rewrite Hl. cbn.
  destruct (nullish_reportAll_run (map toFlashFile files) (Nullish.programReports env) r)
    as [Ho Hr].
  destruct (Nullish.reportAll (map toFlashFile files) (Nullish.programReports env) r)
    as [o r1 evs]. cbn in Ho, Hr. subst o r1.
  destruct (Nullish.programWriteFlash env) as [[e|]|]; reflexivity.
Qed.

Lemma nullish_eraseFlash_outcome (state : ESPLoaderState)
    (eraseResult : option Nullish.Rejection) (r : Refs) :
  Nullish.outcome (Nullish.eraseFlash state eraseResult r) =
  if engineCallRejects state r eraseResult then Nullish.failedRead else Nullish.Returned tt.
Proof.
  destruct r as [pd pt ei cd ct cr k ip].
  unfold engineCallRejects.
  destruct ei as [loader|], (isConnected state) eqn:Hc, eraseResult as [[err|]|];
    unfold Nullish.eraseFlash, Nullish.bind; cbn; rewrite ?Hc; reflexivity.
Qed.

Lemma nullish_retryLoop_run (remaining : nat) :
  forall (attempt : nat) (loader : ESPLoader) (mainResult : nat -> option Nullish.Rejection)
         (r : Refs),
    Nullish.refsAfter (Nullish.retryLoop remaining attempt loader mainResult r) = r /\
    (Nullish.outcome (Nullish.retryLoop remaining attempt loader mainResult r)
     = Nullish.Returned tt \/
     exists e, Nullish.outcome (Nullish.retryLoop remaining attempt loader mainResult r)
               = Nullish.Thrown (Nullish.RejectedWith e)).
Proof.
  induction remaining as [|n IH]; intros attempt loader mainResult r.
  - split; [reflexivity | left; reflexivity].
  - cbn [Nullish.retryLoop].
    unfold Nullish.bind, Nullish.tryCatch, Nullish.when, Nullish.await, Nullish.delay,
      Nullish.emit, Nullish.readingMessage.
    specialize (IH (S attempt) loader mainResult r).
    destruct (1 <? attempt)%nat, (mainResult attempt) as [[e|]|],
      (attempt =? maxRetries)%nat; cbn;
      try (split; [reflexivity | first [left; reflexivity | right; eexists; reflexivity]]);
      destruct (isPermissionError e); cbn;
      try (split; [reflexivity | right; eexists; reflexivity]);
      destruct (isCommunicationError e); cbn;
      destruct (Nullish.retryLoop n (S attempt) loader mainResult r) as [o r1 evs];
      cbn in *; exact IH.
Qed.

Lemma nullish_connectProtected_outcome (state : ESPLoaderState) (rom : Z)
    (portToUse : option SerialPort) (env : Nullish.ConnectEnv) (r : Refs) :
  if connectRejectsLate portToUse env
  then Nullish.outcome (Nullish.connectProtected state rom portToUse env r)
       = Nullish.failedRead
  else exists chipName,
         Nullish.outcome (Nullish.connectProtected state rom portToUse env r)
         = Nullish.Returned chipName.
Proof.
  unfold connectRejectsLate, Nullish.connectProtected, Nullish.connectAttempt,
    Nullish.connectFailed, Nullish.handshake, Nullish.tryFinally, Nullish.tryCatch,
    Nullish.bind.
  destruct r as [pd pt ei cd ct cr k ip].
  cbn -[Nullish.retryLoop].
  destruct (Nullish.connectSerial env) as [[e|]|]; cbn -[Nullish.retryLoop].
  { destruct pt, pd, (Nullish.cleanupDisconnect env), (Nullish.cleanupReadable env),
      (Nullish.cleanupClose env); cbn; eexists; reflexivity. }
  { reflexivity. }
  destruct portToUse as [port|];
    [|destruct (Nullish.connectRequestPort env) as [[port|]|[e|]]];
    cbn -[Nullish.retryLoop].
  1,2: match goal with
       | |- context [Nullish.retryLoop ?n ?a ?l ?m ?r0] =>
           destruct (nullish_retryLoop_run n a l m r0) as [Hr Ho];
           destruct (Nullish.retryLoop n a l m r0) as [[[]|v] r2 evs]
       end; cbn in Hr, Ho; subst;
       [cbn; eexists; reflexivity|];
       destruct Ho as [Ho | [e Ho]]; [discriminate Ho|]; injection Ho as ->;
       cbn;
       destruct (Nullish.cleanupDisconnect env), (Nullish.cleanupReadable env),
         (Nullish.cleanupClose env); cbn; eexists; reflexivity.
  - eexists; reflexivity.
  - destruct pt, pd, (Nullish.cleanupDisconnect env), (Nullish.cleanupReadable env),
      (Nullish.cleanupClose env); cbn; eexists; reflexivity.
  - reflexivity.
Qed.

Lemma nullish_connect_run (state : ESPLoaderState) (rom : Z)
    (portToUse : option SerialPort) (env : Nullish.ConnectEnv) (r : Refs) :
  let s := Nullish.when (isConsoleConnected state)
             (Nullish.stopConsole (Nullish.connectStop env)) r in
  match Nullish.outcome s with
  | Nullish.Thrown v =>
      Nullish.outcome (Nullish.connect state rom portToUse env r) = Nullish.Thrown v /\
      Nullish.events (Nullish.connect state rom portToUse env r) =
      Dispatch (SET_IS_LOADING true) :: Dispatch (SET_ERROR None) :: Nullish.events s
  | Nullish.Returned _ =>
      let y := Nullish.connectProtected state rom portToUse env (Nullish.refsAfter s) in
      Nullish.outcome (Nullish.connect state rom portToUse env r) = Nullish.outcome y /\
      Nullish.events (Nullish.connect state rom portToUse env r) =
      Dispatch (SET_IS_LOADING true) :: Dispatch (SET_ERROR None)
      :: Nullish.events s ++ Nullish.events y
  end.
Proof.
  cbv zeta. unfold Nullish.connect, Nullish.bind.
  cbn -[Nullish.stopConsole Nullish.connectProtected].
  destruct (isConsoleConnected state); cbn -[Nullish.stopConsole Nullish.connectProtected].
  - destruct (Nullish.stopConsole (Nullish.connectStop env) r) as [[[]|v] r1 evs1];
      cbn -[Nullish.connectProtected]; [|split; reflexivity].
    destruct (Nullish.connectProtected state rom portToUse env r1); split; reflexivity.
  - destruct (Nullish.connectProtected state rom portToUse env r); split; reflexivity.
Qed.

Lemma nullish_connect_outcome (state : ESPLoaderState) (rom : Z)
    (portToUse : option SerialPort) (env : Nullish.ConnectEnv) (r : Refs) :
  if connectRejectsEarly state r env || connectRejectsLate portToUse env
  then Nullish.outcome (Nullish.connect state rom portToUse env r) = Nullish.failedRead
  else exists chipName,
         Nullish.outcome (Nullish.connect state rom portToUse env r)
         = Nullish.Returned chipName.
Proof.
  pose proof (nullish_connect_run state rom portToUse env r) as Hrun. cbv zeta in Hrun.
  unfold connectRejectsEarly.
  destruct (isConsoleConnected state); cbn [Nullish.when andb orb] in *.
  - destruct (nullish_stopConsole_run (Nullish.connectStop env) r) as [Ho _].
    rewrite Ho in Hrun.
    destruct (stopConsoleRejects r (Nullish.connectStop env)); cbn [orb] in *.
    + apply Hrun.
    + destruct Hrun as [-> _]. apply nullish_connectProtected_outcome.
  - cbn [Nullish.ret Nullish.outcome Nullish.refsAfter] in Hrun.
    destruct Hrun as [-> _]. apply nullish_connectProtected_outcome.
Qed.

Lemma nullish_connect_early (state : ESPLoaderState) (rom : Z)
    (portToUse : option SerialPort) (env : Nullish.ConnectEnv) (r : Refs) :
  connectRejectsEarly state r env = true ->
  exists reader,
    consoleReader r = Some reader /\
    Nullish.events (Nullish.connect state rom portToUse env r) =
    [Dispatch (SET_IS_LOADING true); Dispatch (SET_ERROR None);
     Call (ReaderCancel reader)].
Proof.
  unfold connectRejectsEarly. intros H. apply andb_true_iff in H. destruct H as [Hc Hs].
  pose proof (nullish_connect_run state rom portToUse env r) as Hrun. cbv zeta in Hrun.
  rewrite Hc in Hrun. cbn [Nullish.when] in Hrun.
  destruct (nullish_stopConsole_run (Nullish.connectStop env) r) as [Ho He].
  rewrite Hs in Ho. specialize (He Hs). rewrite Ho in Hrun. destruct Hrun as [_ ->].
  unfold stopConsoleRejects in Hs. apply andb_true_iff in Hs. destruct Hs as [Hreader _].
  destruct (consoleReader r) as [reader|] eqn:Hcr; [|discriminate Hreader].
  destruct (He reader eq_refl) as [-> _]. exists reader. split; reflexivity.
Qed.

Lemma objectAnswer_not_nullish (answer : option JsError) :
  isNullish (objectAnswer answer) = false.
Proof. destruct answer; reflexivity. Qed.

Lemma objectRun_returned {A} (x : Run A) (a : A) :
  Nullish.outcome (objectRun x) = Nullish.Returned a -> outcome x = Returned a.
Proof.
  destruct x as [[a'|e] r evs]; cbn; intros H; [injection H as ->; reflexivity|].
  discriminate H.
Qed.

(** X3. Which operations reject, and when.  A value a collaborator rejects
    with is an object or is null or undefined; on the latter the read of
    e.message in a catch block throws a TypeError.  stopConsole rejects
    exactly when it has a reader to cancel and the cancel rejects with null
    or undefined; disconnect exactly when it has a transport and its
    disconnect does so; program and eraseFlash exactly when they pass their
    guard and the engine call does so; connect exactly when the console is
    marked connected and the nested stopConsole rejects, or getSerialInstance
    or the requestPort that follows it does so - a handshake attempt that
    rejects with null or undefined does not make connect reject.  Each of
    them then rejects with that TypeError, an object.  A connect that rejects
    for its stopConsole has dispatched SET_IS_LOADING true and SET_ERROR null
    and cancelled the reader, and nothing else.  On rejections that are
    objects these five operations run as stopConsole, disconnect, program,
    eraseFlash and connect of the earlier sections do, and then none of them
    rejects: a caller's catch around them never runs. *)
Theorem operations_reject_on_nullish_only :
  forall (state : ESPLoaderState) (rom : Z) (portToUse : option SerialPort) (r : Refs),
    (forall env,
       Nullish.outcome (Nullish.stopConsole env r) =
       if stopConsoleRejects r env then Nullish.failedRead else Nullish.Returned tt) /\
    (forall env,
       Nullish.outcome (Nullish.disconnect env r) =
       if disconnectRejects r env then Nullish.failedRead else Nullish.Returned tt) /\
    (forall files options env,
       Nullish.outcome (Nullish.program state files options env r) =
       if engineCallRejects state r (Nullish.programWriteFlash env)
       then Nullish.failedRead else Nullish.Returned tt) /\
    (forall eraseResult,
       Nullish.outcome (Nullish.eraseFlash state eraseResult r) =
       if engineCallRejects state r eraseResult
       then Nullish.failedRead else Nullish.Returned tt) /\
    (forall env,
       if connectRejectsEarly state r env || connectRejectsLate portToUse env
       then Nullish.outcome (Nullish.connect state rom portToUse env r) = Nullish.failedRead
       else exists chipName,
              Nullish.outcome (Nullish.connect state rom portToUse env r)
              = Nullish.Returned chipName) /\
    (forall env,
       connectRejectsEarly state r env = true ->
       exists reader,
         consoleReader r = Some reader /\
         Nullish.events (Nullish.connect state rom portToUse env r) =
         [Dispatch (SET_IS_LOADING true); Dispatch (SET_ERROR None);
          Call (ReaderCancel reader)]) /\
    (forall env,
       Nullish.stopConsole (objectStopConsoleEnv env) r = objectRun (stopConsole env r) /\
       outcome (stopConsole env r) = Returned tt) /\
    (forall env,
       Nullish.disconnect (objectDisconnectEnv env) r = objectRun (disconnect env r) /\
       outcome (disconnect env r) = Returned tt) /\
    (forall files options env,
       Nullish.program state files options (objectProgramEnv env) r
       = objectRun (program state files options env r) /\
       outcome (program state files options env r) = Returned tt) /\
    (forall eraseResult,
       Nullish.eraseFlash state (objectAnswer eraseResult) r
       = objectRun (eraseFlash state eraseResult r) /\
       outcome (eraseFlash state eraseResult r) = Returned tt) /\
    (forall env,
       Nullish.connect state rom portToUse (objectConnectEnv env) r
       = objectRun (connect state rom portToUse env r) /\
       exists chipName, outcome (connect state rom portToUse env r) = Returned chipName).
Proof.
  intros state rom portToUse r.
  split; [intros env; apply nullish_stopConsole_run|].
  split; [intros env; apply nullish_disconnect_outcome|].
  split; [intros files options env; apply nullish_program_outcome|].
  split; [intros eraseResult; apply nullish_eraseFlash_outcome|].
  split; [intros env; apply nullish_connect_outcome|].
  split; [intros env; apply nullish_connect_early|].
  split; [|split; [|split; [|split]]].
  - intros env. pose proof (stopConsole_alike env r) as E. split; [exact E|].
    apply objectRun_returned. rewrite <- E.
    rewrite (proj1 (nullish_stopConsole_run _ r)).
    unfold stopConsoleRejects. cbn [objectStopConsoleEnv Nullish.stopCancel].
    rewrite objectAnswer_not_nullish, andb_false_r. reflexivity.
  - intros env. pose proof (disconnect_alike env r) as E. split; [exact E|].
    apply objectRun_returned. rewrite <- E, nullish_disconnect_outcome.
    unfold disconnectRejects. cbn [objectDisconnectEnv Nullish.disconnectTransport].
    rewrite objectAnswer_not_nullish, andb_false_r. reflexivity.
  - intros files options env. pose proof (program_alike state files options env r) as E.
    split; [exact E|].
    apply objectRun_returned. rewrite <- E, nullish_program_outcome.
    unfold engineCallRejects. cbn [objectProgramEnv Nullish.programWriteFlash].
    rewrite objectAnswer_not_nullish, andb_false_r. reflexivity.
  - intros eraseResult. pose proof (eraseFlash_alike state eraseResult r) as E.
    split; [exact E|].
    apply objectRun_returned. rewrite <- E, nullish_eraseFlash_outcome.
    unfold engineCallRejects.
    rewrite objectAnswer_not_nullish, andb_false_r. reflexivity.
  - intros env. pose proof (connect_alike state rom portToUse env r) as E.
    split; [exact E|].
    pose proof (nullish_connect_outcome state rom portToUse (objectConnectEnv env) r) as H.
    assert (Hno : connectRejectsEarly state r (objectConnectEnv env)
                  || connectRejectsLate portToUse (objectConnectEnv env) = false).
    { unfold connectRejectsEarly, connectRejectsLate, stopConsoleRejects.
      cbn [objectConnectEnv objectStopConsoleEnv Nullish.connectStop Nullish.stopCancel
           Nullish.connectSerial Nullish.connectRequestPort].
      rewrite objectAnswer_not_nullish, !andb_false_r. cbn [orb].
      destruct (connectSerial env); cbn; [reflexivity|].
      destruct (connectRequestPort env); cbn; apply andb_false_r. }
    rewrite Hno in H. destruct H as [chipName H]. exists chipName.
    apply objectRun_returned. rewrite <- E. exact H.
Qed.

(** ** The handlers of the programming page *)

Lemma handled_settles {A} (opening : list LogEntry) (run : Nullish.Run A)
    (onSuccess : A -> LogEntry) (failurePrefix : string) (entry : LogEntry) :
  Nullish.settle run onSuccess failurePrefix = Some entry ->
  Nullish.handled opening run onSuccess failurePrefix =
  {| Nullish.logAdded := opening ++ [entry]; Nullish.awaited := Some run;
     Nullish.handlerRejected := false |}.
Proof. intros H. unfold Nullish.handled. rewrite H. reflexivity. Qed.

Lemma settle_unit (run : Nullish.Run unit) (rejects : bool)
    (success : LogEntry) (failurePrefix : string) :
  Nullish.outcome run = (if rejects then Nullish.failedRead else Nullish.Returned tt) ->
  Nullish.settle run (fun _ => success) failurePrefix =
  Some (if rejects
        then logged (failurePrefix ^+ messageText Nullish.unreadableMessage) LogError
        else success).
Proof. intros H. unfold Nullish.settle. rewrite H. destruct rejects; reflexivity. Qed.

(** X20. What the handlers of the programming page log.  The operations reject
    only when a collaborator rejects with null or undefined at a catch block
    that reads the message, and then with a TypeError; so the entry
    handleFlash logs after "Starting to program ..." is "Programming failed:"
    with the text of that TypeError when program passes its guard and
    writeFlash rejects with null or undefined, and "Programming completed
    successfully" in every other case - also when program refused for lack
    of a connection, and also when the write failed with an error object: on
    a connected session the log then says success and the state after the
    call has error null, so nothing shows the failure.  handleEraseFlash and
    handleDisconnect log their failure entry under the like condition and
    their success entry otherwise.  handleConnect logs "Connection error:"
    exactly when connect rejects, and otherwise "Connection failed" exactly
    when connect returned the empty string.  No handler rejects itself:
    what it catches is an object. *)
Theorem handlers_log_failure_on_nullish_only :
  forall (state : ESPLoaderState) (r : Refs),
    (forall files validationSummary proceed env,
       files <> [] ->
       isComplete validationSummary = true \/ proceed = true ->
       let h := Nullish.handleFlash state files validationSummary proceed env r in
       (exists before,
          Nullish.logAdded h =
          before ++
          [logged ("Starting to program " ^+ decimal (List.length files) ^+ " file(s)...")
             LogInfo;
           if engineCallRejects state r (Nullish.programWriteFlash env)
           then logged ("Programming failed: " ^+ messageText Nullish.unreadableMessage)
                  LogError
           else logged "Programming completed successfully" LogSuccess]) /\
       Nullish.awaited h = Some (Nullish.program state files noOverrides env r) /\
       Nullish.handlerRejected h = false /\
       (forall loader e,
          esploaderInstance r = Some loader -> isConnected state = true ->
          Nullish.programWriteFlash env = Some (Nullish.RejectedWith e) ->
          engineCallRejects state r (Nullish.programWriteFlash env) = false /\
          error (replay state
                   (Nullish.events (Nullish.program state files noOverrides env r)))
          = None)) /\
    (forall eraseResult,
       Nullish.logAdded (Nullish.handleEraseFlash state eraseResult r) =
       [logged "Starting flash erase operation..." LogInfo;
        if engineCallRejects state r eraseResult
        then logged ("Flash erase failed: " ^+ messageText Nullish.unreadableMessage)
               LogError
        else logged "Flash erased successfully" LogSuccess] /\
       Nullish.handlerRejected (Nullish.handleEraseFlash state eraseResult r) = false) /\
    (forall env,
       Nullish.logAdded (Nullish.handleDisconnect env r) =
       [logged "Disconnecting from ESP device..." LogInfo;
        if disconnectRejects r env
        then logged ("Disconnect error: " ^+ messageText Nullish.unreadableMessage)
               LogError
        else logged "Device disconnected successfully" LogSuccess] /\
       Nullish.handlerRejected (Nullish.handleDisconnect env r) = false) /\
    (forall rom env,
       Nullish.handlerRejected (Nullish.handleConnect state rom env r) = false /\
       if connectRejectsEarly state r env || connectRejectsLate None env
       then Nullish.logAdded (Nullish.handleConnect state rom env r) =
            [logged "Attempting to connect to ESP device..." LogInfo;
             logged ("Connection error: " ^+ messageText Nullish.unreadableMessage)
               LogError]
       else exists result,
              Nullish.outcome (Nullish.connect state rom None env r)
              = Nullish.Returned result /\
              Nullish.logAdded (Nullish.handleConnect state rom env r) =
              [logged "Attempting to connect to ESP device..." LogInfo;
               if truthy result
               then logged ("Successfully connected to " ^+ result) LogSuccess
               else logged "Connection failed" LogError]).
Proof.
  intros state r. split; [|split; [|split]].
  - intros files validationSummary proceed env Hne Hgo. cbv zeta.
    unfold Nullish.handleFlash.
    destruct files as [|file files]; [contradiction|].
    assert (Hc : negb (isComplete validationSummary) && negb proceed = false).
    { destruct Hgo as [-> | ->]; [reflexivity | apply andb_false_r]. }
    rewrite Hc.
    rewrite (handled_settles _ _ _ _ _
               (settle_unit _ _ _ _
                  (nullish_program_outcome state (file :: files) noOverrides env r))).
    cbn [Nullish.logAdded Nullish.awaited Nullish.handlerRejected].
    split; [eexists; rewrite <- app_assoc; reflexivity|].
    split; [reflexivity|]. split; [reflexivity|].
    intros loader e Hl Hcon He. rewrite He. split.
    { unfold engineCallRejects. apply andb_false_r. }
    destruct env as [reports write]. cbn [Nullish.programWriteFlash] in He. subst write.
    change {| Nullish.programReports := reports;
              Nullish.programWriteFlash := Some (Nullish.RejectedWith e) |}
      with (objectProgramEnv {| programReports := reports; programWriteFlash := Some e |}).
    set (env0 := {| programReports := reports; programWriteFlash := Some e |}).
    rewrite (program_alike state (file :: files) noOverrides env0 r).
    cbn [objectRun Nullish.events].
    rewrite (program_failure_events state r loader (file :: files) noOverrides env0 e
               Hl Hcon eq_refl).
    rewrite app_assoc. apply error_cleared_after; [left; reflexivity | repeat constructor].
  - intros eraseResult. unfold Nullish.handleEraseFlash.
    rewrite (handled_settles _ _ _ _ _
               (settle_unit _ _ _ _ (nullish_eraseFlash_outcome state eraseResult r))).
    split; reflexivity.
  - intros env. unfold Nullish.handleDisconnect.
    rewrite (handled_settles _ _ _ _ _
               (settle_unit _ _ _ _ (nullish_disconnect_outcome env r))).
    split; reflexivity.
  - intros rom env. unfold Nullish.handleConnect, Nullish.handled, Nullish.settle.
    pose proof (nullish_connect_outcome state rom None env r) as H.
    destruct (connectRejectsEarly state r env || connectRejectsLate None env).
    + rewrite H. split; reflexivity.
    + destruct H as [result H]. rewrite H. split; [reflexivity|].
      exists result. split; reflexivity.
Qed.

(** ** stopConsole while the read loop waits for a read *)

(** The pieces of [stopConsole], run one after the other with nothing in
    between, are [stopConsole]. *)
Lemma stopAlone_is_stopConsole (env : StopConsoleEnv) (r : Refs) :
  outcome (stopAlone (stopReadable env) r) = Returned StopFinished /\
  events (stopAlone (stopReadable env) r) = events (stopConsole env r) /\
  refsAfter (stopAlone (stopReadable env) r) = refsAfter (stopConsole env r).
Proof.
  destruct env as [a b c d]; destruct r as [pd pt ei cd ct cr k ip].
  destruct cr, a, ct, b, cd, c, d; repeat split.
Qed.

(** The pieces of the loop from the end of its last read on are the
    [finally] block of the loop. *)
Lemma loopAlone_is_readLoopFinally (reader : Reader) (env : ReadLoopEnv) (r : Refs) :
  outcome (loopAlone reader (loopReadable env) ReadDone r) = Returned LoopFinished /\
  events (loopAlone reader (loopReadable env) ReadDone r)
  = events (readLoopFinally reader env r) /\
  refsAfter (loopAlone reader (loopReadable env) ReadDone r)
  = refsAfter (readLoopFinally reader env r).
Proof.
  destruct env as [reads rel dis rd cl]; destruct r as [pd pt ei cd ct cr k ip].
  destruct k, rel, ct, dis, cd, rd, cl; repeat split.
Qed.

Lemma finished_no_turn (env : TeardownEnv) (t : Turn) (s : Tasks) :
  finished s = true -> turn env t s = None.
Proof.
  unfold finished. destruct s as [[] [] r h]; intros H; try discriminate H;
    destruct t; reflexivity.
Qed.

(** A turn taken after [stopConsole] has started uses up a wait, and the
    loop stays told to stop. *)
Lemma turn_progress (env : TeardownEnv) (t : Turn) (s s' : Tasks) :
  keepConsoleReading (cells s) = false ->
  turn env t s = Some s' ->
  keepConsoleReading (cells s') = false /\ waitsLeft s' < waitsLeft s.
Proof.
  destruct env as [reader sr lr result].
  destruct s as [sp lp [pd pt ei cd ct cr k ip] h]. cbn [cells keepConsoleReading].
  intros -> H.
  destruct t, sp, lp; try discriminate H;
    destruct ct, cd, sr, lr; try destruct result as [|[text|]|err];
    cbn in H; injection H as <-; cbn; split; try reflexivity; lia.
Qed.

Lemma schedule_length (env : TeardownEnv) (turns : list Turn) :
  forall s final,
    keepConsoleReading (cells s) = false ->
    schedule env turns s = Some final ->
    List.length turns <= waitsLeft s.
Proof.
  induction turns as [|t turns IH]; intros s final Hk H; cbn [schedule] in H.
  - cbn. lia.
  - destruct (turn env t s) as [s'|] eqn:Ht; [|discriminate H].
    destruct (turn_progress env t s s' Hk Ht) as [Hk' Hlt].
    specialize (IH s' final Hk' H). cbn [List.length]. lia.
Qed.

Lemma schedule_in_completions (env : TeardownEnv) (turns : list Turn) :
  forall fuel s final,
    List.length turns <= fuel ->
    schedule env turns s = Some final ->
    finished final = true ->
    In final (completions fuel env s).
Proof.
  induction turns as [|t turns IH]; intros fuel s final Hlen H Hfin; cbn [schedule] in H.
  - injection H as ->. destruct fuel; cbn [completions]; rewrite Hfin; left; reflexivity.
  - destruct (turn env t s) as [s'|] eqn:Ht; [|discriminate H].
    destruct fuel as [|fuel]; [cbn in Hlen; lia|].
    cbn [completions].
    destruct (finished s) eqn:Hs.
    { rewrite (finished_no_turn env t s Hs) in Ht. discriminate Ht. }
    cbn [List.length] in Hlen.
    apply in_or_app. destruct t; rewrite Ht; [left | right];
      apply IH; try assumption; lia.
Qed.

Ltac settle_completion :=
  cbn; repeat split; intros; try reflexivity; try lia; try congruence;
  try contradiction.

(** X23. stopConsole and the read loop tear the console down together.  When
    stopConsole is called while the loop waits for a read, the two tasks
    take turns at their awaits.  Whatever the order of the turns, whatever
    the pending read settles with and whatever the port's readable says to
    each task: at most six turns are taken; when both tasks have finished
    the reader, transport and port cells of the console are empty, both
    reading flags are false and the program-mode cells are untouched; the
    state has isConsoleConnected false, which was dispatched once or twice;
    the reader was cancelled once and its lock released once; the transport
    was disconnected at most twice - at least once when there was one - and
    the port closed at most twice.  When the loop takes the first turn and
    stopConsole the second, the order in which a cancelled stream settles
    the pending read before the cancel, and there is a transport, it is
    disconnected twice: by the loop, and again by stopConsole, which finds
    the cell still set. *)
Theorem stop_and_loop_tear_down_together :
  forall (env : TeardownEnv) (r : Refs) (turns : list Turn) (start final : Tasks),
    consoleReader r = Some (teardownReader env) ->
    stopCalled env r = Some start ->
    schedule env turns start = Some final ->
    finished final = true ->
    List.length turns <= 6 /\
    consoleReader (cells final) = None /\
    consoleTransport (cells final) = None /\
    consoleDevice (cells final) = None /\
    keepConsoleReading (cells final) = false /\
    consoleReadingInProgress (cells final) = false /\
    sameProgramCells r (cells final) /\
    (forall state, isConsoleConnected (replay state (history final)) = false) /\
    occurrences isReaderCancel (history final) = 1 /\
    occurrences isReleaseLock (history final) = 1 /\
    1 <= occurrences lowersConsoleFlag (history final) <= 2 /\
    occurrences isTransportDisconnect (history final) <= 2 /\
    (consoleTransport r <> None ->
     1 <= occurrences isTransportDisconnect (history final)) /\
    occurrences isPortClose (history final) <= 2 /\
    (forall rest,
       turns = LoopTurn :: StopTurn :: rest -> consoleTransport r <> None ->
       occurrences isTransportDisconnect (history final) = 2).
Proof.
  intros env r turns start final Hreader Hstart H Hfin.
  destruct env as [reader sr lr result]; destruct r as [pd pt ei cd ct cr k ip].
  cbn [consoleReader teardownReader] in Hreader. subst cr.
  unfold stopCalled in Hstart. cbn in Hstart. injection Hstart as <-.
  match type of H with
  | schedule ?env _ ?s = _ =>
      assert (Hlen : List.length turns <= 6)
        by (apply (schedule_length env turns s final); [reflexivity | exact H])
  end.
  split; [exact Hlen|].
  match goal with
  | |- ?A /\ ?B /\ ?C /\ ?D /\ ?E /\ ?F /\ ?G /\ ?I /\ ?J /\ ?K /\ ?L /\ ?N /\ ?O /\ ?P =>
      cut ((A /\ B /\ C /\ D /\ E /\ F /\ G /\ I /\ J /\ K /\ L /\ N /\ O) /\ P);
        [tauto|]
  end.
  split.
  - pose proof (schedule_in_completions _ turns 6 _ final Hlen H Hfin) as Hin.
    clear H Hlen Hfin.
    destruct ct, cd, sr, lr, result as [|[text|]|err];
      vm_compute in Hin;
      repeat (destruct Hin as [<-|Hin]; [settle_completion|]);
      contradiction.
  - intros rest -> Ht. destruct ct as [t|]; [clear Ht | contradiction].
    cbn [List.length] in Hlen.
    assert (Hrest : List.length rest <= 4) by lia. clear Hlen.
    destruct cd, sr, lr, result as [|[text|]|err];
      cbn in H;
      match type of H with
      | schedule ?env _ ?s = _ =>
          pose proof (schedule_in_completions env rest 4 s final Hrest H Hfin) as Hin
      end;
      clear H Hfin;
      vm_compute in Hin;
      repeat (destruct Hin as [<-|Hin]; [reflexivity|]);
      contradiction.
Qed.

(** The loop and stopConsole take turns, the loop first, on an open port:
    each of the two disconnects the transport and closes the port. *)
Lemma stop_and_loop_tear_down_together_witness :
  exists start final,
    stopCalled openPortTeardown readingRefs = Some start /\
    schedule openPortTeardown
      [LoopTurn; StopTurn; LoopTurn; StopTurn; LoopTurn; StopTurn] start = Some final /\
    history final =
    [Call (ReaderCancel exampleReader);
     Call (ReaderReleaseLock exampleReader);
     Call (TransportDisconnect {| device := examplePort; tracing := false |});
     Call (TransportDisconnect {| device := examplePort; tracing := false |});
     Call (PortClose examplePort);
     Call (PortClose examplePort);
     Dispatch (SET_IS_CONSOLE_CONNECTED false);
     Dispatch (SET_IS_CONSOLE_CONNECTED false)] /\
    consoleTransport (cells final) = None /\
    occurrences isTransportDisconnect (history final) = 2.
Proof.
  eexists. eexists.
  split; [reflexivity|]. split; [reflexivity|]. split; [reflexivity|].
  match goal with
  | |- consoleTransport (cells ?final) = None /\ _ =>
      destruct (stop_and_loop_tear_down_together openPortTeardown readingRefs
                  [LoopTurn; StopTurn; LoopTurn; StopTurn; LoopTurn; StopTurn]
                  _ final eq_refl eq_refl eq_refl eq_refl)
        as (_ & _ & Ht & _ & _ & _ & _ & _ & _ & _ & _ & _ & _ & _ & Htwice)
  end.
  split; [exact Ht|].
  apply (Htwice [LoopTurn; StopTurn; LoopTurn; StopTurn]); [reflexivity|].
  discriminate.
Defined.
